(** * Buglin: autofill risk analysis, overlays, word scanner and recent list

    A shallow embedding of the pure logic of [utils.js] / [analysis.js]
    and of the DOM-facing code of [content.js] / [wordscanner.js],
    together with the properties the specification states about them.

    Conventions of the embedding.
    - A JavaScript string is a Rocq [string]; one [ascii] is one code unit,
      so the model covers the code units 0..255 (ASCII and Latin-1).
    - [toLowerCase] and the case folding of the [i] flag of a regular
      expression are the Unicode mappings restricted to that range.
    - Elements are identified by a natural number (object identity); a
      WeakMap keyed by elements is a finite map keyed by those numbers.
    - Counters are integers ([Z]); array indices and string offsets are
      natural numbers. *)

From Stdlib Require Import ZArith String Ascii List Bool Arith Lia Sorted DecimalString.
From stdpp Require Import base option list gmap strings.


(** ** JavaScript strings *)

Module Js.

(** The character [U+0022], written apart so that templates read well. *)
Definition dquote : string := String "034"%char EmptyString.

Definition inRange (lo hi n : nat) : bool := ((lo <=? n) && (n <=? hi))%nat.

(** [String.prototype.toLowerCase] on code units below 256: [A-Z] and the
    Latin-1 capitals [U+00C0..U+00DE] except the multiplication sign. *)
Definition toLowerCaseChar (c : ascii) : ascii :=
  let n := nat_of_ascii c in
  if inRange 65 90 n || (inRange 192 222 n && negb (n =? 215)%nat)
  then ascii_of_nat (n + 32) else c.

Fixpoint toLowerCase (s : string) : string :=
  match s with
  | EmptyString => EmptyString
  | String c r => String (toLowerCaseChar c) (toLowerCase r)
  end.

(** [String.prototype.toUpperCase] on code units below 256.  The three
    lower-case letters whose image is not a single Latin-1 code unit
    (sharp s, micro sign, y with diaeresis) are left as they are; the code
    only compares upper-cased text with ASCII constants that contain
    neither of their images. *)
Definition toUpperCaseChar (c : ascii) : ascii :=
  let n := nat_of_ascii c in
  if inRange 97 122 n || (inRange 224 254 n && negb (n =? 247)%nat)
  then ascii_of_nat (n - 32) else c.

Fixpoint toUpperCase (s : string) : string :=
  match s with
  | EmptyString => EmptyString
  | String c r => String (toUpperCaseChar c) (toUpperCase r)
  end.

(** [s.includes(sub)] *)
Fixpoint includes (s sub : string) : bool :=
  String.prefix sub s ||
  match s with
  | EmptyString => false
  | String _ r => includes r sub
  end.

(** [array.includes(x)] for an array of strings *)
Definition arrayIncludes (l : list string) (x : string) : bool :=
  existsb (String.eqb x) l.

(** Truthiness of a string: only the empty string is falsy. *)
Definition truthy (s : string) : bool :=
  match s with EmptyString => false | String _ _ => true end.

(** [s.slice(a, b)] for [0 <= a], [0 <= b] *)
Definition slice (s : string) (a b : nat) : string :=
  String.substring a (b - a) s.

(** Values a property of a plain data object can hold. [Object] stands
    for any object that has no callable [toLowerCase] property. *)
Inductive Value :=
| Undefined
| Null
| Boolean (b : bool)
| Number (n : Z)
| Str (s : string)
| Object.

Inductive Error := TypeError.

(** The outcome of a call: a returned value or a thrown exception. *)
Inductive Completion (A : Type) :=
| Return (a : A)
| Throw (e : Error).
Arguments Return {A} a.
Arguments Throw {A} e.

Definition bind {A B} (c : Completion A) (k : A -> Completion B) : Completion B :=
  match c with
  | Return a => k a
  | Throw e => Throw e
  end.

(** [v.toLowerCase()] is defined on strings only; the call yields the
    receiver itself so that the caller can go on using it as a string. *)
Definition receiverOfToLowerCase (v : Value) : Completion string :=
  match v with
  | Str s => Return s
  | _ => Throw TypeError
  end.

(** Destructuring default: [{ p = d } = o] takes [d] when [o.p] is undefined. *)
Definition orDefault (v : Value) (d : string) : Value :=
  match v with
  | Undefined => Str d
  | _ => v
  end.

End Js.

#[global] Instance Completion_ret : MRet Js.Completion := @Js.Return.
#[global] Instance Completion_bind : MBind Js.Completion :=
  fun A B k c => Js.bind c k.

(** ** analysis.js: autofill risk analysis *)

Module Analysis.
Import Js.

Definition AUTOFILL_KEYWORDS : list string :=
  [ "email"; "e-mail"; "mail"; "phone"; "tel"; "mobile"; "cell"; "fax";
    "name"; "fname"; "lname"; "firstname"; "lastname"; "first-name"; "last-name";
    "fullname"; "full-name"; "nickname"; "username"; "user";
    "address"; "street"; "city"; "state"; "province"; "zip"; "postal"; "postcode";
    "country"; "region"; "apt"; "suite"; "building";
    "card"; "credit"; "ccnum"; "ccname"; "cvv"; "cvc"; "expiry"; "expiration";
    "company"; "organization"; "org"; "employer"; "business";
    "title"; "prefix"; "suffix"; "birthday"; "bday"; "age"; "gender"; "sex";
    "ssn"; "social"; "passport"; "license" ].

Definition AUTOCOMPLETE_VALUES_THAT_TRIGGER : list string :=
  [ "on"; "name"; "email"; "username"; "new-password"; "current-password";
    "organization"; "organization-title"; "street-address"; "address-line1";
    "address-line2"; "address-line3"; "address-level1"; "address-level2";
    "address-level3"; "address-level4"; "country"; "country-name"; "postal-code";
    "cc-name"; "cc-given-name"; "cc-additional-name"; "cc-family-name"; "cc-number";
    "cc-exp"; "cc-exp-month"; "cc-exp-year"; "cc-csc"; "cc-type"; "transaction-currency";
    "transaction-amount"; "language"; "bday"; "bday-day"; "bday-month"; "bday-year";
    "sex"; "tel"; "tel-country-code"; "tel-national"; "tel-area-code"; "tel-local";
    "tel-extension"; "impp"; "url"; "photo"; "given-name"; "additional-name"; "family-name";
    "honorific-prefix"; "honorific-suffix"; "nickname" ].

Definition SAFE_AUTOCOMPLETE_VALUES : list string :=
  [ "off"; "one-time-code"; "nope"; "false"; "disabled" ].

Definition SKIP_INPUT_TYPES : list string :=
  [ "hidden"; "submit"; "button"; "reset"; "image"; "file"; "checkbox"; "radio" ].

Definition INJECTABLE_INPUT_TYPES : list string :=
  [ "text"; "email"; "password"; "search"; "tel"; "url"; "number" ].

Definition AUTOFILL_INPUT_TYPES : list string := [ "email"; "tel"; "url" ].

Inductive RiskLevel := Low | Medium | High.
Inductive RiskType := Info | Warning | Error.

Record Risk := { r_type : RiskType; r_message : string }.

Record Attributes := {
  at_tagName : string;
  at_type : string;
  at_name : string;
  at_id : string;
  at_autocomplete : string;
  at_placeholder : string
}.

Record Verdict := {
  riskLevel : RiskLevel;
  risks : list Risk;
  attributes : Attributes
}.

#[global] Instance RiskLevel_eq_dec : EqDecision RiskLevel.
Proof. solve_decision. Defined.
#[global] Instance RiskType_eq_dec : EqDecision RiskType.
Proof. solve_decision. Defined.
#[global] Instance Risk_eq_dec : EqDecision Risk.
Proof. solve_decision. Defined.

(** The two local variables [risks] and [riskLevel] of the function. *)
Record Findings := { f_risks : list Risk; f_level : RiskLevel }.

Definition push (r : Risk) (f : Findings) : Findings :=
  {| f_risks := f_risks f ++ [r]; f_level := f_level f |}.

Definition setLevel (l : RiskLevel) (f : Findings) : Findings :=
  {| f_risks := f_risks f; f_level := l |}.

(** [if (riskLevel === 'low') riskLevel = 'medium'] *)
Definition lowToMedium (f : Findings) : Findings :=
  match f_level f with
  | Low => setLevel Medium f
  | _ => f
  end.

Definition missingAutocompleteWarning : Risk :=
  {| r_type := Warning;
     r_message := "No autocomplete attribute - Chrome may use form history" |}.

Definition safeAutocompleteInfo (autocomplete : string) : Risk :=
  {| r_type := Info;
     r_message := "autocomplete=" +:+ dquote +:+ autocomplete +:+ dquote
                  +:+ " - Should prevent autofill" |}.

Definition triggerAutocompleteError (autocomplete : string) : Risk :=
  {| r_type := Error;
     r_message := "autocomplete=" +:+ dquote +:+ autocomplete +:+ dquote
                  +:+ " - WILL trigger autofill" |}.

Definition inputTypeError (type : string) : Risk :=
  {| r_type := Error;
     r_message := "type=" +:+ dquote +:+ type +:+ dquote
                  +:+ " - This input type triggers autofill" |}.

Definition passwordWarning : Risk :=
  {| r_type := Warning;
     r_message := "type=" +:+ dquote +:+ "password" +:+ dquote
                  +:+ " - May trigger password manager" |}.

Definition nameKeywordWarning (name keyword : string) : Risk :=
  {| r_type := Warning;
     r_message := "name=" +:+ dquote +:+ name +:+ dquote +:+ " contains "
                  +:+ dquote +:+ keyword +:+ dquote +:+ " - May trigger form history" |}.

Definition idKeywordWarning (id keyword : string) : Risk :=
  {| r_type := Warning;
     r_message := "id=" +:+ dquote +:+ id +:+ dquote +:+ " contains "
                  +:+ dquote +:+ keyword +:+ dquote +:+ " - May trigger form history" |}.

Definition placeholderKeywordInfo (keyword : string) : Risk :=
  {| r_type := Info;
     r_message := "Placeholder contains " +:+ dquote +:+ keyword +:+ dquote
                  +:+ " - Minor autofill signal" |}.

Definition labelKeywordInfo (keyword : string) : Risk :=
  {| r_type := Info;
     r_message := "Label contains " +:+ dquote +:+ keyword +:+ dquote
                  +:+ " - Chrome may use this as context" |}.

Definition formHistoryWarning : Risk :=
  {| r_type := Warning;
     r_message := "Has name attribute without autocomplete=" +:+ dquote +:+ "off" +:+ dquote
                  +:+ " - Chrome saves form history for this field" |}.

(** [for (const keyword of AUTOFILL_KEYWORDS) if (text.includes(keyword)) { ...; break; }] *)
Definition firstKeyword (normalizedText : string) : option string :=
  List.find (fun keyword => includes normalizedText keyword) AUTOFILL_KEYWORDS.

(** Check autocomplete attribute *)
Definition checkAutocomplete (autocomplete normalizedAutocomplete : string)
    (f : Findings) : Findings :=
  if negb (truthy normalizedAutocomplete) then
    setLevel Medium (push missingAutocompleteWarning f)
  else if arrayIncludes SAFE_AUTOCOMPLETE_VALUES normalizedAutocomplete then
    push (safeAutocompleteInfo autocomplete) f
  else if arrayIncludes AUTOCOMPLETE_VALUES_THAT_TRIGGER normalizedAutocomplete then
    setLevel High (push (triggerAutocompleteError autocomplete) f)
  else f.

(** Check input type *)
Definition checkType (type normalizedType : string) (f : Findings) : Findings :=
  if arrayIncludes AUTOFILL_INPUT_TYPES normalizedType then
    setLevel High (push (inputTypeError type) f)
  else if String.eqb normalizedType "password" then
    let f1 := push passwordWarning f in
    match f_level f1 with
    | High => f1
    | _ => setLevel Medium f1
    end
  else f.

(** Check name attribute for keywords *)
Definition checkName (name normalizedName : string) (f : Findings) : Findings :=
  match firstKeyword normalizedName with
  | Some keyword => lowToMedium (push (nameKeywordWarning name keyword) f)
  | None => f
  end.

(** Check id attribute for keywords *)
Definition checkId (id normalizedId : string) (f : Findings) : Findings :=
  match firstKeyword normalizedId with
  | Some keyword => lowToMedium (push (idKeywordWarning id keyword) f)
  | None => f
  end.

(** Check placeholder for keywords *)
Definition checkPlaceholder (normalizedPlaceholder : string) (f : Findings) : Findings :=
  match firstKeyword normalizedPlaceholder with
  | Some keyword => push (placeholderKeywordInfo keyword) f
  | None => f
  end.

(** Check label text for keywords *)
Definition checkLabel (normalizedLabelText : string) (f : Findings) : Findings :=
  match firstKeyword normalizedLabelText with
  | Some keyword => push (labelKeywordInfo keyword) f
  | None => f
  end.

(** The guard of the form-history rule. *)
Definition formHistoryApplies (normalizedName normalizedAutocomplete : string) : bool :=
  truthy normalizedName && truthy normalizedAutocomplete
  && negb (arrayIncludes SAFE_AUTOCOMPLETE_VALUES normalizedAutocomplete).

(** Fields with an unsafe autocomplete value that have a name *)
Definition checkFormHistory (normalizedName normalizedAutocomplete : string)
    (f : Findings) : Findings :=
  if formHistoryApplies normalizedName normalizedAutocomplete then
    lowToMedium (push formHistoryWarning f)
  else f.

(** The body of [analyzeFieldAttributes] once the seven attributes are
    known to be strings (source lines 227 to 350). *)
Definition analyzeStrings
    (tagName type name id autocomplete placeholder labelText : string)
    : option Verdict :=
  let normalizedTagName := toLowerCase tagName in
  let normalizedType := toLowerCase type in
  let normalizedName := toLowerCase name in
  let normalizedId := toLowerCase id in
  let normalizedAutocomplete := toLowerCase autocomplete in
  let normalizedPlaceholder := toLowerCase placeholder in
  let normalizedLabelText := toLowerCase labelText in
  if arrayIncludes SKIP_INPUT_TYPES normalizedType then None
  else if String.eqb normalizedTagName "select" then None
  else
    let f := {| f_risks := []; f_level := Low |} in
    let f := checkAutocomplete autocomplete normalizedAutocomplete f in
    let f := checkType type normalizedType f in
    let f := checkName name normalizedName f in
    let f := checkId id normalizedId f in
    let f := checkPlaceholder normalizedPlaceholder f in
    let f := checkLabel normalizedLabelText f in
    let f := checkFormHistory normalizedName normalizedAutocomplete f in
    Some {| riskLevel := f_level f;
            risks := f_risks f;
            attributes := {| at_tagName := normalizedTagName;
                             at_type := normalizedType;
                             at_name := name;
                             at_id := id;
                             at_autocomplete := autocomplete;
                             at_placeholder := placeholder |} |}.

(** The properties of the argument [attrs] that the function reads; a
    property that is absent reads as [Undefined]. *)
Record AttrsObject := {
  a_tagName : Value;
  a_type : Value;
  a_name : Value;
  a_id : Value;
  a_autocomplete : Value;
  a_placeholder : Value;
  a_labelText : Value
}.

(** The argument of the call: destructuring [undefined] or [null] throws. *)
Inductive AttrsArg :=
| ArgUndefined
| ArgNull
| ArgObject (o : AttrsObject).

Definition destructure (attrs : AttrsArg) : Completion AttrsObject :=
  match attrs with
  | ArgObject o => Return o
  | _ => Throw TypeError
  end.

Definition analyzeFieldAttributes (attrs : AttrsArg) : Completion (option Verdict) :=
  o ← destructure attrs;
  let tagName := orDefault (a_tagName o) EmptyString in
  let type := orDefault (a_type o) "text" in
  let name := orDefault (a_name o) EmptyString in
  let id := orDefault (a_id o) EmptyString in
  let autocomplete := orDefault (a_autocomplete o) EmptyString in
  let placeholder := orDefault (a_placeholder o) EmptyString in
  let labelText := orDefault (a_labelText o) EmptyString in
  tagName ← receiverOfToLowerCase tagName;
  type ← receiverOfToLowerCase type;
  name ← receiverOfToLowerCase name;
  id ← receiverOfToLowerCase id;
  autocomplete ← receiverOfToLowerCase autocomplete;
  placeholder ← receiverOfToLowerCase placeholder;
  labelText ← receiverOfToLowerCase labelText;
  Return (analyzeStrings tagName type name id autocomplete placeholder labelText).

(** Attribute combinations of the documented shape: every attribute is
    either absent or a string. *)
Record FieldAttributes := {
  tagName : option string;
  type : option string;
  name : option string;
  id : option string;
  autocomplete : option string;
  placeholder : option string;
  labelText : option string
}.

Definition property (o : option string) : Value :=
  match o with
  | Some s => Str s
  | None => Undefined
  end.

Definition attrsOf (a : FieldAttributes) : AttrsArg :=
  ArgObject {| a_tagName := property (tagName a);
               a_type := property (type a);
               a_name := property (name a);
               a_id := property (id a);
               a_autocomplete := property (autocomplete a);
               a_placeholder := property (placeholder a);
               a_labelText := property (labelText a) |}.

(** The value an attribute has after the destructuring defaults. *)
Definition valueOr (d : string) (o : option string) : string :=
  match o with
  | Some s => s
  | None => d
  end.

(** The attribute combination with every absent attribute written out. *)
Definition withDefaults (a : FieldAttributes) : FieldAttributes :=
  {| tagName := Some (valueOr EmptyString (tagName a));
     type := Some (valueOr "text" (type a));
     name := Some (valueOr EmptyString (name a));
     id := Some (valueOr EmptyString (id a));
     autocomplete := Some (valueOr EmptyString (autocomplete a));
     placeholder := Some (valueOr EmptyString (placeholder a));
     labelText := Some (valueOr EmptyString (labelText a)) |}.

(** *** Sample arguments *)

Definition noAttributes : FieldAttributes :=
  {| tagName := None; type := None; name := None; id := None;
     autocomplete := None; placeholder := None; labelText := None |}.

(** [{ tagName: 'input', type: 'email' }] *)
Definition emailInput : FieldAttributes :=
  {| tagName := Some "input"; type := Some "email"; name := None; id := None;
     autocomplete := None; placeholder := None; labelText := None |}.

(** [{ tagName: 'select', type: 'email' }] *)
Definition emailSelect : FieldAttributes :=
  {| tagName := Some "select"; type := Some "email"; name := None; id := None;
     autocomplete := None; placeholder := None; labelText := None |}.

(** [{ tagName: 'div' }] *)
Definition divElement : FieldAttributes :=
  {| tagName := Some "div"; type := None; name := None; id := None;
     autocomplete := None; placeholder := None; labelText := None |}.

(** [{ tagName: 'input', name: 'someRandomField', autocomplete: 'on' }] *)
Definition namedAutocompleteOn : FieldAttributes :=
  {| tagName := Some "input"; type := Some "text"; name := Some "someRandomField";
     id := None; autocomplete := Some "on"; placeholder := None; labelText := None |}.

(** [{ tagName: 'input', type: null }] *)
Definition nullType : AttrsArg :=
  ArgObject {| a_tagName := Str "input"; a_type := Null; a_name := Undefined;
               a_id := Undefined; a_autocomplete := Undefined;
               a_placeholder := Undefined; a_labelText := Undefined |}.

End Analysis.

(** ** utils.js: the list of recently used payloads *)

Module Recent.

Definition MAX_RECENT : nat := 5.

(** An entry [{ category, index, value }]. *)
Record Payload := { category : string; index : Z; value : string }.

(** Arrays are mutable objects held by reference; the store maps the
    references in use to the contents of their arrays. *)
Abbreviation Ref := nat.
Abbreviation Store := (gmap nat (list Payload)).

(** A computation reads and updates the store; [None] stands for the use
    of a reference that is not in the store. *)
Definition M (A : Type) : Type := Store -> option (A * Store).

Definition ret {A} (a : A) : M A := fun s => Some (a, s).

Definition bind {A B} (m : M A) (k : A -> M B) : M B :=
  fun s => match m s with
           | Some (a, s') => k a s'
           | None => None
           end.

(** A new array object. *)
Definition newArray (xs : list Payload) : M Ref :=
  fun s => let r := fresh (dom s) in Some (r, <[r := xs]> s).

Definition read (r : Ref) : M (list Payload) :=
  fun s => match s !! r with
           | Some xs => Some (xs, s)
           | None => None
           end.

(** [a.filter(p)]: a new array, [a] is left as it is. *)
Definition arrayFilter (p : Payload -> bool) (a : Ref) : M Ref :=
  bind (read a) (fun xs => newArray (List.filter p xs)).

(** [a.unshift(x)]: the array [a] itself is changed. *)
Definition arrayUnshift (a : Ref) (x : Payload) : M unit :=
  bind (read a) (fun xs s => Some (tt, <[a := x :: xs]> s)).

(** [a.length] *)
Definition arrayLength (a : Ref) : M nat :=
  bind (read a) (fun xs => ret (length xs)).

(** [a.slice(0, n)]: a new array. *)
Definition arraySliceFromStart (a : Ref) (n : nat) : M Ref :=
  bind (read a) (fun xs => newArray (firstn n xs)).

Definition sameEntry (category : string) (index : Z) (r : Payload) : bool :=
  String.eqb r.(Recent.category) category && Z.eqb r.(Recent.index) index.

Definition addToRecentList (recentPayloads : Ref)
    (category : string) (index : Z) (value : string) : M Ref :=
  (* Remove if already exists *)
  bind (arrayFilter (fun r => negb (sameEntry category index r)) recentPayloads)
    (fun result =>
  (* Add to front *)
  bind (arrayUnshift result
          {| category := category; index := index; value := value |})
    (fun _ =>
  (* Limit size *)
  bind (arrayLength result)
    (fun len =>
  if (MAX_RECENT <? len)%nat
  then arraySliceFromStart result MAX_RECENT
  else ret result))).

(** The pair an entry is identified by. *)
Definition key (r : Payload) : string * Z := (r.(category), r.(index)).

(** *** Sample store *)

Definition sampleEntries : list Payload :=
  [ {| category := "sql"; index := 0%Z; value := "a" |};
    {| category := "xss"; index := 0%Z; value := "b" |};
    {| category := "sql"; index := 1%Z; value := "c" |};
    {| category := "xss"; index := 3%Z; value := "d" |};
    {| category := "email"; index := 2%Z; value := "e" |} ].

Definition sampleStore : Store := {[ 0 := sampleEntries ]}.

End Recent.

(** ** content.js: injecting a payload into the focused element *)

Module Inject.
Import Js Analysis.

(** The argument of [isInjectableElement]; a property that is null or
    undefined is [None]. *)
Record ElementInfo := {
  i_tagName : option string;
  i_type : option string;
  i_isContentEditable : bool
}.

(** [x || d] for a string or null [x] *)
Definition orElse (x : option string) (d : string) : string :=
  match x with
  | Some s => if truthy s then s else d
  | None => d
  end.

Definition isInjectableElement (elementInfo : option ElementInfo) : bool :=
  match elementInfo with
  | None => false
  | Some info =>
      if i_isContentEditable info then true
      else
        let normalizedTagName := toUpperCase (orElse (i_tagName info) EmptyString) in
        if String.eqb normalizedTagName "TEXTAREA" then true
        else if String.eqb normalizedTagName "INPUT" then
          let normalizedType := toLowerCase (orElse (i_type info) "text") in
          arrayIncludes INJECTABLE_INPUT_TYPES normalizedType
        else false
  end.

(** The part of a DOM element that the message listener reads and writes.
    [typeAttribute] is [getAttribute('type')], null when there is none.
    [value] is what the property [value] reads.  [valueSanitization] is
    what the DOM makes of a string that is assigned to the property
    [value] of this element, its value sanitization algorithm: it is fixed
    by the kind of the element, which the listener does not change.  For a
    text, search, tel or password input it removes the line breaks; for a
    url or email input it removes them and trims the white space at both
    ends; a number input keeps a valid floating-point number and takes the
    empty string for everything else; a textarea turns every line break
    into a line feed. *)
Record Element := {
  tagName : string;
  typeAttribute : option string;
  isContentEditable : bool;
  disabled : bool;
  readOnly : bool;
  value : string;
  textContent : string;
  valueSanitization : string -> string
}.

Definition isInjectable (element : option Element) : bool :=
  match element with
  | None => false
  | Some e =>
      isInjectableElement
        (Some {| i_tagName := Some (tagName e);
                 i_type := typeAttribute e;
                 i_isContentEditable := isContentEditable e |})
  end.

(** [e.value = v]: the element keeps what its value sanitization
    algorithm makes of [v]. *)
Definition setValue (v : string) (e : Element) : Element :=
  {| tagName := tagName e; typeAttribute := typeAttribute e;
     isContentEditable := isContentEditable e; disabled := disabled e;
     readOnly := readOnly e; value := valueSanitization e v;
     textContent := textContent e; valueSanitization := valueSanitization e |}.

(** [e.textContent = v]: the children of the element are replaced by one
    text node that holds [v]. *)
Definition setTextContent (v : string) (e : Element) : Element :=
  {| tagName := tagName e; typeAttribute := typeAttribute e;
     isContentEditable := isContentEditable e; disabled := disabled e;
     readOnly := readOnly e; value := value e; textContent := v;
     valueSanitization := valueSanitization e |}.

Inductive Message :=
| fillField (value : string)
| appendField (value : string)
| copyToClipboard (value : string)
| showNotificationMessage (message : string) (isError : bool)
| otherAction.

Inductive Response :=
| success
| failure (error : string).

(** What the listener does to the outside, in the order it does it. *)
Inductive Effect :=
| Notification (message : string) (isError : bool)
| DispatchEvent (type : string)
| ClipboardWrite (text : string)
| SendResponse (r : Response).

Record Page := {
  activeElement : option Element;
  effects : list Effect
}.

Definition emit (e : Effect) (p : Page) : Page :=
  {| activeElement := activeElement p; effects := effects p ++ [e] |}.

Definition showNotification (message : string) (isError : bool) (p : Page) : Page :=
  emit (Notification message isError) p.

Definition sendResponse (r : Response) (p : Page) : Page :=
  emit (SendResponse r) p.

Definition dispatchEvent (type : string) (p : Page) : Page :=
  emit (DispatchEvent type) p.

Definition updateActive (f : Element -> Element) (p : Page) : Page :=
  {| activeElement := option_map f (activeElement p); effects := effects p |}.

(** The two branches [fillField] and [appendField] differ only in the
    assignment; [assign] is [=] for the first and [+=] for the second. *)
Definition inject (assign : string -> string) (p : Page) : Page :=
  if negb (isInjectable (activeElement p)) then
    sendResponse (failure "No valid field focused")
      (showNotification "No text field focused" true p)
  else
    match activeElement p with
    | None => p
    | Some e =>
        if disabled e || readOnly e then
          sendResponse (failure "Field is disabled or read-only")
            (showNotification "Field is disabled or read-only" true p)
        else
          let p1 :=
            if isContentEditable e
            then updateActive (fun e => setTextContent (assign (textContent e)) e) p
            else updateActive (fun e => setValue (assign (value e)) e) p in
          sendResponse success
            (dispatchEvent "change" (dispatchEvent "input" p1))
    end.

(** The listener registered with [chrome.runtime.onMessage].  The reply
    to [copyToClipboard] is sent when the clipboard promise settles, which
    is after the listener has returned. *)
Definition onMessage (message : Message) (p : Page) : Page :=
  match message with
  | fillField v => inject (fun _ => v) p
  | appendField v => inject (fun old => old +:+ v) p
  | copyToClipboard v => emit (ClipboardWrite v) p
  | showNotificationMessage m isError =>
      sendResponse success (showNotification m isError p)
  | otherAction => p
  end.

(** The text a user edits in an element: the text content of a
    content-editable element, the value of any other. *)
Definition editableText (e : Element) : string :=
  if isContentEditable e then textContent e else value e.

(** What the text of the element is once [v] has been assigned to it by
    the listener. *)
Definition assigned (e : Element) (v : string) : string :=
  if isContentEditable e then v else valueSanitization e v.

(** The value sanitization algorithm of a text input: line feeds and
    carriage returns are removed. *)
Fixpoint stripNewlines (s : string) : string :=
  match s with
  | EmptyString => EmptyString
  | String c r =>
      if Ascii.eqb c "010" || Ascii.eqb c "013" then stripNewlines r
      else String c (stripNewlines r)
  end.

(** *** Sample page *)

Definition textInput : Element :=
  {| tagName := "INPUT"; typeAttribute := Some "text"; isContentEditable := false;
     disabled := false; readOnly := false; value := "abc"; textContent := EmptyString;
     valueSanitization := stripNewlines |}.

(** The payload [a], a line feed, [b]. *)
Definition twoLines : string := String "a" (String "010" (String "b" EmptyString)).

Definition focusedTextInput : Page :=
  {| activeElement := Some textInput; effects := [] |}.

End Inject.

(** ** The part of the DOM the content scripts work on *)

Module Dom.

(** A node is a text node or an element; [nid] is its identity.  Of an
    element the model keeps the tag name, the class list, the title and
    the child nodes. *)
#[warnings="-register-all"] Inductive Node :=
| Text (nid : nat) (data : string)
| Element (nid : nat) (tagName : string) (classList : list string)
          (title : string) (childNodes : list Node).

Definition nodeId (n : Node) : nat :=
  match n with
  | Text i _ => i
  | Element i _ _ _ _ => i
  end.

Definition joinText (parts : list string) : string :=
  fold_right String.append EmptyString parts.

(** [node.textContent] *)
Fixpoint textContent (n : Node) : string :=
  match n with
  | Text _ d => d
  | Element _ _ _ _ cs => joinText (map textContent cs)
  end.

(** The text of a list of sibling nodes. *)
Definition textOf (nodes : list Node) : string :=
  joinText (map textContent nodes).

(** [classList.contains(cls)] *)
Definition hasClass (cls : string) (n : Node) : bool :=
  match n with
  | Text _ _ => false
  | Element _ _ cl _ _ => existsb (String.eqb cls) cl
  end.

(** The elements of a subtree in document order, the root first. *)
Fixpoint elements (n : Node) : list Node :=
  match n with
  | Text _ _ => []
  | Element _ _ _ _ cs => n :: flat_map elements cs
  end.

(** [root.querySelectorAll('.' + cls)] over the child nodes of the root *)
Definition querySelectorAll (cls : string) (nodes : list Node) : list Node :=
  List.filter (hasClass cls) (flat_map elements nodes).

(** The identities of all nodes of a subtree. *)
Fixpoint nodeIds (n : Node) : list nat :=
  match n with
  | Text i _ => [i]
  | Element i _ _ _ cs => i :: flat_map nodeIds cs
  end.

(** [el.remove()] seen from an ancestor: the subtree without [el]. *)
Fixpoint removeFrom (el : nat) (n : Node) : list Node :=
  match n with
  | Text _ _ => [n]
  | Element i t cl ti cs =>
      if (i =? el)%nat then []
      else [Element i t cl ti (flat_map (removeFrom el) cs)]
  end.

Definition remove (el : nat) (nodes : list Node) : list Node :=
  flat_map (removeFrom el) nodes.

(** [el.parentNode.replaceChild(document.createTextNode(el.textContent), el)]
    seen from an ancestor; [fresh] is the identity of the new text node. *)
Fixpoint replaceByText (el fresh : nat) (n : Node) : Node :=
  match n with
  | Text _ _ => n
  | Element i t cl ti cs =>
      if (i =? el)%nat then Text fresh (textContent n)
      else Element i t cl ti (map (replaceByText el fresh) cs)
  end.

(** Inserting [fragments] before the text node [textNode] and removing
    that text node, seen from an ancestor. *)
Fixpoint replaceTextNode (textNode : nat) (fragments : list Node) (n : Node) : list Node :=
  match n with
  | Text i _ => if (i =? textNode)%nat then fragments else [n]
  | Element i t cl ti cs =>
      [Element i t cl ti (flat_map (replaceTextNode textNode fragments) cs)]
  end.

(** The text nodes of a subtree, in document order. *)
Fixpoint textNodes (n : Node) : list (nat * string) :=
  match n with
  | Text i d => [(i, d)]
  | Element _ _ _ _ cs => flat_map textNodes cs
  end.

(** [textNode.textContent], for a text node of the given trees. *)
Definition textNodeData (textNode : nat) (nodes : list Node) : option string :=
  option_map snd
    (List.find (fun p => (fst p =? textNode)%nat) (flat_map textNodes nodes)).

End Dom.

(** ** content.js: overlays and their statistics *)

Module Overlay.
Import Js Analysis Dom.

(** [fieldStats] *)
Record Stats := { high : Z; medium : Z; low : Z; total : Z }.

Definition noStats : Stats := {| high := 0; medium := 0; low := 0; total := 0 |}.

(** A message for the background script. *)
Inductive Outbound :=
| updateBadgeMessage (stats : Stats).

(** The state of the content script.  [body] holds the child nodes of
    [document.body], [sent] the calls of [chrome.runtime.sendMessage] in
    order, [nextId] the identity of the next node to be created.  The
    maps are the WeakMaps of the script. *)
Record State := {
  body : list Node;
  fieldStats : Stats;
  overlayMap : gmap nat nat;
  tooltipMap : gmap nat nat;
  sent : list Outbound;
  nextId : nat
}.

(** The argument of [createOverlay]: a verdict with its element. *)
Record FieldAnalysis := {
  element : nat;
  verdict : Verdict
}.

Definition levelName (l : RiskLevel) : string :=
  match l with
  | Low => "low"
  | Medium => "medium"
  | High => "high"
  end.

(** The overlay element with its badge.  The tooltip is created as well
    but stays detached until the pointer enters the badge; its markup,
    the inline styles and the listeners are not part of the model. *)
Definition createOverlay (analysis : FieldAnalysis) (st : State) : nat * State :=
  let element := element analysis in
  let riskLevel := levelName (riskLevel (verdict analysis)) in
  (* Remove existing overlay if any *)
  let body1 :=
    match overlayMap st !! element with
    | Some existingOverlay => remove existingOverlay (body st)
    | None => body st
    end in
  let overlay := nextId st in
  let badge := S overlay in
  let badgeText := S (S overlay) in
  let tooltip := S (S (S overlay)) in
  let badgeNode :=
    Element badge "div" ["autofill-detector-badge"; "autofill-badge-" +:+ riskLevel]
      EmptyString [Text badgeText (toUpperCase riskLevel)] in
  let overlayNode :=
    Element overlay "div" ["autofill-detector-overlay"; "autofill-risk-" +:+ riskLevel]
      EmptyString [badgeNode] in
  (overlay,
   {| body := body1 ++ [overlayNode];
      fieldStats := fieldStats st;
      overlayMap := <[element := overlay]> (overlayMap st);
      tooltipMap := <[element := tooltip]> (tooltipMap st);
      sent := sent st;
      nextId := S (S (S (S overlay))) |}).

(** Send stats to background script to update badge *)
Definition updateBadge (st : State) : State :=
  {| body := body st; fieldStats := fieldStats st; overlayMap := overlayMap st;
     tooltipMap := tooltipMap st;
     sent := sent st ++ [updateBadgeMessage (fieldStats st)];
     nextId := nextId st |}.

Definition setFieldStats (stats : Stats) (st : State) : State :=
  {| body := body st; fieldStats := stats; overlayMap := overlayMap st;
     tooltipMap := tooltipMap st; sent := sent st; nextId := nextId st |}.

(** The body of the [forEach] over the overlays. *)
Definition countOverlay (actual : Stats) (overlay : Node) : Stats :=
  let actual :=
    if hasClass "autofill-risk-high" overlay then
      {| high := high actual + 1; medium := medium actual;
         low := low actual; total := total actual |}
    else if hasClass "autofill-risk-medium" overlay then
      {| high := high actual; medium := medium actual + 1;
         low := low actual; total := total actual |}
    else if hasClass "autofill-risk-low" overlay then
      {| high := high actual; medium := medium actual;
         low := low actual + 1; total := total actual |}
    else actual in
  {| high := high actual; medium := medium actual;
     low := low actual; total := total actual + 1 |}.

Definition actualStats (nodes : list Node) : Stats :=
  fold_left countOverlay (querySelectorAll "autofill-detector-overlay" nodes) noStats.

(** The condition of the [if]: some counter differs. *)
Definition drifted (a b : Stats) : bool :=
  negb (Z.eqb (high a) (high b)) || negb (Z.eqb (medium a) (medium b))
  || negb (Z.eqb (low a) (low b)) || negb (Z.eqb (total a) (total b)).

(** Reconcile fieldStats with actual overlays to prevent drift *)
Definition reconcileStats (st : State) : State :=
  let actual := actualStats (body st) in
  if drifted (fieldStats st) actual
  then updateBadge (setFieldStats actual st)
  else st.

(** *** Sample states *)

Definition emptyState : State :=
  {| body := []; fieldStats := noStats; overlayMap := ∅; tooltipMap := ∅;
     sent := []; nextId := 0 |}.

Definition plainOverlay (i : nat) (level : string) : Node :=
  Element i "div" ["autofill-detector-overlay"; "autofill-risk-" +:+ level]
    EmptyString [].

(** Overlays of the classes high, medium, medium, low; counters at zero. *)
Definition fourOverlays : State :=
  {| body := [plainOverlay 0 "high"; plainOverlay 1 "medium";
              plainOverlay 2 "medium"; plainOverlay 3 "low"];
     fieldStats := noStats; overlayMap := ∅; tooltipMap := ∅;
     sent := []; nextId := 4 |}.

Definition sampleAnalysis (element : nat) (level : RiskLevel) : FieldAnalysis :=
  {| element := element;
     verdict := {| riskLevel := level;
                   risks := [inputTypeError "email"];
                   attributes := {| at_tagName := "input"; at_type := "email";
                                    at_name := EmptyString; at_id := EmptyString;
                                    at_autocomplete := EmptyString;
                                    at_placeholder := EmptyString |} |} |}.

End Overlay.

(** ** wordscanner.js: highlighting forbidden words *)

Module WordScanner.
Import Js Dom.

(** The class [\w] of a regular expression without the [u] flag. *)
Definition isWordChar (c : ascii) : bool :=
  let n := nat_of_ascii c in
  inRange 48 57 n || inRange 65 90 n || (n =? 95)%nat || inRange 97 122 n.

(** Two code units are the same under the [i] flag when their
    canonical (upper-case) forms are equal. *)
Definition sameIgnoringCase (c d : ascii) : bool :=
  Ascii.eqb (toUpperCaseChar c) (toUpperCaseChar d).

(** The regular expression [new RegExp('\\b(' + escapedWords.join('|') +
    ')\\b', 'gi')].  Every metacharacter of a word is escaped, so each
    alternative matches the code units of its word literally (up to
    case); the object carries the mutable [lastIndex]. *)
Record RegExp := {
  alternatives : list string;
  lastIndex : nat
}.

Definition buildPattern (forbiddenWords : list string) : RegExp :=
  {| alternatives := forbiddenWords; lastIndex := 0 |}.

Definition setLastIndex (i : nat) (pattern : RegExp) : RegExp :=
  {| alternatives := alternatives pattern; lastIndex := i |}.

(** Is there a word character at offset [i]? *)
Definition isWordAt (text : string) (i : nat) : bool :=
  match String.get i text with
  | Some c => isWordChar c
  | None => false
  end.

Definition isWordBefore (text : string) (i : nat) : bool :=
  match i with
  | 0 => false
  | S j => isWordAt text j
  end.

(** The assertion [\b] at offset [i]. *)
Definition wordBoundary (text : string) (i : nat) : bool :=
  xorb (isWordBefore text i) (isWordAt text i).

(** The literal [w] matches at offset [i], ignoring case. *)
Fixpoint matchesAt (w text : string) (i : nat) : bool :=
  match w with
  | EmptyString => true
  | String c w' =>
      match String.get i text with
      | Some d => sameIgnoringCase c d && matchesAt w' text (S i)
      | None => false
      end
  end.

(** The alternation followed by [\b]: the first alternative, in the order
    of the list, that matches and ends at a word boundary; the result is
    the offset where the match ends. *)
Fixpoint firstAlternative (alts : list string) (text : string) (i : nat) : option nat :=
  match alts with
  | [] => None
  | w :: rest =>
      if matchesAt w text i && wordBoundary text (i + String.length w)
      then Some (i + String.length w)
      else firstAlternative rest text i
  end.

(** The whole pattern tried at offset [i]. *)
Definition matchAt (alts : list string) (text : string) (i : nat) : option nat :=
  if wordBoundary text i then firstAlternative alts text i else None.

(** The leftmost offset among [i], [i+1], ..., [i+n-1] where the pattern
    matches, with the end of the match. *)
Fixpoint search (alts : list string) (text : string) (n i : nat) : option (nat * nat) :=
  match n with
  | 0 => None
  | S n' =>
      match matchAt alts text i with
      | Some e => Some (i, e)
      | None => search alts text n' (S i)
      end
  end.

(** The result of a successful [exec]: [match.index] and [match[0]]. *)
Record Match := { index : nat; matched : string }.

(** [pattern.exec(text)] for a global pattern: the search starts at
    [lastIndex], which becomes the end of the match, or 0 when there is
    none. *)
Definition exec (pattern : RegExp) (text : string) : option Match * RegExp :=
  match search (alternatives pattern) text
          (S (String.length text) - lastIndex pattern) (lastIndex pattern) with
  | Some (s, e) => (Some {| index := s; matched := slice text s e |},
                    setLastIndex e pattern)
  | None => (None, setLastIndex 0 pattern)
  end.

(** The state of the script: [document] holds the child nodes of the root
    under which the scanner works, [wordScannerHighlights] the members of
    the Set in insertion order, [nextId] the identity of the next node to
    be created. *)
Record State := {
  document : list Node;
  wordScannerHighlights : list nat;
  nextId : nat
}.

(** [set.add(x)] *)
Definition setAdd (x : nat) (s : list nat) : list nat :=
  if existsb (Nat.eqb x) s then s else s ++ [x].

(** [document.createTextNode(data)] *)
Definition createTextNode (data : string) (st : State) : Node * State :=
  (Text (nextId st) data,
   {| document := document st;
      wordScannerHighlights := wordScannerHighlights st;
      nextId := S (nextId st) |}).

(** Create highlight span: the element, its class, its text (one child
    text node unless the text is empty), its title, and its registration
    in the Set. *)
Definition createHighlight (matched : string) (st : State) : Node * State :=
  let highlight := nextId st in
  let children := if truthy matched then [Text (S highlight) matched] else [] in
  (Element highlight "span" ["word-scanner-highlight"]
     ("Forbidden word: " +:+ dquote +:+ matched +:+ dquote) children,
   {| document := document st;
      wordScannerHighlights := setAdd highlight (wordScannerHighlights st);
      nextId := S (S highlight) |}).

(** [if (cond) fragments.push(document.createTextNode(data))] *)
Definition pushTextIf (cond : bool) (data : string)
    (fragments : list Node) (st : State) : list Node * State :=
  if cond
  then let '(t, st') := createTextNode data st in (fragments ++ [t], st')
  else (fragments, st).

(** The [while] loop; [None] when [fuel] iterations do not end it. *)
Fixpoint highlightLoop (fuel : nat) (text : string) (pattern : RegExp)
    (fragments : list Node) (lastIndex : nat) (st : State)
    : option (list Node * nat * State) :=
  match fuel with
  | 0 => None
  | S fuel' =>
      match exec pattern text with
      | (None, _) => Some (fragments, lastIndex, st)
      | (Some m, pattern') =>
          (* Add text before match *)
          let '(fragments1, st1) :=
            pushTextIf (lastIndex <? index m)%nat
              (slice text lastIndex (index m)) fragments st in
          (* Create highlight span *)
          let '(highlight, st2) := createHighlight (matched m) st1 in
          highlightLoop fuel' text pattern' (fragments1 ++ [highlight])
            (WordScanner.lastIndex pattern') st2
      end
  end.

(** The fragments that replace a text node with the given text. *)
Definition buildFragments (fuel : nat) (text : string) (pattern : RegExp)
    (st : State) : option (list Node * State) :=
  match highlightLoop fuel text (setLastIndex 0 pattern) [] 0 st with
  | None => None
  | Some (fragments, lastIndex, st1) =>
      (* Add remaining text *)
      Some (pushTextIf (lastIndex <? String.length text)%nat
              (slice text lastIndex (String.length text)) fragments st1)
  end.

Definition setDocument (nodes : list Node) (st : State) : State :=
  {| document := nodes;
     wordScannerHighlights := wordScannerHighlights st;
     nextId := nextId st |}.

(** Highlight forbidden words in a single text node.  [None] when the
    text node is not in the document or the loop does not end within
    [fuel] iterations. *)
Definition highlightForbiddenWordsInNode (fuel : nat) (textNode : nat)
    (pattern : RegExp) (st : State) : option State :=
  match textNodeData textNode (document st) with
  | None => None
  | Some text =>
      match buildFragments fuel text pattern st with
      | None => None
      | Some (fragments, st1) =>
          (* Replace original text node with fragments *)
          if (0 <? length fragments)%nat
          then Some (setDocument
                       (flat_map (replaceTextNode textNode fragments) (document st1))
                       st1)
          else Some st1
      end
  end.

(** One step of either loop of [removeWordHighlights]: the element is
    replaced by a new text node that carries its text; an element that is
    not in the document (it has no parent there) leaves it as it is. *)
Definition restoreText (st : State) (highlight : nat) : State :=
  {| document := map (replaceByText highlight (nextId st)) (document st);
     wordScannerHighlights := wordScannerHighlights st;
     nextId := S (nextId st) |}.

(** Remove all word scanner highlights *)
Definition removeWordHighlights (st : State) : State :=
  let st1 := fold_left restoreText (wordScannerHighlights st) st in
  let st2 := {| document := document st1;
                wordScannerHighlights := [];
                nextId := nextId st1 |} in
  (* Also clean up any orphaned highlights *)
  let orphans := map nodeId (querySelectorAll "word-scanner-highlight" (document st2)) in
  fold_left restoreText orphans st2.

(** The stretches of the text that the highlight spans of a list of
    fragments cover, as pairs of the first offset and the offset after
    the last, when the first fragment starts at [offset]. *)
Fixpoint highlightRuns (offset : nat) (fragments : list Node) : list (nat * nat) :=
  match fragments with
  | [] => []
  | n :: rest =>
      let next := offset + String.length (textContent n) in
      (if hasClass "word-scanner-highlight" n then [(offset, next)] else [])
      ++ highlightRuns next rest
  end.

Fixpoint allWordChars (w : string) : bool :=
  match w with
  | EmptyString => true
  | String c w' => isWordChar c && allWordChars w'
  end.

(** The word [w] occurs at offset [i], in any letter case, with no word
    character before or after it. *)
Definition standaloneAt (text w : string) (i : nat) : bool :=
  matchesAt w text i
  && negb (isWordBefore text i)
  && negb (isWordAt text (i + String.length w)).

Definition span_eq_dec (a b : nat * nat) : {a = b} + {a <> b} :=
  decide (a = b).

(** *** Sample states *)

Definition singleTextNode (text : string) : State :=
  {| document := [Text 0 text]; wordScannerHighlights := []; nextId := 1 |}.

(** A paragraph that holds a text node between two elements, one of them
    a highlight span that is not in the Set. *)
Definition sampleDocument : State :=
  {| document :=
       [Element 0 "p" [] EmptyString
          [Element 1 "b" [] EmptyString [Text 2 "Note: "];
           Text 3 "TODO fix the Lorem ipsum, todo!";
           Element 4 "span" ["word-scanner-highlight"] EmptyString [Text 5 " tbd"]]];
     wordScannerHighlights := [];
     nextId := 6 |}.

End WordScanner.

(** ** Further sample arguments of the analysis *)

Module AnalysisSamples.
Import Js Analysis.

(** [{ tagName: 'INPUT', type: 'EMAIL', autocomplete: 'OFF' }] *)
Definition upperCaseEmail : FieldAttributes :=
  {| tagName := Some "INPUT"; type := Some "EMAIL"; name := None; id := None;
     autocomplete := Some "OFF"; placeholder := None; labelText := None |}.

(** [{ tagName: 'input', type: 'email', autocomplete: 'off' }] *)
Definition lowerCaseEmail : FieldAttributes :=
  {| tagName := Some "input"; type := Some "email"; name := None; id := None;
     autocomplete := Some "off"; placeholder := None; labelText := None |}.

(** [{ tagName: 'input', type: 'text', autocomplete: 'weird' }] *)
Definition unknownAutocomplete : FieldAttributes :=
  {| tagName := Some "input"; type := Some "text"; name := None; id := None;
     autocomplete := Some "weird"; placeholder := None; labelText := None |}.

End AnalysisSamples.

(** ** analysis.js: escaping text for HTML *)

Module Html.
Import Js.

(** [escapeMap[c]], for the characters the map has a key for. *)
Definition escapeMap (c : ascii) : option string :=
  if Ascii.eqb c "&" then Some "&amp;"
  else if Ascii.eqb c "<" then Some "&lt;"
  else if Ascii.eqb c ">" then Some "&gt;"
  else if Ascii.eqb c "034" then Some "&quot;"
  else if Ascii.eqb c "'" then Some "&#39;"
  else None.

(** [s.replace(re, c => escapeMap[c])], where the global pattern [re] is
    the class of the five characters that are keys of the map. *)
Fixpoint replaceSpecial (s : string) : string :=
  match s with
  | EmptyString => EmptyString
  | String c r =>
      match escapeMap c with
      | Some entity => entity +:+ replaceSpecial r
      | None => String c (replaceSpecial r)
      end
  end.

(** The argument is a string, or [None] for null and undefined. *)
Definition escapeHtml (str : option string) : string :=
  match str with
  | None => EmptyString
  | Some s => if negb (truthy s) then EmptyString else replaceSpecial s
  end.

(** The characters of a string, in order. *)
Definition chars (s : string) : list ascii := list_ascii_of_string s.

(** The characters that are markup in HTML text and attribute values,
    other than the ampersand. *)
Definition markupChars : list ascii := ["<"; ">"; "034"; "'"]%char.

End Html.

(** ** utils.js: validating the payload file *)

Module Payloads.
Import Js.

(** A value as [JSON.parse] returns it.  The members of an object are
    listed in the order in which [Object.entries] enumerates them. *)
#[warnings="-register-all"] Inductive Json :=
| JNull
| JBoolean (b : bool)
| JNumber (n : Z)
| JString (s : string)
| JArray (items : list Json)
| JObject (members : list (string * Json)).

(** [!!data] *)
Definition truthyJson (data : Json) : bool :=
  match data with
  | JNull => false
  | JBoolean b => b
  | JNumber n => negb (Z.eqb n 0)
  | JString s => truthy s
  | JArray _ | JObject _ => true
  end.

(** [typeof data === 'object'] *)
Definition isObjectType (data : Json) : bool :=
  match data with
  | JNull | JArray _ | JObject _ => true
  | _ => false
  end.

(** [Array.isArray(v)] *)
Definition isArray (v : Json) : bool :=
  match v with
  | JArray _ => true
  | _ => false
  end.

(** The key of the array element at index [i]. *)
Definition indexKey (i : nat) : string := NilEmpty.string_of_uint (Nat.to_uint i).

Fixpoint indexed (i : nat) (items : list Json) : list (string * Json) :=
  match items with
  | [] => []
  | x :: rest => (indexKey i, x) :: indexed (S i) rest
  end.

(** [Object.entries(data)] for an object or an array *)
Definition entries (data : Json) : list (string * Json) :=
  match data with
  | JObject members => members
  | JArray items => indexed 0 items
  | _ => []
  end.

(** The call returns or throws an [Error] with a message. *)
Inductive Outcome :=
| Returns
| Throws (message : string).

Definition categoryError (category : string) : string :=
  "Category " +:+ dquote +:+ category +:+ dquote +:+ " must be an array".

(** The [for] loop over the entries. *)
Fixpoint checkCategories (es : list (string * Json)) : Outcome :=
  match es with
  | [] => Returns
  | (category, items) :: rest =>
      if negb (isArray items) then Throws (categoryError category)
      else checkCategories rest
  end.

Definition validatePayloads (data : Json) : Outcome :=
  if negb (truthyJson data) || negb (isObjectType data) then
    Throws "payloads.json must be a non-null object"
  else if (length (entries data) =? 0)%nat then
    Throws "payloads.json must have at least one category"
  else checkCategories (entries data).

(** *** Sample file *)

Definition samplePayloads : Json :=
  JObject [("Emails", JArray [JString "a@b.c"]); ("SQL", JArray [])].

End Payloads.

(** ** utils.js: the colour of the badge *)

Module Badge.
Import Overlay.

Definition red : string := "#ef4444".
Definition orange : string := "#f59e0b".
Definition green : string := "#22c55e".

(** The argument is [None] for null and undefined. *)
Definition getBadgeColor (stats : option Stats) : string :=
  match stats with
  | Some s =>
      if (0 <? high s)%Z then red
      else if (0 <? medium s)%Z then orange
      else green
  | None => green
  end.

End Badge.

(** ** popup.js: the list of forbidden words *)

Module Popup.
Import Js.

Definition DEFAULT_FORBIDDEN_WORDS : list string :=
  [ "todo"; "fixme"; "lorem"; "ipsum"; "placeholder"; "tbd"; "example.com" ].

(** The white space and line terminators among the code units below 256:
    tab, line feed, vertical tab, form feed, carriage return, space and
    no-break space. *)
Definition isWhiteSpace (c : ascii) : bool :=
  let n := nat_of_ascii c in
  inRange 9 13 n || (n =? 32)%nat || (n =? 160)%nat.

Fixpoint trimStart (s : string) : string :=
  match s with
  | EmptyString => EmptyString
  | String c r => if isWhiteSpace c then trimStart r else s
  end.

Fixpoint trimEnd (s : string) : string :=
  match s with
  | EmptyString => EmptyString
  | String c r =>
      let r' := trimEnd r in
      if isWhiteSpace c && negb (truthy r') then EmptyString else String c r'
  end.

(** [s.trim()] *)
Definition trim (s : string) : string := trimEnd (trimStart s).

(** [s.split(',')]: the pieces between the commas, one more than there
    are commas. *)
Fixpoint split (s : string) : list string :=
  match s with
  | EmptyString => [EmptyString]
  | String c r =>
      if Ascii.eqb c ","
      then EmptyString :: split r
      else match split r with
           | piece :: pieces => String c piece :: pieces
           | [] => [String c EmptyString]
           end
  end.

(** [array.join(sep)] for an array of strings *)
Fixpoint join (sep : string) (l : list string) : string :=
  match l with
  | [] => EmptyString
  | [w] => w
  | w :: rest => w +:+ sep +:+ join sep rest
  end.

(** What the popup reads and writes: the value of the text box and the
    entry [forbiddenWords] of the local storage, [None] while it has never
    been set. *)
Record State := {
  wordListInput : string;
  forbiddenWords : option (list string)
}.

(** The callback of [chrome.storage.local.get]: an array, empty or not,
    is truthy. *)
Definition loadWordList (st : State) : State :=
  let words := match forbiddenWords st with
               | Some words => words
               | None => DEFAULT_FORBIDDEN_WORDS
               end in
  {| wordListInput := join ", " words; forbiddenWords := forbiddenWords st |}.

(** The words of the text box. *)
Definition parseWords (input : string) : list string :=
  List.filter (fun w => (0 <? String.length w)%nat)
    (map (fun w => toLowerCase (trim w)) (split input)).

(** Save word list handler *)
Definition saveWordList (st : State) : State :=
  let input := wordListInput st in
  let words := parseWords input in
  if (length words =? 0)%nat then
    {| wordListInput := join ", " DEFAULT_FORBIDDEN_WORDS;
       forbiddenWords := Some DEFAULT_FORBIDDEN_WORDS |}
  else
    {| wordListInput := input; forbiddenWords := Some words |}.

(** The text box after the user has typed [input] into it. *)
Definition typed (input : string) (st : State) : State :=
  {| wordListInput := input; forbiddenWords := forbiddenWords st |}.

Definition neverSaved : State :=
  {| wordListInput := EmptyString; forbiddenWords := None |}.

End Popup.

(** ** content.js: scanning the page for fields *)

Module ContentScript.
Import Js Analysis Dom Overlay.

(** What the script reads of a field: the size of its bounding rectangle
    (only compared with zero), three properties of its computed style, its
    tag name, five of its attributes ([None] when [getAttribute] gives
    null), the text of the label whose [for] attribute names the field, and
    the text of the label the field is inside of, if there are such. *)
Record Field := {
  rectWidth : Z;
  rectHeight : Z;
  styleDisplay : string;
  styleVisibility : string;
  styleOpacity : string;
  fieldTagName : string;
  typeAttribute : option string;
  nameAttribute : option string;
  idAttribute : option string;
  autocompleteAttribute : option string;
  placeholderAttribute : option string;
  labelFor : option string;
  closestLabel : option string
}.

(** [field.id], the reflection of the attribute. *)
Definition idProperty (field : Field) : string :=
  valueOr EmptyString (idAttribute field).

(** Get associated label text *)
Definition associatedLabelText (field : Field) : string :=
  let labelText :=
    if truthy (idProperty field) then
      match labelFor field with
      | Some text => text
      | None => EmptyString
      end
    else EmptyString in
  match closestLabel field with
  | Some text => labelText +:+ " " +:+ text
  | None => labelText
  end.

Definition analyzeField (element : nat) (field : Field) : Completion (option FieldAnalysis) :=
  (* Skip elements that aren't visible or have no dimensions *)
  if Z.eqb (rectWidth field) 0 || Z.eqb (rectHeight field) 0 then Return None
  else if String.eqb (styleDisplay field) "none"
          || String.eqb (styleVisibility field) "hidden"
          || String.eqb (styleOpacity field) "0" then Return None
  else
    let labelText := associatedLabelText field in
    result ← analyzeFieldAttributes
               (attrsOf {| tagName := Some (fieldTagName field);
                           type := Some (Inject.orElse (typeAttribute field) "text");
                           name := Some (Inject.orElse (nameAttribute field) EmptyString);
                           id := Some (Inject.orElse (idAttribute field) EmptyString);
                           autocomplete :=
                             Some (Inject.orElse (autocompleteAttribute field) EmptyString);
                           placeholder :=
                             Some (Inject.orElse (placeholderAttribute field) EmptyString);
                           labelText := Some labelText |});
    match result with
    | None => Return None
    | Some v => Return (Some {| element := element; verdict := v |})
    end.

(** The state of the content script: the flag, the cache of analyses and
    the state that the overlays need. *)
Record Script := {
  isEnabled : bool;
  analyzedFields : gmap nat (option FieldAnalysis);
  page : State
}.

Definition withPage (p : State) (sc : Script) : Script :=
  {| isEnabled := isEnabled sc; analyzedFields := analyzedFields sc; page := p |}.

(** The selector [input, textarea, select]. *)
Definition isFieldElement (n : Node) : bool :=
  match n with
  | Text _ _ => false
  | Element _ t _ _ _ => arrayIncludes ["input"; "textarea"; "select"] (toLowerCase t)
  end.

(** The identities of the elements a selector matches, in document
    order. *)
Definition selectIds (p : Node -> bool) (nodes : list Node) : list nat :=
  map nodeId (List.filter p (flat_map elements nodes)).

Definition fieldsOf (nodes : list Node) : list nat := selectIds isFieldElement nodes.

(** [fieldStats[riskLevel]++; fieldStats.total++] *)
Definition countField (riskLevel : RiskLevel) (s : Stats) : Stats :=
  let s :=
    match riskLevel with
    | High => {| high := high s + 1; medium := medium s; low := low s; total := total s |}
    | Medium => {| high := high s; medium := medium s + 1; low := low s; total := total s |}
    | Low => {| high := high s; medium := medium s; low := low s + 1; total := total s |}
    end in
  {| high := high s; medium := medium s; low := low s; total := total s + 1 |}.

(** [list.forEach(f)], where a call that throws ends the loop. *)
Fixpoint forEach {A S : Type} (f : S -> A -> Completion S) (l : list A) (s : S)
    : Completion S :=
  match l with
  | [] => Return s
  | a :: rest => s' ← f s a; forEach f rest s'
  end.

(** The body of the loop of [scanPage]; [view] tells what the script
    reads of each element. *)
Definition scanField (view : nat -> Field) (sc : Script) (field : nat) : Completion Script :=
  analysis ← analyzeField field (view field);
  (* Cache the analysis result (null for skipped fields) *)
  let sc1 := {| isEnabled := isEnabled sc;
                analyzedFields := <[field := analysis]> (analyzedFields sc);
                page := page sc |} in
  match analysis with
  | Some a =>
      if (0 <? length (risks (verdict a)))%nat then
        let p1 := (createOverlay a (page sc1)).2 in
        Return (withPage
                  (setFieldStats (countField (riskLevel (verdict a)) (fieldStats p1)) p1)
                  sc1)
      else Return sc1
  | None => Return sc1
  end.

Definition scanPage (view : nat -> Field) (sc : Script) : Completion Script :=
  if negb (isEnabled sc) then Return sc
  else
    let sc0 := withPage (setFieldStats noStats (page sc)) sc in
    let fields := fieldsOf (body (page sc0)) in
    sc1 ← forEach (scanField view) fields sc0;
    (* Update extension badge *)
    Return (withPage (updateBadge (page sc1)) sc1).

(** [document.querySelectorAll(selector).forEach(el => el.remove())] *)
Definition removeEach (p : Node -> bool) (nodes : list Node) : list Node :=
  fold_left (fun nodes el => remove el nodes) (selectIds p nodes) nodes.

(** [fields.forEach(field => map.delete(field))] *)
Definition deleteEach {A} (fields : list nat) (m : gmap nat A) : gmap nat A :=
  fold_left (fun m field => delete field m) fields m.

(** The tooltip timeouts are not part of the state. *)
Definition removeAllOverlays (sc : Script) : Script :=
  let p := page sc in
  let body1 := removeEach (hasClass "autofill-detector-overlay") (body p) in
  let body2 := removeEach (hasClass "autofill-detector-tooltip") body1 in
  let fields := fieldsOf body2 in
  {| isEnabled := isEnabled sc;
     analyzedFields := deleteEach fields (analyzedFields sc);
     page := {| body := body2;
                fieldStats := fieldStats p;
                overlayMap := deleteEach fields (overlayMap p);
                tooltipMap := deleteEach fields (tooltipMap p);
                sent := sent p;
                nextId := nextId p |} |}.

(** [v !== false] *)
Definition notFalse (v : Value) : bool :=
  match v with
  | Boolean false => false
  | _ => true
  end.

(** The listener of [chrome.storage.onChanged]; [change] is the new value
    of [autofillDetectorEnabled] when the change has that key.  The
    observers, timers and scroll listeners it starts and stops are not part
    of the state. *)
Definition onStorageChanged (view : nat -> Field) (areaName : string)
    (change : option Value) (sc : Script) : Completion Script :=
  match change with
  | None => Return sc
  | Some newValue =>
      if negb (String.eqb areaName "local") then Return sc
      else
        let newEnabled := notFalse newValue in
        if Bool.eqb newEnabled (isEnabled sc) then Return sc
        else
          let sc1 := {| isEnabled := newEnabled;
                        analyzedFields := analyzedFields sc;
                        page := page sc |} in
          if newEnabled then scanPage view sc1
          else
            let sc2 := removeAllOverlays sc1 in
            Return (withPage (updateBadge (setFieldStats noStats (page sc2))) sc2)
  end.

(** *** Sample page *)

(** A visible text input without attributes. *)
Definition plainInput : Field :=
  {| rectWidth := 100; rectHeight := 20;
     styleDisplay := "block"; styleVisibility := "visible"; styleOpacity := "1";
     fieldTagName := "INPUT";
     typeAttribute := None; nameAttribute := None; idAttribute := None;
     autocompleteAttribute := None; placeholderAttribute := None;
     labelFor := None; closestLabel := None |}.

(** The same input with [type=email] and [autocomplete=off]. *)
Definition emailField : Field :=
  {| rectWidth := 100; rectHeight := 20;
     styleDisplay := "block"; styleVisibility := "visible"; styleOpacity := "1";
     fieldTagName := "INPUT";
     typeAttribute := Some "email"; nameAttribute := None; idAttribute := None;
     autocompleteAttribute := Some "off"; placeholderAttribute := None;
     labelFor := None; closestLabel := None |}.

Definition sampleView (element : nat) : Field :=
  if (element =? 1)%nat then emailField else plainInput.

(** A form with two inputs and a button, no overlay yet. *)
Definition sampleForm : Script :=
  {| isEnabled := true;
     analyzedFields := ∅;
     page := {| body := [Element 0 "FORM" [] EmptyString
                           [Element 1 "INPUT" [] EmptyString [];
                            Element 2 "INPUT" [] EmptyString [];
                            Element 3 "BUTTON" [] EmptyString [Text 4 "Send"]]];
                fieldStats := noStats; overlayMap := ∅; tooltipMap := ∅;
                sent := []; nextId := 5 |} |}.

End ContentScript.

(** ** wordscanner.js: the scanner on a whole document *)

Module PageScan.
Import Js Dom WordScanner.

(** In this module [document st] holds the child nodes of the Document
    node itself: in an HTML document that is the html element, whose tag
    name, like that of every HTML element, is in upper case.  Comments and
    the doctype are left out; no operation of the scanner sees them. *)

(** What a call can throw. *)
Inductive Thrown :=
| DOMException (name : string)
| JsError (e : Error).

(** The outcome of a call: the state it leaves, and what it has thrown if
    it has ended with an exception. *)
Inductive Outcome (S : Type) :=
| Normal (s : S)
| Abrupt (e : Thrown) (s : S).
Arguments Normal {S} s.
Arguments Abrupt {S} e s.

(** The elements that are children of the Document node. *)
Definition documentChildren (nodes : list Node) : list nat :=
  flat_map (fun n => match n with
                     | Text _ _ => []
                     | Element i _ _ _ _ => [i]
                     end) nodes.

(** [document.documentElement] *)
Definition documentElement (nodes : list Node) : option Node :=
  List.find (fun n => match n with
                      | Text _ _ => false
                      | Element _ _ _ _ _ => true
                      end) nodes.

Definition isBodyElement (n : Node) : bool :=
  match n with
  | Text _ _ => false
  | Element _ t _ _ _ => String.eqb t "BODY" || String.eqb t "FRAMESET"
  end.

(** [document.body]: the first child of the html element that is a body
    or a frameset element. *)
Definition documentBody (nodes : list Node) : option Node :=
  match documentElement nodes with
  | Some (Element _ t _ _ cs) =>
      if String.eqb t "HTML" then List.find isBodyElement cs else None
  | _ => None
  end.

(** [el.parentNode.replaceChild(document.createTextNode(el.textContent), el)]:
    a text node cannot be a child of the Document node, so the call throws
    when [el] is one; the text node has been created by then. *)
Definition replaceChildByText (st : State) (el : nat) : Outcome State :=
  if existsb (Nat.eqb el) (documentChildren (document st))
  then Abrupt (DOMException "HierarchyRequestError")
         {| document := document st;
            wordScannerHighlights := wordScannerHighlights st;
            nextId := S (nextId st) |}
  else Normal (restoreText st el).

(** A loop whose body can throw. *)
Fixpoint forEach {A S : Type} (f : S -> A -> Outcome S) (l : list A) (s : S) : Outcome S :=
  match l with
  | [] => Normal s
  | a :: rest =>
      match f s a with
      | Normal s' => forEach f rest s'
      | Abrupt e s' => Abrupt e s'
      end
  end.

(** Remove all word scanner highlights; the elements of the class are
    looked for in the whole document. *)
Definition removeWordHighlights (st : State) : Outcome State :=
  match forEach replaceChildByText (wordScannerHighlights st) st with
  | Abrupt e st1 => Abrupt e st1
  | Normal st1 =>
      let st2 := {| document := document st1;
                    wordScannerHighlights := [];
                    nextId := nextId st1 |} in
      (* Also clean up any orphaned highlights *)
      let orphans :=
        map nodeId (querySelectorAll "word-scanner-highlight" (document st2)) in
      forEach replaceChildByText orphans st2
  end.

(** The state of the word scanner: its flag, its word list, the document
    with the Set of highlights, the counts it has reported to the
    background script, in order, its observer ([None] when there is none,
    otherwise whether it is connected), and the number of timers that will
    call the scan again. *)
Record Script := {
  wordScannerEnabled : bool;
  forbiddenWords : list string;
  dom : State;
  sent : list nat;
  wordScannerObserver : option bool;
  retries : nat
}.

Definition withDom (st : State) (sc : Script) : Script :=
  {| wordScannerEnabled := wordScannerEnabled sc;
     forbiddenWords := forbiddenWords sc;
     dom := st;
     sent := sent sc;
     wordScannerObserver := wordScannerObserver sc;
     retries := retries sc |}.

Definition withObserver (o : option bool) (sc : Script) : Script :=
  {| wordScannerEnabled := wordScannerEnabled sc;
     forbiddenWords := forbiddenWords sc;
     dom := dom sc;
     sent := sent sc;
     wordScannerObserver := o;
     retries := retries sc |}.

(** Update badge with word scanner count *)
Definition updateWordScannerBadge (sc : Script) : Script :=
  let count := length (wordScannerHighlights (dom sc)) in
  {| wordScannerEnabled := wordScannerEnabled sc;
     forbiddenWords := forbiddenWords sc;
     dom := dom sc;
     sent := sent sc ++ [count];
     wordScannerObserver := wordScannerObserver sc;
     retries := retries sc |}.

(** [if (wordScannerObserver) wordScannerObserver.disconnect()] *)
Definition pauseObserver (sc : Script) : Script :=
  match wordScannerObserver sc with
  | Some _ => withObserver (Some false) sc
  | None => sc
  end.

(** [if (wordScannerObserver && wordScannerEnabled)
    wordScannerObserver.observe(document.body, ...)]: the call throws a
    TypeError when there is no body. *)
Definition reconnectObserver (sc : Script) : Outcome Script :=
  match wordScannerObserver sc with
  | Some _ =>
      if wordScannerEnabled sc then
        match documentBody (document (dom sc)) with
        | Some _ => Normal (withObserver (Some true) sc)
        | None => Abrupt (JsError TypeError) sc
        end
      else Normal sc
  | None => Normal sc
  end.

(** A text node as the tree walker shows it to the filter: the node, the
    tag name and the class list of its parent element, and its text. *)
Record WalkerNode := {
  w_node : nat;
  w_parentTagName : string;
  w_parentClassList : list string;
  w_text : string
}.

(** The text nodes below a node whose parent element has the given tag
    name and class list, in document order. *)
Fixpoint textNodesUnder (parentTagName : string) (parentClassList : list string)
    (n : Node) : list WalkerNode :=
  match n with
  | Text i d =>
      [{| w_node := i; w_parentTagName := parentTagName;
          w_parentClassList := parentClassList; w_text := d |}]
  | Element _ t cl _ cs => flat_map (textNodesUnder t cl) cs
  end.

(** The text nodes that a tree walker with the given root visits. *)
Definition textNodesBelow (root : Node) : list WalkerNode :=
  textNodesUnder EmptyString [] root.

(** [pattern.test(text)] for a global pattern: like [exec], it starts at
    [lastIndex] and moves it. *)
Definition test (pattern : RegExp) (text : string) : bool * RegExp :=
  match exec pattern text with
  | (Some _, pattern') => (true, pattern')
  | (None, pattern') => (false, pattern')
  end.

(** [classList.contains(cls)] *)
Definition contains (classList : list string) (cls : string) : bool :=
  existsb (String.eqb cls) classList.

(** The filter of the tree walker; true stands for FILTER_ACCEPT. *)
Definition acceptNode (pattern : RegExp) (node : WalkerNode) : bool * RegExp :=
  (* Skip script, style, and our own elements *)
  let tagName := toLowerCase (w_parentTagName node) in
  if String.eqb tagName "script" || String.eqb tagName "style"
     || String.eqb tagName "noscript" then (false, pattern)
  else if contains (w_parentClassList node) "word-scanner-highlight"
          || contains (w_parentClassList node) "autofill-detector-overlay"
          || contains (w_parentClassList node) "autofill-detector-tooltip"
  then (false, pattern)
  else
    (* Skip if no forbidden words *)
    let '(found, pattern1) := test pattern (w_text node) in
    if negb found then (false, pattern1)
    else (true, setLastIndex 0 pattern1).

(** The loop over [walker.nextNode()]. *)
Definition walk (pattern : RegExp) (nodes : list WalkerNode) : list nat * RegExp :=
  fold_left
    (fun '(nodesToProcess, pattern) node =>
       let '(accepted, pattern1) := acceptNode pattern node in
       (if accepted then nodesToProcess ++ [w_node node] else nodesToProcess, pattern1))
    nodes ([], pattern).

(** Process nodes (separate loop to avoid tree modification during walk) *)
Fixpoint processNodes (fuel : nat) (nodesToProcess : list nat) (pattern : RegExp)
    (st : State) : option State :=
  match nodesToProcess with
  | [] => Some st
  | textNode :: rest =>
      match highlightForbiddenWordsInNode fuel textNode pattern st with
      | Some st' => processNodes fuel rest pattern st'
      | None => None
      end
  end.

(** Scan page for forbidden words and highlight them.  [None] when one of
    the highlighting loops does not end within [fuel] turns. *)
Definition scanForForbiddenWords (fuel : nat) (sc : Script) : option (Outcome Script) :=
  if negb (wordScannerEnabled sc) then Some (Normal sc)
  else
    match documentBody (document (dom sc)) with
    | None =>
        (* Body not ready, try again soon *)
        Some (Normal {| wordScannerEnabled := wordScannerEnabled sc;
                        forbiddenWords := forbiddenWords sc;
                        dom := dom sc;
                        sent := sent sc;
                        wordScannerObserver := wordScannerObserver sc;
                        retries := S (retries sc) |})
    | Some _ =>
        (* Pause observer to prevent infinite loop from our own DOM changes *)
        let sc1 := pauseObserver sc in
        (* Remove existing highlights first *)
        match removeWordHighlights (dom sc1) with
        | Abrupt e st1 => Some (Abrupt e (withDom st1 sc1))
        | Normal st1 =>
            if (length (forbiddenWords sc1) =? 0)%nat
            then Some (reconnectObserver (updateWordScannerBadge (withDom st1 sc1)))
            else
              let pattern := buildPattern (forbiddenWords sc1) in
              (* Walk through all text nodes *)
              match documentBody (document st1) with
              | None => Some (Abrupt (JsError TypeError) (withDom st1 sc1))
              | Some body =>
                  let '(nodesToProcess, pattern1) := walk pattern (textNodesBelow body) in
                  match processNodes fuel nodesToProcess pattern1 st1 with
                  | None => None
                  | Some st2 =>
                      Some (reconnectObserver
                              (updateWordScannerBadge (withDom st2 sc1)))
                  end
              end
        end
    end.

(** *** Sample pages *)

Definition inDocument (bodyClassList : list string) (content : list Node) : list Node :=
  [Element 100 "HTML" [] EmptyString
     [Element 101 "HEAD" [] EmptyString
        [Element 102 "TITLE" [] EmptyString [Text 103 "todo list"]];
      Element 104 "BODY" bodyClassList EmptyString content]].

(** A page with a paragraph, a script and a highlight left over from an
    earlier scan. *)
Definition samplePage : Script :=
  {| wordScannerEnabled := true;
     forbiddenWords := ["todo"; "lorem"];
     dom := {| document :=
                 inDocument []
                   [Element 0 "P" [] EmptyString
                      [Text 1 "A todo and a ";
                       Element 2 "SPAN" ["word-scanner-highlight"] EmptyString
                         [Text 3 "fixme"];
                       Text 4 " here. Lorem!"];
                    Element 5 "SCRIPT" [] EmptyString [Text 6 "var todo = 1;"]];
               wordScannerHighlights := [2];
               nextId := 105 |};
     sent := [];
     wordScannerObserver := Some true;
     retries := 0 |}.

(** A page that the scanner has not touched, with a script. *)
Definition freshPage : Script :=
  {| wordScannerEnabled := true;
     forbiddenWords := ["todo"];
     dom := {| document :=
                 inDocument []
                   [Element 0 "P" [] EmptyString [Text 1 "A todo here"];
                    Element 2 "SCRIPT" [] EmptyString [Text 3 "var todo = 1;"]];
               wordScannerHighlights := [];
               nextId := 105 |};
     sent := [];
     wordScannerObserver := Some true;
     retries := 0 |}.

(** A page whose body has the class of a highlight. *)
Definition markedBody : Script :=
  {| wordScannerEnabled := true;
     forbiddenWords := ["todo"];
     dom := {| document :=
                 inDocument ["word-scanner-highlight"]
                   [Element 0 "P" [] EmptyString [Text 1 "A todo here"]];
               wordScannerHighlights := [];
               nextId := 105 |};
     sent := [];
     wordScannerObserver := None;
     retries := 0 |}.

End PageScan.

(** ** utils.js: titles for the menu *)

Module Titles.
Import Js.

(** A string as the sequence of its UTF-16 code units; the titles hold
    characters beyond [U+00FF]. *)
Abbreviation ustring := (list N).

Definition ofString (s : string) : ustring :=
  map N_of_ascii (list_ascii_of_string s).

(** [U+00B7] and [U+2026] *)
Definition middleDot : N := 183%N.
Definition ellipsis : N := 8230%N.

(** The class 00-1F, 7F *)
Definition isControl (c : N) : bool := ((c <=? 31) || (c =? 127))%N.

(** The class 200B-200F, 2028-202F, FEFF *)
Definition isInvisible (c : N) : bool :=
  (((8203 <=? c) && (c <=? 8207)) || ((8232 <=? c) && (c <=? 8239)) || (c =? 65279))%N.

(** [s.replace(class, replacement)] for a global pattern that is a class
    of single code units *)
Definition replaceClass (class : N -> bool) (replacement : N) (s : ustring) : ustring :=
  map (fun c => if class c then replacement else c) s.

(** Sanitize and truncate string for menu display.  [str] is a string,
    or [None] for null and undefined; [len] is 35 unless the caller gives
    it. *)
Definition truncate (str : option ustring) (len : nat) : ustring :=
  match str with
  | None | Some [] => ofString "(empty)"
  | Some s =>
      let sanitized :=
        replaceClass isInvisible middleDot (replaceClass isControl middleDot s) in
      if (length sanitized <=? len)%nat
      then match sanitized with
           | [] => ofString "(special chars)"
           | _ => sanitized
           end
      else firstn len sanitized ++ [ellipsis]
  end.

(** A payload item: a string, an object whose properties [name] and
    [value] are strings or absent ([None]), or null. *)
Inductive Item :=
| ItemString (s : ustring)
| ItemObject (name value : option ustring)
| ItemNull.

(** Get display title for a payload item.  Reading a property of null
    throws, and so does the call of [replace] on an object that is not a
    string. *)
Definition getItemTitle (item : Item) : Completion ustring :=
  match item with
  | ItemString s => Return (truncate (Some s) 35)
  | ItemObject (Some (c :: name)) _ => Return (c :: name)
  | ItemObject _ _ => Throw TypeError
  | ItemNull => Throw TypeError
  end.

End Titles.

(** ** content.js: the mutation observer *)

Module Observer.
Import Js Analysis Dom Overlay ContentScript.

Inductive MutationType := mutChildList | mutAttributes | mutCharacterData.

Record MutationRecord := {
  m_type : MutationType;
  addedNodes : list Node;
  removedNodes : list Node
}.

(** The fields that an added or removed node stands for: the node
    itself when it matches the selector, the matching elements below it
    otherwise; a text node has none. *)
Definition fieldsIn (node : Node) : list nat :=
  match node with
  | Text _ _ => []
  | Element i _ _ _ cs => if isFieldElement node then [i] else fieldsOf cs
  end.

Definition collect (nodes : MutationRecord -> list Node)
    (mutations : list MutationRecord) : list nat :=
  flat_map (fun mutation =>
              match m_type mutation with
              | mutChildList => flat_map fieldsIn (nodes mutation)
              | _ => []
              end) mutations.

(** The script with its rescan timer: [rescanTimeout] holds the fields
    that the pending callback will analyse, [None] when no callback is
    pending. *)
Record State := {
  script : Script;
  rescanTimeout : option (list nat)
}.

(** [fieldStats[riskLevel]--; fieldStats.total--] *)
Definition uncountField (riskLevel : RiskLevel) (s : Stats) : Stats :=
  let s :=
    match riskLevel with
    | High => {| high := high s - 1; medium := medium s; low := low s; total := total s |}
    | Medium => {| high := high s; medium := medium s - 1; low := low s; total := total s |}
    | Low => {| high := high s; medium := medium s; low := low s - 1; total := total s |}
    end in
  {| high := high s; medium := medium s; low := low s; total := total s - 1 |}.

(** Clean up overlays for a removed field. *)
Definition forgetField (sc : Script) (field : nat) : Script :=
  let p := page sc in
  let p1 :=
    match overlayMap p !! field with
    | Some overlay =>
        {| body := remove overlay (body p); fieldStats := fieldStats p;
           overlayMap := delete field (overlayMap p); tooltipMap := tooltipMap p;
           sent := sent p; nextId := nextId p |}
    | None => p
    end in
  let p2 :=
    match tooltipMap p1 !! field with
    | Some tooltip =>
        {| body := remove tooltip (body p1); fieldStats := fieldStats p1;
           overlayMap := overlayMap p1; tooltipMap := delete field (tooltipMap p1);
           sent := sent p1; nextId := nextId p1 |}
    | None => p1
    end in
  (* Remove from cache and update stats *)
  match analyzedFields sc !! field with
  | Some (Some cached) =>
      {| isEnabled := isEnabled sc;
         analyzedFields := delete field (analyzedFields sc);
         page := setFieldStats
                   (uncountField (riskLevel (verdict cached)) (fieldStats p2)) p2 |}
  | _ => withPage p2 sc
  end.

Definition withScript (sc : Script) (st : State) : State :=
  {| script := sc; rescanTimeout := rescanTimeout st |}.

(** The callback of the observer. *)
Definition onMutations (mutations : list MutationRecord) (st : State) : State :=
  if negb (isEnabled (script st)) then st
  else
    let newFields := collect addedNodes mutations in
    let removedFields := collect removedNodes mutations in
    let sc1 := fold_left forgetField removedFields (script st) in
    if (0 <? length newFields)%nat then
      (* Analyze only new fields *)
      {| script := sc1; rescanTimeout := Some newFields |}
    else if (0 <? length removedFields)%nat then
      (* Update badge if fields were removed *)
      withScript (withPage (reconcileStats (updateBadge (page sc1))) sc1) st
    else withScript sc1 st.

(** The body of the loop of the timer callback. *)
Definition rescanField (view : nat -> Field) (sc : Script) (field : nat)
    : Completion Script :=
  match analyzedFields sc !! field with
  | Some _ => Return sc
  | None => scanField view sc field
  end.

(** The rescan timer fires. *)
Definition onRescanTimeout (view : nat -> Field) (st : State) : Completion State :=
  match rescanTimeout st with
  | None => Return st
  | Some newFields =>
      sc1 ← forEach (rescanField view) newFields (script st);
      Return {| script := withPage (reconcileStats (updateBadge (page sc1))) sc1;
                rescanTimeout := None |}
  end.

(** *** Sample *)

(** An analysis without findings. *)
Definition quietAnalysis (element : nat) : FieldAnalysis :=
  {| element := element;
     verdict := {| riskLevel := Low; risks := [];
                   attributes := {| at_tagName := "input"; at_type := "text";
                                    at_name := EmptyString; at_id := EmptyString;
                                    at_autocomplete := "x";
                                    at_placeholder := EmptyString |} |} |}.

(** A page with one input that has been analysed and has no overlay. *)
Definition quietPage : State :=
  {| script :=
       {| isEnabled := true;
          analyzedFields := {[ 1 := Some (quietAnalysis 1) ]};
          page := {| body := [Element 0 "FORM" [] EmptyString []];
                     fieldStats := noStats; overlayMap := ∅; tooltipMap := ∅;
                     sent := []; nextId := 2 |} |};
     rescanTimeout := None |}.

(** The input is taken out of the document. *)
Definition inputRemoved : list MutationRecord :=
  [{| m_type := mutChildList; addedNodes := [];
      removedNodes := [Element 1 "INPUT" [] EmptyString []] |}].

End Observer.

(** * Properties *)

(** ** Properties of the autofill risk analysis *)

Module AnalysisFacts.
Import Js Analysis.

#[local] Arguments arrayIncludes : simpl never.
#[local] Arguments firstKeyword : simpl never.

(** The ordered levels low < medium < high. *)
Definition rank (l : RiskLevel) : nat :=
  match l with Low => 0 | Medium => 1 | High => 2 end.

Lemma truthy_toLowerCase s : truthy (toLowerCase s) = truthy s.
Proof. destruct s; reflexivity. Qed.

Lemma truthy_true s : truthy s = true <-> s <> EmptyString.
Proof. destruct s; simpl; split; congruence. Qed.

Lemma arrayIncludes_In l x : arrayIncludes l x = true <-> In x l.
Proof.
  unfold arrayIncludes. rewrite existsb_exists. split.
  - intros (y & Hy & E). apply String.eqb_eq in E. now subst.
  - intros H. exists x. split; [assumption | apply String.eqb_refl].
Qed.

Lemma arrayIncludes_not_In l x : arrayIncludes l x = false <-> ~ In x l.
Proof.
  rewrite <- arrayIncludes_In. destruct (arrayIncludes l x); split; congruence.
Qed.

(** With every attribute absent or a string, the call does not throw and
    runs the body on the defaulted strings. *)
Lemma analyze_attrsOf (a : FieldAttributes) :
  analyzeFieldAttributes (attrsOf a) =
  Return (analyzeStrings
            (valueOr EmptyString (tagName a)) (valueOr "text" (type a))
            (valueOr EmptyString (name a)) (valueOr EmptyString (id a))
            (valueOr EmptyString (autocomplete a))
            (valueOr EmptyString (placeholder a))
            (valueOr EmptyString (labelText a))).
Proof.
  destruct a as [t ty n i ac p l].
  destruct t, ty, n, i, ac, p, l; reflexivity.
Qed.

(** *** What each rule does to the list of risks *)

Lemma risks_push r f : f_risks (push r f) = f_risks f ++ [r].
Proof. reflexivity. Qed.

Lemma risks_setLevel l f : f_risks (setLevel l f) = f_risks f.
Proof. reflexivity. Qed.

Lemma risks_lowToMedium f : f_risks (lowToMedium f) = f_risks f.
Proof. unfold lowToMedium. now destruct (f_level f). Qed.

Lemma level_push r f : f_level (push r f) = f_level f.
Proof. reflexivity. Qed.

Lemma rank_lowToMedium f :
  rank (f_level f) <= rank (f_level (lowToMedium f))
  /\ 1 <= rank (f_level (lowToMedium f)).
Proof. unfold lowToMedium. destruct (f_level f) eqn:E; simpl; rewrite ?E; simpl; lia. Qed.

(** A rule either leaves the risks alone or pushes one risk that
    satisfies [P]. *)
Definition pushesOnly (P : Risk -> Prop) (f f' : Findings) : Prop :=
  f_risks f' = f_risks f \/ exists r, P r /\ f_risks f' = f_risks f ++ [r].

Lemma pushesOnly_Forall P Q f f' :
  pushesOnly P f f' -> (forall r, P r -> Q r) ->
  Forall Q (f_risks f) -> Forall Q (f_risks f').
Proof.
  intros [E | (r & Hr & E)] HPQ H; rewrite E; [assumption |].
  apply Forall_app; split; [assumption | constructor; auto].
Qed.

Lemma pushesOnly_In P f f' r :
  pushesOnly P f f' -> In r (f_risks f) -> In r (f_risks f').
Proof.
  intros [E | (r' & _ & E)] H; rewrite E; [assumption |].
  apply in_or_app; now left.
Qed.

Ltac keep := left; rewrite ?risks_lowToMedium, ?risks_setLevel; reflexivity.
Ltac pushed r :=
  right; exists r; split;
  [ | rewrite ?risks_lowToMedium, ?risks_setLevel, ?risks_push; reflexivity ].

Lemma checkAutocomplete_pushes ac nac f :
  pushesOnly (fun r => (r = missingAutocompleteWarning /\ truthy nac = false)
                       \/ r = safeAutocompleteInfo ac
                       \/ r = triggerAutocompleteError ac)
             f (checkAutocomplete ac nac f).
Proof.
  unfold checkAutocomplete.
  destruct (truthy nac) eqn:T; cbn [negb].
  - destruct (arrayIncludes SAFE_AUTOCOMPLETE_VALUES nac).
    + pushed (safeAutocompleteInfo ac). tauto.
    + destruct (arrayIncludes AUTOCOMPLETE_VALUES_THAT_TRIGGER nac).
      * pushed (triggerAutocompleteError ac). tauto.
      * keep.
  - pushed missingAutocompleteWarning. tauto.
Qed.

Lemma checkType_pushes ty nty f :
  pushesOnly (fun r => r = inputTypeError ty \/ r = passwordWarning)
             f (checkType ty nty f).
Proof.
  unfold checkType.
  destruct (arrayIncludes AUTOFILL_INPUT_TYPES nty).
  - pushed (inputTypeError ty). tauto.
  - destruct (String.eqb nty "password").
    + right. exists passwordWarning. split; [tauto |].
      rewrite level_push. now destruct (f_level f).
    + keep.
Qed.

Lemma checkName_pushes n nn f :
  pushesOnly (fun r => exists k, r = nameKeywordWarning n k) f (checkName n nn f).
Proof.
  unfold checkName. destruct (firstKeyword nn) as [k|].
  - pushed (nameKeywordWarning n k). now exists k.
  - keep.
Qed.

Lemma checkId_pushes i ni f :
  pushesOnly (fun r => exists k, r = idKeywordWarning i k) f (checkId i ni f).
Proof.
  unfold checkId. destruct (firstKeyword ni) as [k|].
  - pushed (idKeywordWarning i k). now exists k.
  - keep.
Qed.

Lemma checkPlaceholder_pushes np f :
  pushesOnly (fun r => exists k, r = placeholderKeywordInfo k) f (checkPlaceholder np f).
Proof.
  unfold checkPlaceholder. destruct (firstKeyword np) as [k|].
  - pushed (placeholderKeywordInfo k). now exists k.
  - keep.
Qed.

Lemma checkLabel_pushes nl f :
  pushesOnly (fun r => exists k, r = labelKeywordInfo k) f (checkLabel nl f).
Proof.
  unfold checkLabel. destruct (firstKeyword nl) as [k|].
  - pushed (labelKeywordInfo k). now exists k.
  - keep.
Qed.

(** *** What each rule does to the level: it never lowers it *)

Lemma checkType_rank ty nty f :
  rank (f_level f) <= rank (f_level (checkType ty nty f)).
Proof.
  unfold checkType.
  destruct (arrayIncludes AUTOFILL_INPUT_TYPES nty); [simpl; destruct (f_level f); simpl; lia |].
  destruct (String.eqb nty "password"); [| lia].
  rewrite level_push. destruct (f_level f) eqn:E; simpl; rewrite ?E; simpl; lia.
Qed.

Lemma checkName_rank n nn f : rank (f_level f) <= rank (f_level (checkName n nn f)).
Proof.
  unfold checkName. destruct (firstKeyword nn); [| lia].
  pose proof (rank_lowToMedium (push (nameKeywordWarning n s) f)) as [H _].
  now rewrite level_push in H.
Qed.

Lemma checkId_rank i ni f : rank (f_level f) <= rank (f_level (checkId i ni f)).
Proof.
  unfold checkId. destruct (firstKeyword ni); [| lia].
  pose proof (rank_lowToMedium (push (idKeywordWarning i s) f)) as [H _].
  now rewrite level_push in H.
Qed.

Lemma checkPlaceholder_level np f : f_level (checkPlaceholder np f) = f_level f.
Proof. unfold checkPlaceholder. now destruct (firstKeyword np). Qed.

Lemma checkLabel_level nl f : f_level (checkLabel nl f) = f_level f.
Proof. unfold checkLabel. now destruct (firstKeyword nl). Qed.

Lemma checkFormHistory_rank nn nac f :
  rank (f_level f) <= rank (f_level (checkFormHistory nn nac f)).
Proof.
  unfold checkFormHistory. destruct (formHistoryApplies nn nac); [| lia].
  pose proof (rank_lowToMedium (push formHistoryWarning f)) as [H _].
  now rewrite level_push in H.
Qed.

Lemma checkFormHistory_In nn nac f r :
  In r (f_risks f) -> In r (f_risks (checkFormHistory nn nac f)).
Proof.
  unfold checkFormHistory. destruct (formHistoryApplies nn nac); [| tauto].
  rewrite risks_lowToMedium, risks_push. intros H. apply in_or_app. now left.
Qed.

(** The findings after the rules on autocomplete, type, name, id,
    placeholder and label, before the form-history rule. *)
Definition beforeFormHistory (ty n i ac p l : string) : Findings :=
  checkLabel (toLowerCase l)
    (checkPlaceholder (toLowerCase p)
       (checkId i (toLowerCase i)
          (checkName n (toLowerCase n)
             (checkType ty (toLowerCase ty)
                (checkAutocomplete ac (toLowerCase ac)
                   {| f_risks := []; f_level := Low |}))))).

Lemma analyzeStrings_verdict t ty n i ac p l v :
  analyzeStrings t ty n i ac p l = Some v ->
  riskLevel v =
    f_level (checkFormHistory (toLowerCase n) (toLowerCase ac) (beforeFormHistory ty n i ac p l))
  /\ risks v =
    f_risks (checkFormHistory (toLowerCase n) (toLowerCase ac) (beforeFormHistory ty n i ac p l)).
Proof.
  unfold analyzeStrings.
  destruct (arrayIncludes SKIP_INPUT_TYPES (toLowerCase ty)); [discriminate |].
  destruct (String.eqb (toLowerCase t) "select"); [discriminate |].
  intros E. injection E as <-. split; reflexivity.
Qed.

(** The risks pushed before the form-history rule: none of them is the
    form-history warning, and the missing-autocomplete warning is among
    them only when the autocomplete value is empty. *)
Definition earlyRisk (nac : string) (r : Risk) : Prop :=
  r <> formHistoryWarning /\ (r = missingAutocompleteWarning -> truthy nac = false).

Ltac distinct_risks :=
  split; [ intros E; inversion E | intros E; try (inversion E; fail); try assumption ].

Lemma beforeFormHistory_early ty n i ac p l :
  Forall (earlyRisk (toLowerCase ac)) (f_risks (beforeFormHistory ty n i ac p l)).
Proof.
  unfold beforeFormHistory.
  eapply pushesOnly_Forall; [apply checkLabel_pushes | |].
  { intros r [k ->]. distinct_risks. }
  eapply pushesOnly_Forall; [apply checkPlaceholder_pushes | |].
  { intros r [k ->]. distinct_risks. }
  eapply pushesOnly_Forall; [apply checkId_pushes | |].
  { intros r [k ->]. distinct_risks. }
  eapply pushesOnly_Forall; [apply checkName_pushes | |].
  { intros r [k ->]. distinct_risks. }
  eapply pushesOnly_Forall; [apply checkType_pushes | |].
  { intros r [-> | ->]; distinct_risks. }
  eapply pushesOnly_Forall; [apply checkAutocomplete_pushes | |].
  { intros r [[-> T] | [-> | ->]]; distinct_risks. }
  constructor.
Qed.

Lemma beforeFormHistory_type_high ty n i ac p l :
  In (toLowerCase ty) AUTOFILL_INPUT_TYPES ->
  f_level (beforeFormHistory ty n i ac p l) = High
  /\ In (inputTypeError ty) (f_risks (beforeFormHistory ty n i ac p l)).
Proof.
  intros H. apply arrayIncludes_In in H. unfold beforeFormHistory.
  set (f0 := checkAutocomplete ac (toLowerCase ac) _).
  assert (H1 : f_level (checkType ty (toLowerCase ty) f0) = High
               /\ In (inputTypeError ty) (f_risks (checkType ty (toLowerCase ty) f0))).
  { unfold checkType. rewrite H. split; [reflexivity |].
    rewrite risks_setLevel, risks_push. apply in_or_app. right. now left. }
  destruct H1 as [L I]. split.
  - rewrite checkLabel_level, checkPlaceholder_level.
    pose proof (checkId_rank i (toLowerCase i)
                  (checkName n (toLowerCase n) (checkType ty (toLowerCase ty) f0))) as R1.
    pose proof (checkName_rank n (toLowerCase n) (checkType ty (toLowerCase ty) f0)) as R2.
    rewrite L in R2. simpl in R2.
    destruct (f_level (checkId i (toLowerCase i) _)); simpl in *; try reflexivity; lia.
  - eapply pushesOnly_In; [apply checkLabel_pushes |].
    eapply pushesOnly_In; [apply checkPlaceholder_pushes |].
    eapply pushesOnly_In; [apply checkId_pushes |].
    eapply pushesOnly_In; [apply checkName_pushes |].
    exact I.
Qed.

(** Claim C1, amended: for every attribute combination whose lower-cased
    type is email, tel or url and whose lower-cased tag name is not select,
    [analyzeFieldAttributes] returns a verdict whose risk level is high and
    whose risks contain the error finding for the input type. *)
Theorem autofill_input_type_is_high (a : FieldAttributes) :
  In (toLowerCase (valueOr "text" (type a))) ["email"; "tel"; "url"] ->
  toLowerCase (valueOr EmptyString (tagName a)) <> "select" ->
  exists v,
    analyzeFieldAttributes (attrsOf a) = Return (Some v)
    /\ riskLevel v = High
    /\ In (inputTypeError (valueOr "text" (type a))) (risks v)
    /\ r_type (inputTypeError (valueOr "text" (type a))) = Error.
Proof.
  intros Hty Htag. rewrite analyze_attrsOf.
  set (ty := valueOr "text" (type a)) in *.
  set (t := valueOr EmptyString (tagName a)) in *.
  set (n := valueOr EmptyString (name a)).
  set (i := valueOr EmptyString (id a)).
  set (ac := valueOr EmptyString (autocomplete a)).
  set (p := valueOr EmptyString (placeholder a)).
  set (l := valueOr EmptyString (labelText a)).
  assert (Hskip : arrayIncludes SKIP_INPUT_TYPES (toLowerCase ty) = false).
  { destruct Hty as [<- | [<- | [<- | []]]]; reflexivity. }
  assert (Hsel : String.eqb (toLowerCase t) "select" = false)
    by now apply String.eqb_neq.
  destruct (analyzeStrings t ty n i ac p l) as [v|] eqn:E.
  2: { unfold analyzeStrings in E. rewrite Hskip, Hsel in E. discriminate. }
  exists v. split; [reflexivity |].
  destruct (analyzeStrings_verdict _ _ _ _ _ _ _ _ E) as [EL ER].
  destruct (beforeFormHistory_type_high ty n i ac p l Hty) as [L I].
  split; [| split; [| reflexivity]].
  - rewrite EL.
    pose proof (checkFormHistory_rank (toLowerCase n) (toLowerCase ac)
                  (beforeFormHistory ty n i ac p l)) as R.
    rewrite L in R. simpl in R.
    destruct (f_level (checkFormHistory _ _ _)); simpl in *; try reflexivity; lia.
  - rewrite ER. now apply checkFormHistory_In.
Qed.

Lemma autofill_input_type_is_high_witness :
  exists v,
    analyzeFieldAttributes (attrsOf emailInput) = Return (Some v)
    /\ riskLevel v = High
    /\ In (inputTypeError "email") (risks v)
    /\ r_type (inputTypeError "email") = Error.
Proof.
  apply (autofill_input_type_is_high emailInput).
  - simpl. left. reflexivity.
  - vm_compute. discriminate.
Defined.

(** Claim C1 as stated fails: a select element whose type attribute is
    email is skipped, so no verdict (and no high level) is returned. *)
Lemma select_with_email_type_is_skipped :
  In (toLowerCase (valueOr "text" (type emailSelect))) ["email"; "tel"; "url"]
  /\ analyzeFieldAttributes (attrsOf emailSelect) = Return None.
Proof. split; [left; reflexivity | reflexivity]. Qed.

(** Claim C2, amended: the call returns null exactly when the lower-cased
    type is one of hidden, submit, button, reset, image, file, checkbox,
    radio, or the lower-cased tag name is select; for every other
    combination (other tag names included) it returns a verdict. *)
Theorem null_exactly_when_skipped (a : FieldAttributes) :
  exists r,
    analyzeFieldAttributes (attrsOf a) = Return r
    /\ (r = None <->
         In (toLowerCase (valueOr "text" (type a)))
            ["hidden"; "submit"; "button"; "reset"; "image"; "file"; "checkbox"; "radio"]
         \/ toLowerCase (valueOr EmptyString (tagName a)) = "select").
Proof.
  rewrite analyze_attrsOf. eexists. split; [reflexivity |].
  unfold analyzeStrings.
  destruct (arrayIncludes SKIP_INPUT_TYPES _) eqn:S.
  - apply arrayIncludes_In in S. split; [intros _; now left | reflexivity].
  - apply arrayIncludes_not_In in S.
    destruct (String.eqb _ "select") eqn:T.
    + apply String.eqb_eq in T. split; [intros _; now right | reflexivity].
    + apply String.eqb_neq in T. split; [discriminate |].
      intros [H | H]; [now apply S in H | now apply T in H].
Qed.

(** Claim C2 as stated fails: a div is neither an input nor a textarea,
    yet the call returns a verdict for it. *)
Lemma div_element_gets_verdict :
  ~ In (toLowerCase (valueOr EmptyString (tagName divElement))) ["input"; "textarea"]
  /\ analyzeFieldAttributes (attrsOf divElement) =
     Return (Some {| riskLevel := Medium;
                     risks := [missingAutocompleteWarning];
                     attributes := {| at_tagName := "div"; at_type := "text";
                                      at_name := EmptyString; at_id := EmptyString;
                                      at_autocomplete := EmptyString;
                                      at_placeholder := EmptyString |} |}).
Proof.
  split; [| reflexivity].
  intros [H | [H | []]]; vm_compute in H; discriminate.
Qed.

(** Claim C5: the form-history warning is pushed, once and last, exactly
    when the name is non-empty, the autocomplete value is non-empty and its
    lower-cased form is not in the safe set; it then raises the level to at
    least medium; and no verdict holds both that warning and the
    missing-autocomplete warning of the first rule. *)
Theorem form_history_rule (a : FieldAttributes) (v : Verdict) :
  analyzeFieldAttributes (attrsOf a) = Return (Some v) ->
  let name := valueOr EmptyString (name a) in
  let autocomplete := valueOr EmptyString (autocomplete a) in
  let applies :=
    name <> EmptyString /\ autocomplete <> EmptyString
    /\ ~ In (toLowerCase autocomplete) SAFE_AUTOCOMPLETE_VALUES in
  (exists earlier,
      ~ In formHistoryWarning earlier
      /\ (applies -> risks v = earlier ++ [formHistoryWarning]
                     /\ rank Medium <= rank (riskLevel v))
      /\ (~ applies -> risks v = earlier))
  /\ ~ (In missingAutocompleteWarning (risks v) /\ In formHistoryWarning (risks v)).
Proof.
  rewrite analyze_attrsOf. intros E. injection E as E.
  apply analyzeStrings_verdict in E. destruct E as [EL ER].
  set (ty := valueOr "text" (type a)) in *.
  set (i := valueOr EmptyString (id a)) in *.
  set (p := valueOr EmptyString (placeholder a)) in *.
  set (l := valueOr EmptyString (labelText a)) in *.
  intros n ac applies.
  fold n ac in EL, ER.
  pose proof (beforeFormHistory_early ty n i ac p l) as Early.
  set (f := beforeFormHistory ty n i ac p l) in *.
  assert (NoFH : ~ In formHistoryWarning (f_risks f)).
  { intros H. rewrite List.Forall_forall in Early. now destruct (Early _ H). }
  assert (Guard : formHistoryApplies (toLowerCase n) (toLowerCase ac) = true <-> applies).
  { unfold formHistoryApplies, applies.
    rewrite !andb_true_iff, negb_true_iff, !truthy_toLowerCase, !truthy_true,
      arrayIncludes_not_In. tauto. }
  unfold checkFormHistory in EL, ER.
  destruct (formHistoryApplies (toLowerCase n) (toLowerCase ac)) eqn:G.
  - assert (A : applies) by now apply Guard.
    rewrite risks_lowToMedium, risks_push in ER. split.
    + exists (f_risks f). split; [exact NoFH |]. split; [| tauto].
      intros _. split; [exact ER |]. rewrite EL.
      apply (rank_lowToMedium (push formHistoryWarning f)).
    + intros [M _]. rewrite ER in M. apply in_app_or in M.
      destruct M as [M | [M | []]]; [| discriminate M].
      rewrite List.Forall_forall in Early. destruct (Early _ M) as [_ T].
      specialize (T eq_refl). rewrite truthy_toLowerCase in T.
      destruct A as (_ & A & _). apply truthy_true in A. congruence.
  - assert (A : ~ applies) by (intros A; apply Guard in A; discriminate).
    split.
    + exists (f_risks f). split; [exact NoFH |]. split; [tauto | intros _; exact ER].
    + intros [_ M]. rewrite ER in M. now apply NoFH.
Qed.

Lemma form_history_rule_witness :
  (exists earlier,
      ~ In formHistoryWarning earlier
      /\ (("someRandomField" <> EmptyString /\ "on" <> EmptyString
           /\ ~ In (toLowerCase "on") SAFE_AUTOCOMPLETE_VALUES) ->
          [triggerAutocompleteError "on"; formHistoryWarning]
          = earlier ++ [formHistoryWarning]
          /\ rank Medium <= rank High)
      /\ (~ ("someRandomField" <> EmptyString /\ "on" <> EmptyString
             /\ ~ In (toLowerCase "on") SAFE_AUTOCOMPLETE_VALUES) ->
          [triggerAutocompleteError "on"; formHistoryWarning] = earlier))
  /\ ~ (In missingAutocompleteWarning [triggerAutocompleteError "on"; formHistoryWarning]
        /\ In formHistoryWarning [triggerAutocompleteError "on"; formHistoryWarning]).
Proof.
  apply (form_history_rule namedAutocompleteOn
           {| riskLevel := High;
              risks := [triggerAutocompleteError "on"; formHistoryWarning];
              attributes := {| at_tagName := "input"; at_type := "text";
                               at_name := "someRandomField"; at_id := EmptyString;
                               at_autocomplete := "on";
                               at_placeholder := EmptyString |} |}).
  reflexivity.
Defined.

(** Claim C9, amended: for every argument whose seven attributes are each
    absent or a string, [analyzeFieldAttributes] returns without throwing,
    and an absent attribute behaves exactly as its default (tag name,
    name, id, autocomplete, placeholder and label text as the empty
    string, type as text).  Being a function of the embedding, the result
    depends on the argument only. *)
Theorem analyze_total_with_defaults (a : FieldAttributes) :
  exists r,
    analyzeFieldAttributes (attrsOf a) = Return r
    /\ analyzeFieldAttributes (attrsOf (withDefaults a)) = Return r.
Proof. rewrite !analyze_attrsOf. eexists. split; reflexivity. Qed.

(** Claim C9 as stated fails: the call throws a TypeError when the
    argument is null or undefined, and when an attribute is null. *)
Lemma analyze_throws_on_null :
  analyzeFieldAttributes ArgNull = Throw TypeError
  /\ analyzeFieldAttributes ArgUndefined = Throw TypeError
  /\ analyzeFieldAttributes nullType = Throw TypeError.
Proof. repeat split; reflexivity. Qed.

End AnalysisFacts.

(** ** Properties of the list of recently used payloads *)

Module RecentFacts.
Import Recent.

Lemma sameEntry_key c i r : sameEntry c i r = true <-> key r = (c, i).
Proof.
  unfold sameEntry, key. rewrite andb_true_iff, String.eqb_eq, Z.eqb_eq.
  split; [intros [-> ->]; reflexivity | intros E; now inversion E].
Qed.

Lemma keys_filter (p : Payload -> bool) xs :
  List.NoDup (map key xs) -> List.NoDup (map key (List.filter p xs)).
Proof.
  induction xs as [|x xs IH]; simpl; intros H; [constructor |].
  inversion H as [|? ? Hx Hxs]; subst.
  destruct (p x); simpl; [| now apply IH].
  constructor; [| now apply IH].
  intros I. apply Hx. apply in_map_iff in I. destruct I as (y & E & I).
  apply filter_In in I. apply in_map_iff. exists y. tauto.
Qed.

Lemma key_removed c i xs :
  ~ In (c, i) (map key (List.filter (fun r => negb (sameEntry c i r)) xs)).
Proof.
  intros I. apply in_map_iff in I. destruct I as (y & E & I).
  apply filter_In in I. destruct I as [_ I].
  apply sameEntry_key in E. rewrite E in I. discriminate.
Qed.

Lemma keys_firstn n (xs : list Payload) :
  List.NoDup (map key xs) -> List.NoDup (map key (firstn n xs)).
Proof.
  intros H. rewrite <- (firstn_skipn n xs), map_app in H.
  now apply List.NoDup_app_remove_r in H.
Qed.

(** Claim C10: for a list without two entries of equal (category, index),
    [addToRecentList] returns a list of at most [MAX_RECENT] = 5 entries
    whose first entry is the new one and which again has no two entries of
    equal (category, index); the returned array is a new object and the
    array passed in still holds the same entries. *)
Theorem addToRecentList_spec (s : Store) (recentPayloads : Ref)
    (entries : list Payload) (category : string) (index : Z) (value : string) :
  s !! recentPayloads = Some entries ->
  List.NoDup (map key entries) ->
  exists result s' entries',
    addToRecentList recentPayloads category index value s = Some (result, s')
    /\ s' !! result = Some entries'
    /\ length entries' <= 5
    /\ head entries' = Some {| category := category; index := index; value := value |}
    /\ List.NoDup (map key entries')
    /\ result <> recentPayloads
    /\ s' !! recentPayloads = Some entries.
Proof.
  intros Hs Hnd.
  set (new := {| category := category; index := index; value := value |}).
  set (kept := List.filter (fun r => negb (sameEntry category index r)) entries).
  set (r1 := fresh (dom s)).
  assert (Hr1 : r1 <> recentPayloads).
  { intros E. pose proof (is_fresh (dom s)) as F. fold r1 in F. rewrite E in F.
    apply F. apply elem_of_dom. now exists entries. }
  assert (Hall : List.NoDup (map key (new :: kept))).
  { simpl. constructor; [apply key_removed | now apply keys_filter]. }
  set (s1 := <[r1 := new :: kept]> (<[r1 := kept]> s)).
  assert (Hs1 : s1 !! recentPayloads = Some entries).
  { unfold s1. now rewrite !lookup_insert_ne. }
  assert (Hs1r : s1 !! r1 = Some (new :: kept)).
  { unfold s1. now rewrite lookup_insert_eq. }
  unfold addToRecentList, arrayFilter, arrayUnshift, arrayLength,
    arraySliceFromStart, bind, read, newArray, ret.
  rewrite Hs. cbv beta iota zeta. fold kept. change (fresh (dom s)) with r1.
  rewrite lookup_insert_eq. fold new. fold s1. rewrite Hs1r.
  destruct (MAX_RECENT <? length (new :: kept))%nat eqn:L.
  - rewrite Hs1r.
    set (r2 := fresh (dom s1)).
    assert (Hr2 : r2 <> recentPayloads).
    { intros E. pose proof (is_fresh (dom s1)) as F. fold r2 in F. rewrite E in F.
      apply F. apply elem_of_dom. now exists entries. }
    exists r2, (<[r2 := firstn MAX_RECENT (new :: kept)]> s1),
      (firstn MAX_RECENT (new :: kept)).
    split; [reflexivity |]. split; [apply lookup_insert_eq |].
    split; [rewrite length_firstn; unfold MAX_RECENT; lia |].
    split; [reflexivity |].
    split; [now apply keys_firstn |].
    split; [exact Hr2 |].
    now rewrite lookup_insert_ne.
  - apply Nat.ltb_ge in L.
    exists r1, s1, (new :: kept).
    split; [reflexivity |]. split; [exact Hs1r |].
    split; [exact L |]. split; [reflexivity |].
    split; [exact Hall |]. split; [exact Hr1 | exact Hs1].
Qed.

Lemma addToRecentList_spec_witness :
  exists result s' entries',
    addToRecentList 0 "xss" 3%Z "again" sampleStore = Some (result, s')
    /\ s' !! result = Some entries'
    /\ length entries' <= 5
    /\ head entries' = Some {| category := "xss"; index := 3%Z; value := "again" |}
    /\ List.NoDup (map key entries')
    /\ result <> 0
    /\ s' !! 0 = Some sampleEntries.
Proof.
  apply (addToRecentList_spec sampleStore 0 sampleEntries "xss" 3%Z "again").
  - reflexivity.
  - repeat constructor; simpl; intuition discriminate.
Defined.

End RecentFacts.

(** ** Properties of payload injection *)

Module InjectFacts.
Import Js Analysis Inject.

(** The focused element is of an injectable kind: content-editable, a
    textarea, or an input whose type accepts text. *)
Definition injectableKind (e : Element) : Prop :=
  isContentEditable e = true
  \/ toUpperCase (tagName e) = "TEXTAREA"
  \/ (toUpperCase (tagName e) = "INPUT"
      /\ In (toLowerCase (orElse (typeAttribute e) "text"))
            ["text"; "email"; "password"; "search"; "tel"; "url"; "number"]).

(** The element may be written to. *)
Definition writable (p : Page) : Prop :=
  exists e, activeElement p = Some e /\ injectableKind e
            /\ disabled e = false /\ readOnly e = false.

Lemma orElse_tagName s : toUpperCase (orElse (Some s) EmptyString) = toUpperCase s.
Proof. now destruct s. Qed.

Lemma isInjectable_kind e : isInjectable (Some e) = true <-> injectableKind e.
Proof.
  unfold isInjectable, isInjectableElement, injectableKind.
  cbn [i_isContentEditable i_tagName i_type]. rewrite orElse_tagName.
  destruct (isContentEditable e); [split; auto |].
  destruct (String.eqb (toUpperCase (tagName e)) "TEXTAREA") eqn:T.
  { apply String.eqb_eq in T. split; auto. }
  apply String.eqb_neq in T.
  destruct (String.eqb (toUpperCase (tagName e)) "INPUT") eqn:I.
  - apply String.eqb_eq in I.
    rewrite AnalysisFacts.arrayIncludes_In. unfold INJECTABLE_INPUT_TYPES.
    split; [auto | intros [H | [H | [_ H]]]; [discriminate | contradiction | exact H]].
  - apply String.eqb_neq in I.
    split; [discriminate | intros [H | [H | [H _]]]; [discriminate | contradiction | contradiction]].
Qed.

Lemma writable_dec p :
  writable p <->
  isInjectable (activeElement p) = true
  /\ exists e, activeElement p = Some e /\ (disabled e || readOnly e) = false.
Proof.
  unfold writable. split.
  - intros (e & E & K & D & R). rewrite E. split; [now apply isInjectable_kind |].
    exists e. rewrite D, R. auto.
  - intros (I & e & E & DR). rewrite E in I. apply isInjectable_kind in I.
    apply orb_false_iff in DR. exists e. tauto.
Qed.

Lemma inject_refused assign p :
  ~ writable p ->
  activeElement (inject assign p) = activeElement p
  /\ exists note error,
       effects (inject assign p) =
       effects p ++ [Notification note true; SendResponse (failure error)].
Proof.
  intros NW. unfold inject.
  destruct (isInjectable (activeElement p)) eqn:I; cbn [negb].
  - destruct (activeElement p) as [e|] eqn:E; [| discriminate].
    destruct (disabled e || readOnly e) eqn:DR.
    + split; [exact E |]. eexists _, _. cbn. rewrite <- app_assoc. reflexivity.
    + exfalso. apply NW, writable_dec. rewrite E. split; [exact I |]. now exists e.
  - split; [reflexivity |]. eexists _, _. cbn. rewrite <- app_assoc. reflexivity.
Qed.

Lemma inject_done assign p e :
  activeElement p = Some e -> writable p ->
  exists e',
    activeElement (inject assign p) = Some e'
    /\ editableText e' = assigned e (assign (editableText e))
    /\ effects (inject assign p) =
       effects p ++ [DispatchEvent "input"; DispatchEvent "change"; SendResponse success].
Proof.
  intros E W. apply writable_dec in W. destruct W as (I & e0 & E0 & DR).
  rewrite E in E0. injection E0 as <-.
  unfold inject. rewrite I. cbn [negb]. rewrite E, DR.
  unfold editableText, assigned.
  destruct (isContentEditable e) eqn:C; cbn; rewrite E; cbn;
    eexists; (split; [reflexivity |]); cbn; rewrite C;
    (split; [reflexivity |]); rewrite <- !app_assoc; reflexivity.
Qed.

(** Claim C8, amended: for the replace-value and append-value commands,
    if no element is focused, or the focused element is not of an
    injectable kind, or it is disabled or read-only, the listener leaves the
    element as it is and answers with a failure (after an error
    notification); otherwise it assigns the payload (or the text of the
    element followed by the payload) to the element, whose text is then
    what the DOM keeps of the assigned string (the string itself for a
    content-editable element, its value sanitization for any other), the
    events input and change are dispatched and then the listener answers
    with success. *)
Theorem injection_validates_before_writing (p : Page) (payload : string) :
  (~ writable p ->
     forall message, message = fillField payload \/ message = appendField payload ->
     activeElement (onMessage message p) = activeElement p
     /\ exists note error,
          effects (onMessage message p) =
          effects p ++ [Notification note true; SendResponse (failure error)])
  /\ (writable p ->
      exists e filled appended,
        activeElement p = Some e
        /\ activeElement (onMessage (fillField payload) p) = Some filled
        /\ editableText filled = assigned e payload
        /\ activeElement (onMessage (appendField payload) p) = Some appended
        /\ editableText appended = assigned e (editableText e +:+ payload)
        /\ (isContentEditable e = true ->
            editableText filled = payload
            /\ editableText appended = editableText e +:+ payload)
        /\ forall message, message = fillField payload \/ message = appendField payload ->
           effects (onMessage message p) =
           effects p ++ [DispatchEvent "input"; DispatchEvent "change"; SendResponse success]).
Proof.
  split.
  - intros NW message [-> | ->]; cbn [onMessage]; now apply inject_refused.
  - intros W. destruct (W) as (e & E & _).
    destruct (inject_done (fun _ => payload) p e E W) as (f & Ef & Tf & Xf).
    destruct (inject_done (fun old => old +:+ payload) p e E W) as (a & Ea & Ta & Xa).
    exists e, f, a. split; [exact E |]. split; [exact Ef |]. split; [exact Tf |].
    split; [exact Ea |]. split; [exact Ta |]. split.
    + intros C. rewrite Tf, Ta. unfold assigned. rewrite C. split; reflexivity.
    + intros message [-> | ->]; assumption.
Qed.

(** Claim C8 as stated fails for a payload that the element does not
    keep as it is: a text input that is focused and writable, filled with a
    payload of two lines, holds the two lines joined, and the listener
    answers with success all the same; appended to the value, the payload
    loses its line feed as well. *)
Lemma line_break_is_not_injected :
  writable focusedTextInput
  /\ (exists filled,
        activeElement (onMessage (fillField twoLines) focusedTextInput) = Some filled
        /\ editableText filled = "ab"
        /\ editableText filled <> twoLines)
  /\ (exists appended,
        activeElement (onMessage (appendField twoLines) focusedTextInput) = Some appended
        /\ editableText appended = "abcab"
        /\ editableText appended <> editableText textInput +:+ twoLines)
  /\ effects (onMessage (fillField twoLines) focusedTextInput)
     = [DispatchEvent "input"; DispatchEvent "change"; SendResponse success].
Proof.
  split.
  { exists textInput. split; [reflexivity |].
    split; [right; right; split; [reflexivity | simpl; tauto] |].
    split; reflexivity. }
  split; [eexists; split; [reflexivity |]; split; [reflexivity | discriminate] |].
  split; [eexists; split; [reflexivity |]; split; [reflexivity | discriminate] |].
  reflexivity.
Qed.

End InjectFacts.

(** ** Properties of the DOM operations *)

Module DomFacts.
Import Dom.

(** Induction over a tree, with the property known of all children. *)
Lemma Node_tree_ind (P : Node -> Prop) :
  (forall i d, P (Text i d)) ->
  (forall i t cl ti cs, Forall P cs -> P (Element i t cl ti cs)) ->
  forall n, P n.
Proof.
  intros HT HE. fix IH 1. intros [i d | i t cl ti cs]; [apply HT | apply HE].
  induction cs as [| c cs IHcs]; constructor; [apply IH | exact IHcs].
Qed.

(** The identities of the elements of class [cls] in a subtree. *)
Definition classIds (cls : string) (n : Node) : list nat :=
  map nodeId (List.filter (hasClass cls) (elements n)).

Lemma querySelectorAll_app cls l1 l2 :
  querySelectorAll cls (l1 ++ l2) = querySelectorAll cls l1 ++ querySelectorAll cls l2.
Proof. unfold querySelectorAll. now rewrite flat_map_app, List.filter_app. Qed.

Lemma querySelectorAll_ids cls nodes :
  map nodeId (querySelectorAll cls nodes) = flat_map (classIds cls) nodes.
Proof.
  induction nodes as [| n r IH]; [reflexivity |].
  change (n :: r) with ([n] ++ r). rewrite querySelectorAll_app, map_app, IH.
  simpl. unfold querySelectorAll, classIds. simpl. now rewrite !app_nil_r.
Qed.

Lemma classIds_Element cls i t cl ti cs :
  classIds cls (Element i t cl ti cs) =
  (if existsb (String.eqb cls) cl then [i] else []) ++ flat_map (classIds cls) cs.
Proof.
  rewrite <- querySelectorAll_ids. unfold classIds, querySelectorAll. simpl.
  now destruct (existsb (String.eqb cls) cl).
Qed.

Lemma flat_map_sublist {A B} (f g : A -> list B) (l : list A) :
  Forall (fun a => f a `sublist_of` g a) l ->
  flat_map f l `sublist_of` flat_map g l.
Proof.
  induction 1 as [| a l Ha _ IH]; simpl; [constructor | now apply sublist_app].
Qed.

Lemma flat_map_flat_map {A B C} (f : A -> list B) (g : B -> list C) (l : list A) :
  flat_map g (flat_map f l) = flat_map (fun a => flat_map g (f a)) l.
Proof.
  induction l as [| a l IH]; simpl; [reflexivity |].
  now rewrite flat_map_app, IH.
Qed.

(** Removing an element removes identities, it adds none. *)
Lemma removeFrom_classIds cls el n :
  flat_map (classIds cls) (removeFrom el n) `sublist_of` classIds cls n.
Proof.
  induction n as [i d | i t cl ti cs IH] using Node_tree_ind; simpl.
  - reflexivity.
  - destruct (i =? el)%nat; simpl; [apply sublist_nil_l |].
    rewrite app_nil_r, !classIds_Element. apply sublist_app; [reflexivity |].
    rewrite flat_map_flat_map. now apply flat_map_sublist.
Qed.

Lemma remove_classIds cls el nodes :
  flat_map (classIds cls) (remove el nodes) `sublist_of` flat_map (classIds cls) nodes.
Proof.
  unfold remove. rewrite flat_map_flat_map. apply flat_map_sublist.
  apply List.Forall_forall. intros n _. apply removeFrom_classIds.
Qed.

Lemma in_flat_map_Forall {A B} (P : A -> Prop) (f : A -> list B) (Q : B -> Prop) l :
  Forall P l -> (forall a, P a -> forall b, In b (f a) -> Q b) ->
  forall b, In b (flat_map f l) -> Q b.
Proof.
  intros HP H b Hb. apply in_flat_map in Hb. destruct Hb as (a & Ha & Hb).
  rewrite List.Forall_forall in HP. eauto.
Qed.

Lemma classIds_nodeIds cls n x : In x (classIds cls n) -> In x (nodeIds n).
Proof.
  revert x. induction n as [i d | i t cl ti cs IH] using Node_tree_ind; intros x.
  - intros [].
  - rewrite classIds_Element. simpl. intros H. apply in_app_or in H.
    destruct H as [H | H].
    + destruct (existsb _ cl); [destruct H as [<- | []]; now left | destruct H].
    + right. apply in_flat_map in H. destruct H as (c & Hc & H).
      apply in_flat_map. exists c. split; [exact Hc |].
      rewrite List.Forall_forall in IH. now apply IH.
Qed.

(** The removed element is gone. *)
Lemma removeFrom_classIds_ne cls el n x :
  In x (flat_map (classIds cls) (removeFrom el n)) -> x <> el.
Proof.
  revert x. induction n as [i d | i t cl ti cs IH] using Node_tree_ind; intros x.
  - intros [].
  - cbn [removeFrom]. destruct (i =? el)%nat eqn:E; [intros [] |].
    apply Nat.eqb_neq in E. cbn [flat_map]. rewrite app_nil_r, classIds_Element.
    intros H. apply in_app_or in H. destruct H as [H | H].
    + destruct (existsb _ cl); [destruct H as [<- | []]; exact E | destruct H].
    + rewrite flat_map_flat_map in H. revert x H.
      apply (in_flat_map_Forall _ _ _ _ IH). auto.
Qed.

Lemma remove_classIds_ne cls el nodes x :
  In x (flat_map (classIds cls) (remove el nodes)) -> x <> el.
Proof.
  unfold remove. rewrite flat_map_flat_map. intros H.
  apply in_flat_map in H. destruct H as (n & _ & H).
  now apply removeFrom_classIds_ne in H.
Qed.

Lemma removeFrom_nodeIds el n x :
  In x (flat_map nodeIds (removeFrom el n)) -> In x (nodeIds n).
Proof.
  revert x. induction n as [i d | i t cl ti cs IH] using Node_tree_ind; intros x.
  - cbn. tauto.
  - cbn [removeFrom]. destruct (i =? el)%nat; [intros [] |].
    cbn [flat_map nodeIds]. rewrite app_nil_r. intros [H | H]; [now left | right].
    rewrite flat_map_flat_map in H. apply in_flat_map in H.
    destruct H as (c & Hc & H). apply in_flat_map. exists c. split; [exact Hc |].
    rewrite List.Forall_forall in IH. now apply IH.
Qed.

Lemma remove_nodeIds el nodes x :
  In x (flat_map nodeIds (remove el nodes)) -> In x (flat_map nodeIds nodes).
Proof.
  unfold remove. rewrite flat_map_flat_map. intros H.
  apply in_flat_map in H. destruct H as (n & Hn & H).
  apply in_flat_map. exists n. split; [exact Hn | now apply removeFrom_nodeIds in H].
Qed.

Lemma flat_map_singletons {A} (f : A -> list A) (l : list A) :
  Forall (fun a => f a = [a]) l -> flat_map f l = l.
Proof. induction 1 as [| a l Ha _ IH]; simpl; [reflexivity | now rewrite Ha, IH]. Qed.

(** Removing an element that is not there changes nothing. *)
Lemma removeFrom_absent el n : ~ In el (nodeIds n) -> removeFrom el n = [n].
Proof.
  induction n as [i d | i t cl ti cs IH] using Node_tree_ind; intros H.
  - reflexivity.
  - cbn [removeFrom]. cbn [nodeIds] in H.
    destruct (i =? el)%nat eqn:E.
    + apply Nat.eqb_eq in E. exfalso. apply H. now left.
    + f_equal. f_equal. apply flat_map_singletons.
      rewrite List.Forall_forall in *. intros c Hc. apply IH; [exact Hc |].
      intros I. apply H. right. apply in_flat_map. now exists c.
Qed.

Lemma remove_absent el nodes :
  ~ In el (flat_map nodeIds nodes) -> remove el nodes = nodes.
Proof.
  intros H. apply flat_map_singletons. apply List.Forall_forall. intros n Hn.
  apply removeFrom_absent. intros I. apply H. apply in_flat_map. now exists n.
Qed.

End DomFacts.

(** ** Properties of the overlays and their statistics *)

Module OverlayFacts.
Import Js Analysis Dom DomFacts Overlay.

(** The number of nodes of a list that satisfy a test. *)
Definition count (p : Node -> bool) (l : list Node) : Z :=
  Z.of_nat (length (List.filter p l)).

Definition isHigh (o : Node) : bool := hasClass "autofill-risk-high" o.
Definition isMedium (o : Node) : bool :=
  negb (hasClass "autofill-risk-high" o) && hasClass "autofill-risk-medium" o.
Definition isLow (o : Node) : bool :=
  negb (hasClass "autofill-risk-high" o) && negb (hasClass "autofill-risk-medium" o)
  && hasClass "autofill-risk-low" o.

(** The recount, as four independent counts over the overlays. *)
Definition recount (overlays : list Node) : Stats :=
  {| high := count isHigh overlays;
     medium := count isMedium overlays;
     low := count isLow overlays;
     total := Z.of_nat (length overlays) |}.

Definition addStats (a b : Stats) : Stats :=
  {| high := high a + high b; medium := medium a + medium b;
     low := low a + low b; total := total a + total b |}.

Lemma stats_eq a b :
  high a = high b -> medium a = medium b -> low a = low b -> total a = total b -> a = b.
Proof. destruct a, b; simpl; intros; subst; reflexivity. Qed.

Lemma fold_countOverlay overlays acc :
  fold_left countOverlay overlays acc = addStats acc (recount overlays).
Proof.
  revert acc. induction overlays as [| o r IH]; intros acc.
  - destruct acc. unfold addStats, recount, count. simpl. f_equal; lia.
  - simpl. rewrite IH. unfold countOverlay, addStats, recount, count, isHigh, isMedium, isLow.
    cbn [List.filter].
    destruct (hasClass "autofill-risk-high" o), (hasClass "autofill-risk-medium" o),
      (hasClass "autofill-risk-low" o);
      cbn [negb andb length high medium low total]; apply stats_eq;
      cbn [high medium low total]; lia.
Qed.

Lemma actualStats_recount nodes :
  actualStats nodes = recount (querySelectorAll "autofill-detector-overlay" nodes).
Proof.
  unfold actualStats. rewrite fold_countOverlay.
  apply stats_eq; simpl; lia.
Qed.

Lemma drifted_false a b : drifted a b = false <-> a = b.
Proof.
  unfold drifted. rewrite !orb_false_iff, !negb_false_iff, !Z.eqb_eq. split.
  - intros [[[H M] L] T]. now apply stats_eq.
  - intros ->. tauto.
Qed.

(** Claim C6: [reconcileStats] counts the overlay elements of the document
    by risk class; afterwards the counters equal that recount; when they
    differed before, exactly one report carrying the recount is sent, and
    when they agreed nothing is sent and the state is as before. *)
Theorem reconcileStats_recounts (st : State) :
  let overlays := querySelectorAll "autofill-detector-overlay" (body st) in
  let st' := reconcileStats st in
  fieldStats st' = recount overlays
  /\ body st' = body st
  /\ (fieldStats st <> recount overlays ->
      sent st' = sent st ++ [updateBadgeMessage (recount overlays)])
  /\ (fieldStats st = recount overlays -> st' = st).
Proof.
  cbv zeta. unfold reconcileStats. rewrite actualStats_recount.
  destruct (drifted (fieldStats st) _) eqn:D.
  - repeat split; try reflexivity. intros E. apply drifted_false in E. congruence.
  - apply drifted_false in D. repeat split; auto. intros N. contradiction.
Qed.

(** The example of the specification: overlays of the classes high,
    medium, medium, low and counters at zero. *)
Example reconcileStats_four_overlays :
  fieldStats (reconcileStats fourOverlays)
  = {| high := 1; medium := 2; low := 1; total := 4 |}
  /\ sent (reconcileStats fourOverlays)
     = [updateBadgeMessage {| high := 1; medium := 2; low := 1; total := 4 |}]
  /\ sent (reconcileStats (reconcileStats fourOverlays))
     = sent (reconcileStats fourOverlays).
Proof. repeat split; reflexivity. Qed.

(** *** One overlay per element *)

Definition overlaysIn (nodes : list Node) : list nat :=
  map nodeId (querySelectorAll "autofill-detector-overlay" nodes).

(** The overlays of the document that the script associates with [e]. *)
Definition overlaysOf (st : State) (e : nat) : list nat :=
  List.filter (fun o => bool_decide (overlayMap st !! e = Some o)) (overlaysIn (body st)).

(** Every overlay element occurs once in the document and is the overlay
    that [overlayMap] holds for exactly one element. *)
Record OverlayIdentity (st : State) : Prop := {
  overlays_distinct : NoDup (overlaysIn (body st));
  overlays_owned :
    forall o, In o (overlaysIn (body st)) ->
      exists e, overlayMap st !! e = Some o
                /\ forall e', overlayMap st !! e' = Some o -> e' = e
}.

(** Identities in use are below [nextId]. *)
Record Fresh (st : State) : Prop := {
  body_fresh : forall i, In i (flat_map nodeIds (body st)) -> i < nextId st;
  map_fresh : forall e o, overlayMap st !! e = Some o -> o < nextId st
}.

Lemma overlaysIn_flat nodes :
  overlaysIn nodes = flat_map (classIds "autofill-detector-overlay") nodes.
Proof. apply querySelectorAll_ids. Qed.

Lemma overlaysIn_app l1 l2 : overlaysIn (l1 ++ l2) = overlaysIn l1 ++ overlaysIn l2.
Proof. unfold overlaysIn. now rewrite querySelectorAll_app, map_app. Qed.

Lemma overlaysIn_nodeIds nodes x :
  In x (overlaysIn nodes) -> In x (flat_map nodeIds nodes).
Proof.
  rewrite overlaysIn_flat. intros H. apply in_flat_map in H.
  destruct H as (n & Hn & H). apply in_flat_map. exists n.
  split; [exact Hn | now apply classIds_nodeIds in H].
Qed.

Lemma filter_none {A} (p : A -> bool) (l : list A) :
  (forall x, In x l -> p x = false) -> List.filter p l = [].
Proof.
  induction l as [| a l IH]; simpl; intros H; [reflexivity |].
  rewrite (H a) by now left. apply IH. intros x Hx. apply H. now right.
Qed.

Lemma at_most_one_overlay st e :
  OverlayIdentity st -> length (overlaysOf st e) <= 1.
Proof.
  intros [ND _]. unfold overlaysOf.
  induction ND as [| o l Ho ND IH]; simpl; [lia |].
  destruct (bool_decide (overlayMap st !! e = Some o)) eqn:B; [| exact IH].
  apply bool_decide_eq_true in B. simpl.
  assert (E : List.filter (fun o0 => bool_decide (overlayMap st !! e = Some o0)) l = []).
  { apply filter_none. intros x Hx.
    apply bool_decide_eq_false. intros E. rewrite B in E. injection E as <-.
    apply Ho. now apply list_elem_of_In. }
  rewrite E. simpl. lia.
Qed.

(** The document once the overlay the element already has is removed. *)
Definition withoutExisting (st : State) (e : nat) : list Node :=
  match overlayMap st !! e with
  | Some existingOverlay => remove existingOverlay (body st)
  | None => body st
  end.

Lemma withoutExisting_sublist st e :
  overlaysIn (withoutExisting st e) `sublist_of` overlaysIn (body st).
Proof.
  unfold withoutExisting. destruct (overlayMap st !! e); [| reflexivity].
  rewrite !overlaysIn_flat. apply remove_classIds.
Qed.

Lemma withoutExisting_not_owned st e x :
  In x (overlaysIn (withoutExisting st e)) -> overlayMap st !! e <> Some x.
Proof.
  unfold withoutExisting. destruct (overlayMap st !! e) as [o|]; [| discriminate].
  rewrite overlaysIn_flat. intros H E. injection E as ->.
  now apply remove_classIds_ne in H.
Qed.

Lemma withoutExisting_nodeIds st e x :
  In x (flat_map nodeIds (withoutExisting st e)) -> In x (flat_map nodeIds (body st)).
Proof.
  unfold withoutExisting. destruct (overlayMap st !! e); [| tauto].
  apply remove_nodeIds.
Qed.

Lemma sublist_In {A} (l1 l2 : list A) x : l1 `sublist_of` l2 -> In x l1 -> In x l2.
Proof.
  intros S H. apply list_elem_of_In. apply list_elem_of_In in H.
  eapply sublist_subseteq; eassumption.
Qed.

Lemma createOverlay_body a st :
  exists badge,
    body (createOverlay a st).2 =
    withoutExisting st (element a)
    ++ [Element (nextId st) "div"
          ["autofill-detector-overlay";
           "autofill-risk-" +:+ levelName (riskLevel (verdict a))]
          EmptyString [badge]]
    /\ overlaysIn [Element (nextId st) "div"
                     ["autofill-detector-overlay";
                      "autofill-risk-" +:+ levelName (riskLevel (verdict a))]
                     EmptyString [badge]] = [nextId st]
    /\ flat_map nodeIds [Element (nextId st) "div"
                     ["autofill-detector-overlay";
                      "autofill-risk-" +:+ levelName (riskLevel (verdict a))]
                     EmptyString [badge]]
       = [nextId st; S (nextId st); S (S (nextId st))].
Proof.
  eexists. split; [reflexivity |].
  split; [now destruct (riskLevel (verdict a)) | reflexivity].
Qed.

Lemma createOverlay_overlaysIn a st :
  overlaysIn (body (createOverlay a st).2)
  = overlaysIn (withoutExisting st (element a)) ++ [nextId st].
Proof.
  destruct (createOverlay_body a st) as (badge & -> & E & _).
  now rewrite overlaysIn_app, E.
Qed.

(** One call of [createOverlay]. *)
Lemma createOverlay_step a st :
  OverlayIdentity st -> Fresh st ->
  (createOverlay a st).1 = nextId st
  /\ OverlayIdentity (createOverlay a st).2
  /\ Fresh (createOverlay a st).2
  /\ overlaysOf (createOverlay a st).2 (element a) = [nextId st].
Proof.
  intros [ND Own] [BF MF]. split; [reflexivity |].
  pose proof (createOverlay_overlaysIn a st) as EO.
  pose proof (withoutExisting_sublist st (element a)) as Sub.
  assert (Old : forall x, In x (overlaysIn (withoutExisting st (element a))) ->
                          x < nextId st).
  { intros x Hx. apply BF, overlaysIn_nodeIds. eapply sublist_In; eassumption. }
  assert (M : overlayMap (createOverlay a st).2
              = <[element a := nextId st]> (overlayMap st)) by reflexivity.
  assert (N : nextId (createOverlay a st).2 = S (S (S (S (nextId st))))) by reflexivity.
  split; [| split].
  - constructor.
    + rewrite EO. apply NoDup_app. split; [eapply sublist_NoDup; eassumption |].
      split; [| apply NoDup_singleton].
      intros x Hx Hn. apply list_elem_of_In in Hx. apply Old in Hx.
      apply list_elem_of_In in Hn. destruct Hn as [<- | []]. lia.
    + intros o Ho. rewrite EO in Ho. rewrite M. apply in_app_or in Ho.
      destruct Ho as [Ho | [<- | []]].
      * destruct (Own o (sublist_In _ _ _ Sub Ho)) as (e0 & E0 & U0).
        assert (Ne : element a <> e0).
        { intros <-. now apply (withoutExisting_not_owned st (element a) o). }
        exists e0. split; [now rewrite lookup_insert_ne |].
        intros e' E'. destruct (decide (element a = e')) as [<- | Ne'].
        -- rewrite lookup_insert_eq in E'. injection E' as <-.
           apply Old in Ho. lia.
        -- rewrite lookup_insert_ne in E' by exact Ne'. now apply U0.
      * exists (element a). split; [apply lookup_insert_eq |].
        intros e' E'. destruct (decide (element a = e')) as [<- | Ne']; [reflexivity |].
        rewrite lookup_insert_ne in E' by exact Ne'. apply MF in E'. lia.
  - constructor.
    + intros i Hi. rewrite N.
      destruct (createOverlay_body a st) as (badge & B & _ & I). rewrite B in Hi.
      rewrite flat_map_app, I in Hi. apply in_app_or in Hi.
      destruct Hi as [Hi | Hi].
      * apply withoutExisting_nodeIds, BF in Hi. lia.
      * simpl in Hi. lia.
    + intros e o. rewrite M, N. intros E.
      destruct (decide (element a = e)) as [<- | Ne].
      * rewrite lookup_insert_eq in E. injection E as <-. lia.
      * rewrite lookup_insert_ne in E by exact Ne. apply MF in E. lia.
  - unfold overlaysOf. rewrite EO, M, List.filter_app.
    rewrite filter_none.
    + simpl. rewrite lookup_insert_eq. now rewrite bool_decide_eq_true_2.
    + intros x Hx. apply bool_decide_eq_false. rewrite lookup_insert_eq.
      intros E. injection E as <-. apply Old in Hx. lia.
Qed.

(** Claim C7: [createOverlay] keeps the invariant that every overlay
    element of the document is the overlay of exactly one element, so no
    element has more than one; after the call the element has exactly one
    overlay, the new one; and a second call for the same element removes
    the first overlay before it attaches the second, so the first is no
    longer in the document and the number of overlay elements does not
    grow. *)
Theorem createOverlay_one_overlay_per_element
    (st : State) (first second : FieldAnalysis) :
  OverlayIdentity st -> Fresh st ->
  element second = element first ->
  let st1 := (createOverlay first st).2 in
  let st2 := (createOverlay second st1).2 in
  OverlayIdentity st1 /\ OverlayIdentity st2
  /\ (forall e, length (overlaysOf st1 e) <= 1)
  /\ (forall e, length (overlaysOf st2 e) <= 1)
  /\ overlaysOf st1 (element first) = [(createOverlay first st).1]
  /\ overlaysOf st2 (element first) = [(createOverlay second st1).1]
  /\ ~ In (createOverlay first st).1 (overlaysIn (body st2))
  /\ length (overlaysIn (body st2)) = length (overlaysIn (body st1)).
Proof.
  intros Inv Fr Same st1 st2.
  destruct (createOverlay_step first st Inv Fr) as (R1 & Inv1 & Fr1 & Of1).
  fold st1 in Inv1, Fr1, Of1.
  destruct (createOverlay_step second st1 Inv1 Fr1) as (R2 & Inv2 & Fr2 & Of2).
  fold st2 in Inv2, Fr2, Of2. rewrite Same in Of2.
  split; [exact Inv1 |]. split; [exact Inv2 |].
  split; [intros e; now apply at_most_one_overlay |].
  split; [intros e; now apply at_most_one_overlay |].
  split; [now rewrite R1 |]. split; [now rewrite R2 |].
  split.
  { rewrite R1. intros I. destruct Inv2 as [_ Own2].
    destruct (Own2 _ I) as (e' & E' & _).
    change (overlayMap st2)
      with (<[element second := nextId st1]>
              (<[element first := nextId st]> (overlayMap st))) in E'.
    change (nextId st1) with (S (S (S (S (nextId st))))) in E'.
    rewrite Same in E'. destruct (decide (element first = e')) as [<- | Ne].
    - rewrite lookup_insert_eq in E'. injection E' as E'. lia.
    - rewrite !lookup_insert_ne in E' by exact Ne.
      destruct Fr as [_ MF]. apply MF in E'. lia. }
  unfold st2. rewrite createOverlay_overlaysIn.
  rewrite (createOverlay_overlaysIn first st : overlaysIn (body st1) = _).
  rewrite !length_app. simpl. f_equal.
  assert (W : withoutExisting st1 (element second)
              = withoutExisting st (element first)).
  { unfold withoutExisting at 1. rewrite Same.
    change (overlayMap st1) with (<[element first := nextId st]> (overlayMap st)).
    rewrite lookup_insert_eq.
    destruct (createOverlay_body first st) as (badge & B & _ & _).
    fold st1 in B. rewrite B. unfold remove. rewrite flat_map_app.
    cbn [flat_map removeFrom]. rewrite Nat.eqb_refl, !app_nil_r.
    apply remove_absent. intros I.
    apply withoutExisting_nodeIds in I. destruct Fr as [BF _].
    apply BF in I. lia. }
  now rewrite W.
Qed.

Lemma emptyState_invariant : OverlayIdentity emptyState /\ Fresh emptyState.
Proof.
  split; constructor.
  - constructor.
  - intros o [].
  - intros i [].
  - intros e o E. cbn [overlayMap emptyState] in E.
    rewrite lookup_empty in E. discriminate.
Qed.

Lemma createOverlay_one_overlay_per_element_witness :
  let st1 := (createOverlay (sampleAnalysis 7 High) emptyState).2 in
  let st2 := (createOverlay (sampleAnalysis 7 Medium) st1).2 in
  OverlayIdentity st1 /\ OverlayIdentity st2
  /\ (forall e, length (overlaysOf st1 e) <= 1)
  /\ (forall e, length (overlaysOf st2 e) <= 1)
  /\ overlaysOf st1 7 = [(createOverlay (sampleAnalysis 7 High) emptyState).1]
  /\ overlaysOf st2 7 = [(createOverlay (sampleAnalysis 7 Medium) st1).1]
  /\ ~ In (createOverlay (sampleAnalysis 7 High) emptyState).1 (overlaysIn (body st2))
  /\ length (overlaysIn (body st2)) = length (overlaysIn (body st1)).
Proof.
  apply (createOverlay_one_overlay_per_element emptyState
           (sampleAnalysis 7 High) (sampleAnalysis 7 Medium)).
  - apply emptyState_invariant.
  - apply emptyState_invariant.
  - reflexivity.
Defined.

(** Creating an overlay twice for the same element of an empty document
    leaves one overlay element in the document. *)
Example createOverlay_twice :
  length (querySelectorAll "autofill-detector-overlay"
            (body (createOverlay (sampleAnalysis 7 High)
                     (createOverlay (sampleAnalysis 7 High) emptyState).2).2)) = 1.
Proof. reflexivity. Qed.

End OverlayFacts.

(** ** Properties of strings *)

Module StringFacts.
Import Js Dom.

Lemma append_Empty s : EmptyString +:+ s = s.
Proof. reflexivity. Qed.

Lemma append_String c r s : String c r +:+ s = String c (r +:+ s).
Proof. reflexivity. Qed.

Lemma append_nil_r s : s +:+ EmptyString = s.
Proof.
  induction s as [| c r IH]; [reflexivity |]. now rewrite append_String, IH.
Qed.

Lemma append_assoc s1 s2 s3 : (s1 +:+ s2) +:+ s3 = s1 +:+ (s2 +:+ s3).
Proof.
  induction s1 as [| c r IH]; [reflexivity |]. now rewrite !append_String, IH.
Qed.

Lemma length_append s1 s2 :
  String.length (s1 +:+ s2) = String.length s1 + String.length s2.
Proof.
  induction s1 as [| c r IH]; [reflexivity |].
  rewrite append_String. simpl. now rewrite IH.
Qed.

Lemma substring_append a m n s :
  String.substring a m s +:+ String.substring (a + m) n s
  = String.substring a (m + n) s.
Proof.
  revert a m. induction s as [| c r IH]; intros a m.
  - destruct a, m; simpl; try reflexivity; now destruct n.
  - destruct a as [| a]; simpl.
    + destruct m as [| m]; simpl; [reflexivity |].
      rewrite append_String. f_equal. apply (IH 0 m).
    + apply IH.
Qed.

Lemma substring_all m s :
  String.length s <= m -> String.substring 0 m s = s.
Proof.
  revert m. induction s as [| c r IH]; intros m H.
  - now destruct m.
  - destruct m as [| m]; simpl in *; [lia |]. f_equal. apply IH. lia.
Qed.

Lemma length_substring n m s :
  n + m <= String.length s -> String.length (String.substring n m s) = m.
Proof.
  revert n m. induction s as [| c r IH]; intros n m H; simpl in H.
  - assert (n = 0) by lia. assert (m = 0) by lia. now subst.
  - destruct n as [| n]; simpl.
    + destruct m as [| m]; simpl; [reflexivity |]. f_equal. apply IH. lia.
    + apply IH. lia.
Qed.

Lemma get_Some_lt i s c : String.get i s = Some c -> i < String.length s.
Proof.
  revert i. induction s as [| d r IH]; intros i H; simpl in *; [discriminate |].
  destruct i as [| i]; [lia |]. apply IH in H. lia.
Qed.

Lemma get_None_ge i s : String.get i s = None -> String.length s <= i.
Proof.
  revert i. induction s as [| d r IH]; intros i H; simpl in *; [lia |].
  destruct i as [| i]; [discriminate |]. apply IH in H. lia.
Qed.

Lemma slice_slice s a b c :
  a <= b -> b <= c -> slice s a b +:+ slice s b c = slice s a c.
Proof.
  intros Hab Hbc. unfold slice.
  replace b with (a + (b - a)) at 2 by lia.
  rewrite substring_append. f_equal. lia.
Qed.

Lemma substring_none n s : String.substring n 0 s = EmptyString.
Proof.
  revert n. induction s as [| c r IH]; intros n; destruct n; simpl; try reflexivity.
  apply IH.
Qed.

Lemma slice_none s a : slice s a a = EmptyString.
Proof. unfold slice. rewrite Nat.sub_diag. apply substring_none. Qed.

Lemma slice_all s b : String.length s <= b -> slice s 0 b = s.
Proof. intros H. unfold slice. apply substring_all. lia. Qed.

Lemma length_slice s a b :
  a <= b -> b <= String.length s -> String.length (slice s a b) = b - a.
Proof. intros Hab Hb. unfold slice. apply length_substring. lia. Qed.

Lemma joinText_app l1 l2 : joinText (l1 ++ l2) = joinText l1 +:+ joinText l2.
Proof.
  induction l1 as [| x l IH]; [reflexivity |].
  cbn [app joinText fold_right]. fold (joinText (l ++ l2)). fold (joinText l).
  now rewrite IH, append_assoc.
Qed.

Lemma textOf_app l1 l2 : textOf (l1 ++ l2) = textOf l1 +:+ textOf l2.
Proof. unfold textOf. now rewrite map_app, joinText_app. Qed.

Lemma textOf_single n : textOf [n] = textContent n.
Proof. unfold textOf. simpl. apply append_nil_r. Qed.

Lemma textOf_cons n l : textOf (n :: l) = textContent n +:+ textOf l.
Proof. reflexivity. Qed.

End StringFacts.

(** ** Properties of the word scanner *)

Module ScannerFacts.
Import Js Dom DomFacts StringFacts WordScanner.

#[local] Arguments slice : simpl never.
#[local] Arguments String.length : simpl nomatch.

(** *** The pattern at one offset *)

Lemma matchesAt_bound w text i :
  matchesAt w text i = true -> i <= String.length text ->
  i + String.length w <= String.length text.
Proof.
  revert i. induction w as [| c r IH]; intros i H L; simpl in *; [lia |].
  destruct (String.get i text) as [d|] eqn:G; [| discriminate].
  apply andb_true_iff in H. destruct H as [_ H].
  apply get_Some_lt in G. apply IH in H; lia.
Qed.

Lemma matchesAt_nonempty w text i :
  w <> EmptyString -> matchesAt w text i = true ->
  0 < String.length w /\ i < String.length text.
Proof.
  destruct w as [| c r]; [contradiction |]. intros _ H. simpl in *.
  destruct (String.get i text) as [d|] eqn:G; [| discriminate].
  apply get_Some_lt in G. lia.
Qed.

Lemma firstAlternative_Some alts text i e :
  firstAlternative alts text i = Some e ->
  exists w, In w alts /\ e = i + String.length w
            /\ matchesAt w text i = true /\ wordBoundary text e = true.
Proof.
  induction alts as [| w rest IH]; simpl; [discriminate |].
  destruct (matchesAt w text i && wordBoundary text (i + String.length w)) eqn:M.
  - intros E. injection E as <-. apply andb_true_iff in M.
    exists w. tauto.
  - intros E. destruct (IH E) as (w' & I & R). exists w'. tauto.
Qed.

Lemma firstAlternative_None alts text i w :
  firstAlternative alts text i = None -> In w alts ->
  matchesAt w text i && wordBoundary text (i + String.length w) = false.
Proof.
  induction alts as [| w0 rest IH]; simpl; [tauto |].
  destruct (matchesAt w0 text i && wordBoundary text (i + String.length w0)) eqn:M;
    [discriminate |].
  intros E [<- | I]; [exact M | now apply IH].
Qed.

(** What a match of the pattern at [s] that ends at [e] is. *)
Definition matchOf (alts : list string) (text : string) (s e : nat) : Prop :=
  wordBoundary text s = true /\ wordBoundary text e = true
  /\ exists w, In w alts /\ e = s + String.length w /\ matchesAt w text s = true.

Lemma matchAt_Some alts text s e :
  matchAt alts text s = Some e -> matchOf alts text s e.
Proof.
  unfold matchAt, matchOf. destruct (wordBoundary text s); [| discriminate].
  intros H. apply firstAlternative_Some in H. destruct H as (w & I & E & M & B).
  split; [reflexivity |]. split; [exact B |]. now exists w.
Qed.

Lemma matchOf_bounds alts text s e :
  Forall (fun w => w <> EmptyString) alts ->
  matchOf alts text s e -> s < e /\ e <= String.length text.
Proof.
  intros NE (_ & _ & w & I & -> & M).
  rewrite List.Forall_forall in NE. specialize (NE w I).
  destruct (matchesAt_nonempty w text s NE M) as [Lw Ls].
  apply matchesAt_bound in M; lia.
Qed.

Lemma search_Some alts text n i s e :
  search alts text n i = Some (s, e) ->
  i <= s < i + n /\ matchAt alts text s = Some e
  /\ forall p, i <= p < s -> matchAt alts text p = None.
Proof.
  revert i. induction n as [| n IH]; intros i; simpl; [discriminate |].
  destruct (matchAt alts text i) as [e0|] eqn:M.
  - intros E. injection E as <- <-. split; [lia |]. split; [exact M |]. intros p. lia.
  - intros E. apply IH in E. destruct E as (R & Ms & Before).
    split; [lia |]. split; [exact Ms |].
    intros p Hp. destruct (Nat.eq_dec p i) as [-> | Ne]; [exact M |].
    apply Before. lia.
Qed.

Lemma search_None alts text n i :
  search alts text n i = None ->
  forall p, i <= p < i + n -> matchAt alts text p = None.
Proof.
  revert i. induction n as [| n IH]; intros i; simpl; [intros _ p; lia |].
  destruct (matchAt alts text i) as [e0|] eqn:M; [discriminate |].
  intros E p Hp. destruct (Nat.eq_dec p i) as [-> | Ne]; [exact M |].
  apply (IH (S i) E). lia.
Qed.

(** *** The sequence of matches of the loop *)

(** [Scan alts text i spans j]: scanning from offset [i], always taking
    the leftmost match and going on from its end, yields the matches
    [spans] and stops with the last end at [j]. *)
Inductive Scan (alts : list string) (text : string) : nat -> list (nat * nat) -> nat -> Prop :=
| Scan_end i :
    (forall p, i <= p <= String.length text -> matchAt alts text p = None) ->
    Scan alts text i [] i
| Scan_hit i s e spans j :
    i <= s ->
    (forall p, i <= p < s -> matchAt alts text p = None) ->
    matchAt alts text s = Some e ->
    Scan alts text e spans j ->
    Scan alts text i ((s, e) :: spans) j.

Lemma Scan_sound alts text i spans j :
  Scan alts text i spans j ->
  forall s e, In (s, e) spans -> i <= s /\ matchOf alts text s e.
Proof.
  induction 1 as [i N | i s e spans j Hs N M _ IH]; intros s' e' I; [destruct I |].
  destruct I as [E | I].
  - injection E as <- <-. split; [exact Hs | now apply matchAt_Some].
  - destruct (IH _ _ I) as [L R]. split; [| exact R].
    apply matchAt_Some in M.
    destruct M as (_ & _ & w & _ & -> & _). lia.
Qed.

Lemma Scan_sorted alts text i spans j :
  Scan alts text i spans j ->
  StronglySorted (fun a b => snd a <= fst b) spans.
Proof.
  induction 1 as [i N | i s e spans j Hs N M Sc IH]; constructor; [exact IH |].
  apply List.Forall_forall. intros [s' e'] I. simpl.
  now destruct (Scan_sound _ _ _ _ _ Sc _ _ I).
Qed.

Lemma Scan_complete alts text i spans j :
  Forall (fun w => w <> EmptyString) alts ->
  Scan alts text i spans j ->
  forall p, i <= p <= String.length text -> matchAt alts text p <> None ->
  exists s e, In (s, e) spans /\ s <= p < e.
Proof.
  intros NE. induction 1 as [i N | i s e spans j Hs N M _ IH]; intros p Hp Mp.
  - now rewrite N in Mp.
  - destruct (Nat.lt_ge_cases p s) as [Lt | Ge].
    { rewrite N in Mp by lia. contradiction. }
    destruct (Nat.lt_ge_cases p e) as [Lt | Ge'].
    { exists s, e. split; [now left | lia]. }
    destruct (IH p ltac:(lia) Mp) as (s' & e' & I & R).
    exists s', e'. split; [now right | exact R].
Qed.

(** *** The nodes the loop creates *)

Lemma pushTextIf_fragments cond data frags st :
  (pushTextIf cond data frags st).1
  = frags ++ (if cond then [Text (nextId st) data] else []).
Proof. unfold pushTextIf. destruct cond; simpl; [reflexivity | now rewrite app_nil_r]. Qed.

Lemma pushTextIf_document cond data frags st :
  document (pushTextIf cond data frags st).2 = document st.
Proof. unfold pushTextIf. now destruct cond. Qed.

Lemma createHighlight_text matched st :
  textContent (createHighlight matched st).1 = matched.
Proof.
  unfold createHighlight. cbn [fst textContent].
  destruct matched; [reflexivity |]. cbn [truthy map joinText fold_right].
  apply append_nil_r.
Qed.

Lemma createHighlight_class matched st :
  hasClass "word-scanner-highlight" (createHighlight matched st).1 = true.
Proof. reflexivity. Qed.

Lemma createHighlight_document matched st :
  document (createHighlight matched st).2 = document st.
Proof. reflexivity. Qed.

Lemma highlightRuns_app offset a b :
  highlightRuns offset (a ++ b)
  = highlightRuns offset a ++ highlightRuns (offset + String.length (textOf a)) b.
Proof.
  revert offset. induction a as [| n a IH]; intros offset.
  - simpl. now rewrite Nat.add_0_r.
  - cbn [app highlightRuns]. rewrite IH, textOf_cons, length_append.
    rewrite <- app_assoc, Nat.add_assoc. reflexivity.
Qed.

(** One turn of the loop. *)
Lemma highlightLoop_S fuel text pattern frags i st :
  highlightLoop (S fuel) text pattern frags i st =
  match search (alternatives pattern) text
          (S (String.length text) - lastIndex pattern) (lastIndex pattern) with
  | None => Some (frags, i, st)
  | Some (s, e) =>
      let p := pushTextIf (i <? s)%nat (slice text i s) frags st in
      let h := createHighlight (slice text s e) p.2 in
      highlightLoop fuel text (setLastIndex e pattern) (p.1 ++ [h.1]) e h.2
  end.
Proof.
  cbn [highlightLoop]. unfold exec.
  destruct (search _ _ _ _) as [[s e]|]; [| reflexivity].
  cbn [index matched]. destruct (pushTextIf _ _ _ _) as [f1 st1].
  reflexivity.
Qed.

(** The loop keeps the fragments a tiling of the text read so far, and
    its highlight spans are the matches of the scan. *)
Lemma highlightLoop_spec alts text fuel :
  forall pattern frags i st frags' i' st',
    alternatives pattern = alts -> lastIndex pattern = i ->
    i <= String.length text ->
    textOf frags = slice text 0 i ->
    highlightLoop fuel text pattern frags i st = Some (frags', i', st') ->
    i' <= String.length text
    /\ textOf frags' = slice text 0 i'
    /\ document st' = document st
    /\ exists spans,
         Scan alts text i spans i'
         /\ highlightRuns 0 frags' = highlightRuns 0 frags ++ spans.
Proof.
  induction fuel as [| fuel IH]; intros pattern frags i st frags' i' st' Ha Hi Le Ht H;
    [discriminate |].
  rewrite highlightLoop_S, Ha, Hi in H.
  destruct (search alts text (S (String.length text) - i) i) as [[s e]|] eqn:S.
  - apply search_Some in S. destruct S as (R & M & Before).
    pose proof (matchAt_Some _ _ _ _ M) as (_ & _ & w & _ & E & Mw).
    assert (Ls : s <= String.length text) by lia.
    pose proof (matchesAt_bound _ _ _ Mw Ls) as Le'. rewrite <- E in Le'.
    assert (Hse : s <= e) by lia.
    cbv zeta in H.
    set (p := pushTextIf (i <? s)%nat (slice text i s) frags st) in *.
    set (h := createHighlight (slice text s e) p.2) in *.
    assert (Tp : textOf p.1 = slice text 0 s).
    { unfold p. rewrite pushTextIf_fragments, textOf_app, Ht.
      destruct (i <? s)%nat eqn:C.
      - rewrite textOf_single. cbn [textContent]. apply slice_slice; lia.
      - apply Nat.ltb_ge in C. replace s with i by lia. apply append_nil_r. }
    assert (Rp : highlightRuns 0 p.1 = highlightRuns 0 frags).
    { unfold p. rewrite pushTextIf_fragments, highlightRuns_app.
      destruct (i <? s)%nat; simpl; now rewrite app_nil_r. }
    apply IH in H; [| exact Ha | reflexivity | exact Le' |].
    2: { rewrite textOf_app, Tp, textOf_single. unfold h.
         rewrite createHighlight_text. apply slice_slice; lia. }
    destruct H as (L' & T' & D' & spans & Sc & Rs).
    split; [exact L' |]. split; [exact T' |].
    split; [rewrite D'; unfold h; rewrite createHighlight_document;
            unfold p; apply pushTextIf_document |].
    exists ((s, e) :: spans). split.
    + apply Scan_hit; [lia | exact Before | exact M | exact Sc].
    + rewrite Rs, highlightRuns_app, Rp, Tp, <- app_assoc. f_equal.
      cbn [highlightRuns]. unfold h at 1. rewrite createHighlight_class.
      unfold h. rewrite createHighlight_text.
      rewrite !length_slice by lia. simpl. repeat f_equal; lia.
  - injection H as <- <- <-.
    split; [exact Le |]. split; [exact Ht |]. split; [reflexivity |].
    exists []. split; [| now rewrite app_nil_r].
    apply Scan_end. intros q Hq. apply (search_None _ _ _ _ S). lia.
Qed.

(** With non-empty words every match moves the scan forward, so the loop
    ends within as many turns as there are offsets left, plus one. *)
Lemma highlightLoop_ends alts text fuel :
  Forall (fun w => w <> EmptyString) alts ->
  forall pattern frags i st,
    alternatives pattern = alts -> lastIndex pattern = i ->
    i <= String.length text -> String.length text - i < fuel ->
    exists r, highlightLoop fuel text pattern frags i st = Some r.
Proof.
  intros NE. induction fuel as [| fuel IH]; intros pattern frags i st Ha Hi Le Hf; [lia |].
  rewrite highlightLoop_S, Ha, Hi.
  destruct (search alts text (S (String.length text) - i) i) as [[s e]|] eqn:S;
    [| eexists; reflexivity].
  apply search_Some in S. destruct S as (R & M & _).
  apply matchAt_Some in M. apply (matchOf_bounds _ _ _ _ NE) in M.
  cbv zeta. apply IH; [exact Ha | reflexivity | lia | lia].
Qed.

(** The fragments of a text: they tile the text, and their highlight
    spans are the matches of a scan from the start. *)
Lemma buildFragments_spec words text st :
  Forall (fun w => w <> EmptyString) words ->
  exists fragments st' j,
    buildFragments (S (String.length text)) text (buildPattern words) st
    = Some (fragments, st')
    /\ textOf fragments = text
    /\ document st' = document st
    /\ Scan words text 0 (highlightRuns 0 fragments) j.
Proof.
  intros NE. unfold buildFragments.
  destruct (highlightLoop_ends words text (S (String.length text)) NE
              (setLastIndex 0 (buildPattern words)) [] 0 st)
    as ([[frags i] st1] & H); [reflexivity | reflexivity | lia | lia |].
  rewrite H.
  apply (highlightLoop_spec words) in H;
    [| reflexivity | reflexivity | lia | symmetry; apply slice_none].
  destruct H as (Li & T & D & spans & Sc & Rs).
  set (p := pushTextIf _ _ frags st1).
  exists p.1, p.2, i. split; [now destruct p |].
  unfold p. rewrite pushTextIf_fragments, pushTextIf_document.
  split; [| split; [exact D |]].
  - rewrite textOf_app, T. destruct (i <? String.length text)%nat eqn:C.
    + rewrite textOf_single. cbn [textContent].
      rewrite slice_slice by lia. now apply slice_all.
    + apply Nat.ltb_ge in C. rewrite append_nil_r. apply slice_all. lia.
  - rewrite highlightRuns_app, Rs.
    destruct (i <? String.length text)%nat; simpl; now rewrite app_nil_r.
Qed.

(** *** Words made of word characters *)

Lemma isWordChar_toUpperCaseChar c : isWordChar (toUpperCaseChar c) = isWordChar c.
Proof. destruct c as [[] [] [] [] [] [] [] []]; reflexivity. Qed.

Lemma sameIgnoringCase_word c d :
  sameIgnoringCase c d = true -> isWordChar d = isWordChar c.
Proof.
  unfold sameIgnoringCase. intros H. apply Ascii.eqb_eq in H.
  rewrite <- (isWordChar_toUpperCaseChar c), <- (isWordChar_toUpperCaseChar d).
  now rewrite H.
Qed.

Lemma matchesAt_word w text i :
  allWordChars w = true -> matchesAt w text i = true ->
  forall k, i <= k < i + String.length w -> isWordAt text k = true.
Proof.
  revert i. induction w as [| c r IH]; intros i A M k Hk; simpl in *; [lia |].
  apply andb_true_iff in A. destruct A as [Ac Ar].
  destruct (String.get i text) as [d|] eqn:G; [| discriminate].
  apply andb_true_iff in M. destruct M as [Mc Mr].
  destruct (Nat.eq_dec k i) as [-> | Ne].
  - unfold isWordAt. rewrite G. now rewrite (sameIgnoringCase_word _ _ Mc).
  - apply (IH (S i) Ar Mr). lia.
Qed.

(** A match of a word of word characters is a whole word: word
    characters throughout, none before and none after. *)
Lemma matchOf_whole_word alts text s e :
  Forall (fun w => w <> EmptyString) alts ->
  Forall (fun w => allWordChars w = true) alts ->
  matchOf alts text s e ->
  s < e /\ (forall k, s <= k < e -> isWordAt text k = true)
  /\ isWordBefore text s = false /\ isWordAt text e = false.
Proof.
  intros NE AW M. destruct (matchOf_bounds _ _ _ _ NE M) as [Lt _].
  destruct M as (Bs & Be & w & I & E & Mw).
  rewrite List.Forall_forall in AW. specialize (AW w I).
  pose proof (matchesAt_word w text s AW Mw) as W. rewrite <- E in W.
  split; [exact Lt |]. split; [exact W |].
  unfold wordBoundary in Bs, Be.
  rewrite (W s) in Bs by lia.
  assert (Pe : isWordBefore text e = true).
  { destruct e as [| e']; [lia |]. simpl. apply W. lia. }
  rewrite Pe in Be.
  split; [now destruct (isWordBefore text s) | now destruct (isWordAt text e)].
Qed.

Lemma standalone_matches alts text w i :
  Forall (fun w => w <> EmptyString) alts ->
  Forall (fun w => allWordChars w = true) alts ->
  In w alts -> standaloneAt text w i = true ->
  matchAt alts text i <> None
  /\ i <= String.length text
  /\ (forall k, i <= k < i + String.length w -> isWordAt text k = true)
  /\ isWordBefore text i = false
  /\ isWordAt text (i + String.length w) = false.
Proof.
  intros NE AW I S. unfold standaloneAt in S.
  rewrite !andb_true_iff, !negb_true_iff in S. destruct S as [[M B] A].
  rewrite List.Forall_forall in NE, AW.
  destruct (matchesAt_nonempty w text i (NE w I) M) as [Lw Li].
  pose proof (matchesAt_word w text i (AW w I) M) as W.
  split; [| split; [lia | split; [exact W | split; assumption]]].
  unfold matchAt, wordBoundary. rewrite B, (W i) by lia. cbn [xorb].
  intros N. pose proof (firstAlternative_None _ _ _ w N I) as F.
  rewrite M in F. unfold wordBoundary in F. rewrite A in F.
  assert (P : isWordBefore text (i + String.length w) = true).
  { destruct (i + String.length w) as [| j] eqn:E; [lia |]. simpl. apply W. lia. }
  rewrite P in F. discriminate.
Qed.

Lemma sorted_spans_distinct (spans : list (nat * nat)) :
  StronglySorted (fun a b => snd a <= fst b) spans ->
  (forall s e, In (s, e) spans -> s < e) ->
  List.NoDup spans.
Proof.
  induction 1 as [| [s e] l _ IH F]; intros Lt; constructor.
  - intros I. rewrite List.Forall_forall in F. specialize (F _ I).
    specialize (Lt s e (or_introl eq_refl)). simpl in F. lia.
  - apply IH. intros s' e' I. apply Lt. now right.
Qed.

(** Whole-word matching where it holds.  For every list of non-empty
    words the scan ends and its fragments tile the text in order, so the
    highlighted runs are disjoint and ascending; every run is a
    case-insensitive occurrence of a listed word that starts and ends at a
    word boundary; no offset where the pattern matches lies outside the
    runs (leftmost first).  When all listed words consist of word
    characters, no run has a word character before or after it (a word
    inside a longer word is never highlighted), and every standalone
    occurrence of a listed word, in any letter case, is exactly one run. *)
Theorem whole_word_matching (words : list string) (text : string) (st : State) :
  Forall (fun w => w <> EmptyString) words ->
  exists fragments st',
    buildFragments (S (String.length text)) text (buildPattern words) st
    = Some (fragments, st')
    /\ textOf fragments = text
    /\ StronglySorted (fun a b => snd a <= fst b) (highlightRuns 0 fragments)
    /\ (forall s e, In (s, e) (highlightRuns 0 fragments) ->
          s < e <= String.length text
          /\ wordBoundary text s = true /\ wordBoundary text e = true
          /\ exists w, In w words /\ e = s + String.length w
                       /\ matchesAt w text s = true)
    /\ (forall p, p <= String.length text -> matchAt words text p <> None ->
          exists s e, In (s, e) (highlightRuns 0 fragments) /\ s <= p < e)
    /\ (Forall (fun w => allWordChars w = true) words ->
          (forall s e, In (s, e) (highlightRuns 0 fragments) ->
             isWordBefore text s = false /\ isWordAt text e = false)
          /\ (forall w i, In w words -> standaloneAt text w i = true ->
                count_occ span_eq_dec (highlightRuns 0 fragments)
                  (i, i + String.length w) = 1)).
Proof.
  intros NE.
  destruct (buildFragments_spec words text st NE) as (frags & st' & j & B & T & _ & Sc).
  exists frags, st'. split; [exact B |]. split; [exact T |].
  set (runs := highlightRuns 0 frags) in *.
  pose proof (Scan_sorted _ _ _ _ _ Sc) as Sorted.
  assert (Sound : forall s e, In (s, e) runs -> matchOf words text s e).
  { intros s e I. now destruct (Scan_sound _ _ _ _ _ Sc s e I). }
  assert (Complete : forall p, p <= String.length text -> matchAt words text p <> None ->
                     exists s e, In (s, e) runs /\ s <= p < e).
  { intros p Hp Mp. apply (Scan_complete _ _ _ _ _ NE Sc); [lia | exact Mp]. }
  split; [exact Sorted |]. split; [| split; [exact Complete |]].
  - intros s e I. specialize (Sound s e I).
    pose proof (matchOf_bounds _ _ _ _ NE Sound) as Bd.
    destruct Sound as (Bs & Be & W). tauto.
  - intros AW. split.
    + intros s e I.
      now destruct (matchOf_whole_word _ _ _ _ NE AW (Sound s e I)) as (_ & _ & P & A).
    + intros w i I S.
      destruct (standalone_matches _ _ _ _ NE AW I S) as (M & Li & W & P & A).
      destruct (Complete i Li M) as (s & e & Ir & R).
      destruct (matchOf_whole_word _ _ _ _ NE AW (Sound s e Ir)) as (Lt & Wr & Pr & Ar).
      assert (s = i).
      { destruct (Nat.eq_dec s i) as [E | Ne]; [exact E | exfalso].
        destruct i as [| i']; [lia |]. simpl in P.
        rewrite Wr in P by lia. discriminate. }
      subst s.
      assert (e = i + String.length w).
      { destruct (Nat.lt_trichotomy e (i + String.length w)) as [L | [E | G]];
          [exfalso | exact E | exfalso].
        - rewrite W in Ar by lia. discriminate.
        - rewrite Wr in A by lia. discriminate. }
      subst e.
      apply List.NoDup_count_occ'; [| exact Ir].
      apply sorted_spans_distinct; [exact Sorted |].
      intros s e Is. now destruct (matchOf_bounds _ _ _ _ NE (Sound s e Is)).
Qed.

Lemma whole_word_matching_witness :
  exists fragments st',
    buildFragments 20 "Hello partner world" (buildPattern ["partner"])
      (singleTextNode "Hello partner world")
    = Some (fragments, st')
    /\ textOf fragments = "Hello partner world"
    /\ StronglySorted (fun a b => snd a <= fst b) (highlightRuns 0 fragments)
    /\ (forall s e, In (s, e) (highlightRuns 0 fragments) ->
          s < e <= 19
          /\ wordBoundary "Hello partner world" s = true
          /\ wordBoundary "Hello partner world" e = true
          /\ exists w, In w ["partner"] /\ e = s + String.length w
                       /\ matchesAt w "Hello partner world" s = true)
    /\ (forall p, p <= 19 -> matchAt ["partner"] "Hello partner world" p <> None ->
          exists s e, In (s, e) (highlightRuns 0 fragments) /\ s <= p < e)
    /\ (Forall (fun w => allWordChars w = true) ["partner"] ->
          (forall s e, In (s, e) (highlightRuns 0 fragments) ->
             isWordBefore "Hello partner world" s = false
             /\ isWordAt "Hello partner world" e = false)
          /\ (forall w i, In w ["partner"] ->
                standaloneAt "Hello partner world" w i = true ->
                count_occ span_eq_dec (highlightRuns 0 fragments)
                  (i, i + String.length w) = 1)).
Proof.
  apply (whole_word_matching ["partner"] "Hello partner world"
           (singleTextNode "Hello partner world")).
  constructor; [discriminate | constructor].
Defined.

(** A listed word that ends in a character that is not a word character:
    the text is a standalone occurrence of the word, and nothing is
    highlighted. *)
Lemma standalone_symbol_word_not_highlighted :
  In "c++" ["c++"]
  /\ standaloneAt "c++" "c++" 0 = true
  /\ buildFragments 4 "c++" (buildPattern ["c++"]) (singleTextNode "c++")
     = Some ([Text 1 "c++"],
             {| document := [Text 0 "c++"]; wordScannerHighlights := [];
                nextId := 2 |})
  /\ highlightRuns 0 [Text 1 "c++"] = [].
Proof. repeat split; try reflexivity. now left. Qed.

(** Claim C3: whole-word matching fails on two inputs.  With the listed
    word c++ and the text [c++ and c++x], the standalone occurrence at
    offset 0 is not highlighted, and the occurrence inside [c++x] is the
    one highlight.  With the listed word todo and a text in which todo
    follows a letter that is not an ASCII letter (code unit 233, e with an
    acute accent), the word is highlighted inside the longer word. *)
Lemma whole_word_matching_fails :
  (standaloneAt "c++ and c++x" "c++" 0 = true
   /\ standaloneAt "c++ and c++x" "c++" 8 = false
   /\ exists fragments st',
        buildFragments 13 "c++ and c++x" (buildPattern ["c++"])
          (singleTextNode "c++ and c++x")
        = Some (fragments, st')
        /\ highlightRuns 0 fragments = [(8, 11)])
  /\ (isWordBefore (String "m" (String "233" "todo")) 2 = false
      /\ exists fragments st',
           buildFragments 7 (String "m" (String "233" "todo")) (buildPattern ["todo"])
             (singleTextNode (String "m" (String "233" "todo")))
           = Some (fragments, st')
           /\ highlightRuns 0 fragments = [(2, 6)]).
Proof.
  split; (split; [reflexivity |]).
  - split; [reflexivity |]. eexists. eexists. split; reflexivity.
  - eexists. eexists. split; reflexivity.
Qed.

(** *** Text is kept by the DOM operations *)

Lemma joinText_map_ext (f g : Node -> string) (l : list Node) :
  Forall (fun n => f n = g n) l -> joinText (map f l) = joinText (map g l).
Proof.
  induction 1 as [| n l E _ IH]; [reflexivity |].
  cbn [map joinText fold_right]. fold (joinText (map f l)). fold (joinText (map g l)).
  now rewrite E, IH.
Qed.

Lemma replaceByText_text el fresh n :
  textContent (replaceByText el fresh n) = textContent n.
Proof.
  induction n as [i d | i t cl ti cs IH] using Node_tree_ind; [reflexivity |].
  cbn [replaceByText]. destruct (i =? el)%nat; [reflexivity |].
  cbn [textContent]. rewrite map_map. now apply joinText_map_ext.
Qed.

Lemma restoreText_text st h :
  textOf (document (restoreText st h)) = textOf (document st).
Proof.
  unfold restoreText, textOf. cbn [document]. rewrite map_map.
  apply joinText_map_ext. apply List.Forall_forall. intros n _.
  apply replaceByText_text.
Qed.

Lemma restoreAll_text l st :
  textOf (document (fold_left restoreText l st)) = textOf (document st).
Proof.
  revert st. induction l as [| h l IH]; intros st; [reflexivity |].
  cbn [fold_left]. now rewrite IH, restoreText_text.
Qed.

Lemma restoreAll_highlights l st :
  wordScannerHighlights (fold_left restoreText l st) = wordScannerHighlights st.
Proof.
  revert st. induction l as [| h l IH]; intros st; [reflexivity |].
  cbn [fold_left]. now rewrite IH.
Qed.

Lemma removeWordHighlights_text st :
  textOf (document (removeWordHighlights st)) = textOf (document st).
Proof.
  unfold removeWordHighlights. cbv zeta. rewrite restoreAll_text. cbn [document].
  apply restoreAll_text.
Qed.

Lemma textOf_flat_map (f : Node -> list Node) (l : list Node) :
  Forall (fun n => textOf (f n) = textContent n) l ->
  textOf (flat_map f l) = textOf l.
Proof.
  induction 1 as [| n l E _ IH]; [reflexivity |].
  cbn [flat_map]. now rewrite textOf_app, E, IH, textOf_cons.
Qed.

Lemma replaceTextNode_text textNode frags n :
  (forall d, In (textNode, d) (textNodes n) -> d = textOf frags) ->
  textOf (replaceTextNode textNode frags n) = textContent n.
Proof.
  induction n as [i d | i t cl ti cs IH] using Node_tree_ind; intros H.
  - cbn [replaceTextNode]. destruct (i =? textNode)%nat eqn:E.
    + apply Nat.eqb_eq in E. subst i. symmetry. apply H. now left.
    + apply textOf_single.
  - cbn [replaceTextNode]. rewrite textOf_single. cbn [textContent].
    apply textOf_flat_map. rewrite List.Forall_forall in *. intros c Hc.
    apply IH; [exact Hc |]. intros d Hd. apply H. cbn [textNodes].
    apply in_flat_map. now exists c.
Qed.

Lemma replaceTextNode_document textNode frags nodes :
  (forall d, In (textNode, d) (flat_map textNodes nodes) -> d = textOf frags) ->
  textOf (flat_map (replaceTextNode textNode frags) nodes) = textOf nodes.
Proof.
  intros H. apply textOf_flat_map. apply List.Forall_forall. intros n Hn.
  apply replaceTextNode_text. intros d Hd. apply H.
  apply in_flat_map. now exists n.
Qed.

Lemma distinct_keys (l : list (nat * string)) k d d' :
  List.NoDup (map fst l) -> In (k, d) l -> In (k, d') l -> d = d'.
Proof.
  induction l as [| [k0 d0] l IH]; intros ND I I'; [destruct I |].
  cbn [map fst] in ND. inversion ND as [| ? ? Hk Hl]; subst.
  destruct I as [E | I], I' as [E' | I'].
  - congruence.
  - injection E as -> ->. exfalso. apply Hk.
    change k with (fst (k, d')). now apply in_map.
  - injection E' as -> ->. exfalso. apply Hk.
    change k with (fst (k, d)). now apply in_map.
  - now apply IH.
Qed.

Lemma textNodeData_unique textNode nodes text d :
  List.NoDup (map fst (flat_map textNodes nodes)) ->
  textNodeData textNode nodes = Some text ->
  In (textNode, d) (flat_map textNodes nodes) -> d = text.
Proof.
  unfold textNodeData. intros ND F I.
  destruct (List.find _ _) as [[k d0]|] eqn:E; [| discriminate].
  injection F as <-. apply find_some in E. destruct E as [I0 K].
  apply Nat.eqb_eq in K. cbn [fst] in K. subst k.
  eapply distinct_keys; eassumption.
Qed.

(** Claim C4, amended: for every document whose text nodes have distinct
    identities, every text node of it and every list of non-empty words,
    [highlightForbiddenWordsInNode] ends and, followed by
    [removeWordHighlights], leaves the concatenated text of the document
    (and so of the container of the text node) exactly as it was; a
    container that held only the text node holds exactly its text again. *)
Theorem highlight_then_remove_restores_text
    (st : State) (textNode : nat) (text : string) (words : list string) :
  List.NoDup (map fst (flat_map textNodes (document st))) ->
  textNodeData textNode (document st) = Some text ->
  Forall (fun w => w <> EmptyString) words ->
  exists highlighted,
    highlightForbiddenWordsInNode (S (String.length text)) textNode
      (buildPattern words) st = Some highlighted
    /\ textOf (document highlighted) = textOf (document st)
    /\ textOf (document (removeWordHighlights highlighted)) = textOf (document st)
    /\ wordScannerHighlights (removeWordHighlights highlighted) = []
    /\ (document st = [Text textNode text] ->
        textOf (document (removeWordHighlights highlighted)) = text).
Proof.
  intros ND Data NE. unfold highlightForbiddenWordsInNode. rewrite Data.
  destruct (buildFragments_spec words text st NE) as (frags & st1 & j & B & T & D & _).
  rewrite B.
  assert (R : exists highlighted,
             (if (0 <? length frags)%nat
              then Some (setDocument
                           (flat_map (replaceTextNode textNode frags) (document st1)) st1)
              else Some st1) = Some highlighted
             /\ textOf (document highlighted) = textOf (document st)).
  { destruct (0 <? length frags)%nat; eexists; (split; [reflexivity |]).
    - cbn [document setDocument]. rewrite D. apply replaceTextNode_document.
      intros d Hd. rewrite T. eapply textNodeData_unique; eassumption.
    - now rewrite D. }
  destruct R as (highlighted & -> & Th).
  exists highlighted. split; [reflexivity |]. split; [exact Th |].
  split; [now rewrite removeWordHighlights_text |].
  split.
  - unfold removeWordHighlights. now rewrite restoreAll_highlights.
  - intros Single. rewrite removeWordHighlights_text, Th, Single.
    apply textOf_single.
Qed.

Lemma highlight_then_remove_restores_text_witness :
  exists highlighted,
    highlightForbiddenWordsInNode 32 3
      (buildPattern ["todo"; "lorem"; "ipsum"]) sampleDocument = Some highlighted
    /\ textOf (document highlighted) = textOf (document sampleDocument)
    /\ textOf (document (removeWordHighlights highlighted))
       = textOf (document sampleDocument)
    /\ wordScannerHighlights (removeWordHighlights highlighted) = []
    /\ (document sampleDocument = [Text 3 "TODO fix the Lorem ipsum, todo!"] ->
        textOf (document (removeWordHighlights highlighted))
        = "TODO fix the Lorem ipsum, todo!").
Proof.
  apply (highlight_then_remove_restores_text sampleDocument 3
           "TODO fix the Lorem ipsum, todo!" ["todo"; "lorem"; "ipsum"]).
  - repeat constructor; simpl; intuition discriminate.
  - reflexivity.
  - repeat constructor; discriminate.
Defined.

Lemma empty_word_loop_never_ends fuel :
  forall frags st,
    highlightLoop fuel "a" {| alternatives := [EmptyString]; lastIndex := 0 |}
      frags 0 st = None.
Proof.
  induction fuel as [| fuel IH]; intros frags st; [reflexivity |].
  rewrite highlightLoop_S.
  change (search _ _ _ _) with (Some (0, 0)). cbv zeta. apply IH.
Qed.

(** Claim C4 as stated fails for a word list that holds the empty word:
    the pattern then matches the empty string at a word boundary without
    moving [lastIndex], and the loop over the text never ends, whatever
    number of turns it is given. *)
Lemma empty_word_highlighting_never_returns :
  textNodeData 0 (document (singleTextNode "a")) = Some "a"
  /\ forall fuel,
       highlightForbiddenWordsInNode fuel 0 (buildPattern [EmptyString])
         (singleTextNode "a") = None.
Proof.
  split; [reflexivity |]. intros fuel.
  unfold highlightForbiddenWordsInNode, buildFragments.
  change (textNodeData 0 (document (singleTextNode "a"))) with (Some "a").
  cbv iota beta.
  change (setLastIndex 0 (buildPattern [EmptyString]))
    with {| alternatives := [EmptyString]; lastIndex := 0 |}.
  now rewrite empty_word_loop_never_ends.
Qed.

End ScannerFacts.

(** ** Further properties of the autofill risk analysis *)

Module AnalysisMore.
Import Js Analysis AnalysisFacts AnalysisSamples.

#[local] Arguments arrayIncludes : simpl never.
#[local] Arguments firstKeyword : simpl never.

(** The severity of a finding, on the scale of the levels. *)
Definition severity (t : RiskType) : nat :=
  match t with Info => 0 | Warning => 1 | Error => 2 end.

Fixpoint maxSeverity (l : list Risk) : nat :=
  match l with
  | [] => 0
  | r :: rest => Nat.max (severity (r_type r)) (maxSeverity rest)
  end.

Lemma maxSeverity_push l r :
  maxSeverity (l ++ [r]) = Nat.max (maxSeverity l) (severity (r_type r)).
Proof. induction l as [| x l IH]; simpl; [lia |]. rewrite IH. lia. Qed.

(** The level is the highest severity among the risks. *)
Definition balanced (f : Findings) : Prop :=
  rank (f_level f) = maxSeverity (f_risks f).

Ltac balance f :=
  unfold balanced in *;
  match goal with B : rank (f_level f) = _ |- _ => revert B end;
  unfold lowToMedium, setLevel, push; cbn [f_level f_risks];
  destruct (f_level f); cbn [f_level f_risks]; rewrite ?maxSeverity_push;
  simpl; intros B; lia.

Lemma checkAutocomplete_balanced ac nac :
  balanced (checkAutocomplete ac nac {| f_risks := []; f_level := Low |}).
Proof.
  unfold checkAutocomplete.
  destruct (truthy nac); cbn [negb];
    [destruct (arrayIncludes SAFE_AUTOCOMPLETE_VALUES nac);
     [| destruct (arrayIncludes AUTOCOMPLETE_VALUES_THAT_TRIGGER nac)] |];
    reflexivity.
Qed.

Lemma checkType_balanced ty nty f : balanced f -> balanced (checkType ty nty f).
Proof.
  unfold checkType. intros B.
  destruct (arrayIncludes AUTOFILL_INPUT_TYPES nty); [balance f |].
  destruct (String.eqb nty "password"); [| assumption].
  rewrite level_push. balance f.
Qed.

Lemma checkName_balanced n nn f : balanced f -> balanced (checkName n nn f).
Proof. unfold checkName. intros B. destruct (firstKeyword nn); [balance f | assumption]. Qed.

Lemma checkId_balanced i ni f : balanced f -> balanced (checkId i ni f).
Proof. unfold checkId. intros B. destruct (firstKeyword ni); [balance f | assumption]. Qed.

Lemma checkPlaceholder_balanced np f : balanced f -> balanced (checkPlaceholder np f).
Proof.
  unfold checkPlaceholder. intros B. destruct (firstKeyword np); [balance f | assumption].
Qed.

Lemma checkLabel_balanced nl f : balanced f -> balanced (checkLabel nl f).
Proof. unfold checkLabel. intros B. destruct (firstKeyword nl); [balance f | assumption]. Qed.

Lemma checkFormHistory_balanced nn nac f :
  balanced f -> balanced (checkFormHistory nn nac f).
Proof.
  unfold checkFormHistory. intros B.
  destruct (formHistoryApplies nn nac); [balance f | assumption].
Qed.

(** The risk level of a verdict is the highest severity among its
    findings: high exactly when there is an error finding, medium when
    there is a warning and no error, low when all findings are
    informational (or there is none). *)
Theorem level_is_highest_severity (a : FieldAttributes) (v : Verdict) :
  analyzeFieldAttributes (attrsOf a) = Return (Some v) ->
  rank (riskLevel v) = maxSeverity (risks v).
Proof.
  rewrite analyze_attrsOf. intros E. injection E as E.
  apply analyzeStrings_verdict in E. destruct E as [-> ->].
  apply checkFormHistory_balanced. unfold beforeFormHistory.
  apply checkLabel_balanced, checkPlaceholder_balanced, checkId_balanced,
    checkName_balanced, checkType_balanced, checkAutocomplete_balanced.
Qed.

Lemma level_is_highest_severity_witness :
  rank High = maxSeverity [triggerAutocompleteError "on"; formHistoryWarning].
Proof.
  apply (level_is_highest_severity namedAutocompleteOn
           {| riskLevel := High;
              risks := [triggerAutocompleteError "on"; formHistoryWarning];
              attributes := {| at_tagName := "input"; at_type := "text";
                               at_name := "someRandomField"; at_id := EmptyString;
                               at_autocomplete := "on";
                               at_placeholder := EmptyString |} |}).
  reflexivity.
Defined.

(** *** Which attribute combinations are high, and which are low *)

Lemma trigger_value nac :
  In nac AUTOCOMPLETE_VALUES_THAT_TRIGGER ->
  truthy nac = true /\ arrayIncludes SAFE_AUTOCOMPLETE_VALUES nac = false.
Proof.
  unfold AUTOCOMPLETE_VALUES_THAT_TRIGGER. intros H.
  repeat (destruct H as [<- | H]; [split; reflexivity |]). destruct H.
Qed.

Lemma firstKeyword_None text :
  firstKeyword text = None <->
  forall k, In k AUTOFILL_KEYWORDS -> includes text k = false.
Proof.
  unfold firstKeyword. split.
  - intros H k I. exact (find_none _ _ H k I).
  - intros H. destruct (List.find _ _) as [k|] eqn:F; [| reflexivity].
    apply find_some in F. destruct F as [I T]. rewrite (H k I) in T. discriminate.
Qed.

Lemma lowToMedium_High f : f_level (lowToMedium f) = High <-> f_level f = High.
Proof. unfold lowToMedium. destruct (f_level f) eqn:E; simpl; rewrite ?E; split; congruence. Qed.

Lemma lowToMedium_not_Low f : f_level (lowToMedium f) <> Low.
Proof. unfold lowToMedium. destruct (f_level f) eqn:E; simpl; rewrite ?E; congruence. Qed.

Lemma checkAutocomplete_level ac nac risks0 :
  let f := checkAutocomplete ac nac {| f_risks := risks0; f_level := Low |} in
  (f_level f = High <-> In nac AUTOCOMPLETE_VALUES_THAT_TRIGGER)
  /\ (f_level f = Low <->
      nac <> EmptyString
      /\ (In nac SAFE_AUTOCOMPLETE_VALUES \/ ~ In nac AUTOCOMPLETE_VALUES_THAT_TRIGGER)).
Proof.
  cbv zeta. unfold checkAutocomplete.
  destruct (truthy nac) eqn:T; cbn [negb].
  - assert (NE : nac <> EmptyString) by now apply truthy_true.
    destruct (arrayIncludes SAFE_AUTOCOMPLETE_VALUES nac) eqn:S.
    + pose proof (proj1 (arrayIncludes_In _ _) S) as IS. cbn [f_level setLevel push]. split.
      * split; [discriminate |]. intros H. apply trigger_value in H. destruct H. congruence.
      * split; [tauto | reflexivity].
    + pose proof (proj1 (arrayIncludes_not_In _ _) S) as NS.
      destruct (arrayIncludes AUTOCOMPLETE_VALUES_THAT_TRIGGER nac) eqn:G.
      * pose proof (proj1 (arrayIncludes_In _ _) G) as IG. cbn [f_level setLevel push].
        split; [tauto |]. split; [discriminate | tauto].
      * pose proof (proj1 (arrayIncludes_not_In _ _) G) as NG. cbn [f_level setLevel push].
        split; [split; [discriminate | tauto] | tauto].
  - cbn [f_level setLevel push]. split.
    + split; [discriminate |]. intros H. apply trigger_value in H. destruct H. congruence.
    + split; [discriminate |]. intros [NE _]. apply truthy_true in NE. congruence.
Qed.

Lemma checkType_level ty nty f :
  (f_level (checkType ty nty f) = High <->
   In nty AUTOFILL_INPUT_TYPES \/ f_level f = High)
  /\ (f_level (checkType ty nty f) = Low <->
      ~ In nty AUTOFILL_INPUT_TYPES /\ nty <> "password" /\ f_level f = Low).
Proof.
  unfold checkType.
  destruct (arrayIncludes AUTOFILL_INPUT_TYPES nty) eqn:A.
  - pose proof (proj1 (arrayIncludes_In _ _) A) as IA. cbn [f_level setLevel push].
    split; [tauto |]. split; [discriminate | tauto].
  - pose proof (proj1 (arrayIncludes_not_In _ _) A) as NA.
    destruct (String.eqb nty "password") eqn:P.
    + apply String.eqb_eq in P. rewrite level_push.
      destruct (f_level f) eqn:E; cbn [f_level setLevel push]; rewrite ?E;
        (split; [split; [try discriminate; tauto | intros [H | H]; [tauto | congruence]]
                | split; [try discriminate | tauto]]).
    + apply String.eqb_neq in P. split; [tauto |]. tauto.
Qed.

Lemma keywordWarning_level (r : Risk) text f :
  let f' := match firstKeyword text with
            | Some _ => lowToMedium (push r f)
            | None => f
            end in
  (f_level f' = High <-> f_level f = High)
  /\ (f_level f' = Low <-> firstKeyword text = None /\ f_level f = Low).
Proof.
  cbv zeta. destruct (firstKeyword text) as [k|].
  - split; [apply (lowToMedium_High (push r f)) |].
    split; [intros H; now apply lowToMedium_not_Low in H | intros [H _]; discriminate].
  - tauto.
Qed.

Lemma checkName_level n nn f :
  (f_level (checkName n nn f) = High <-> f_level f = High)
  /\ (f_level (checkName n nn f) = Low <-> firstKeyword nn = None /\ f_level f = Low).
Proof.
  unfold checkName. destruct (firstKeyword nn) as [k|] eqn:K.
  - pose proof (keywordWarning_level (nameKeywordWarning n k) nn f) as H.
    cbv zeta in H. now rewrite K in H.
  - tauto.
Qed.

Lemma checkId_level i ni f :
  (f_level (checkId i ni f) = High <-> f_level f = High)
  /\ (f_level (checkId i ni f) = Low <-> firstKeyword ni = None /\ f_level f = Low).
Proof.
  unfold checkId. destruct (firstKeyword ni) as [k|] eqn:K.
  - pose proof (keywordWarning_level (idKeywordWarning i k) ni f) as H.
    cbv zeta in H. now rewrite K in H.
  - tauto.
Qed.

Lemma checkFormHistory_level nn nac f :
  (f_level (checkFormHistory nn nac f) = High <-> f_level f = High)
  /\ (f_level (checkFormHistory nn nac f) = Low <->
      formHistoryApplies nn nac = false /\ f_level f = Low).
Proof.
  unfold checkFormHistory. destruct (formHistoryApplies nn nac).
  - split; [apply (lowToMedium_High (push formHistoryWarning f)) |].
    split; [intros H; now apply lowToMedium_not_Low in H | intros [H _]; discriminate].
  - tauto.
Qed.

(** The level of the verdict in terms of the lower-cased attributes. *)
Lemma verdict_level t ty n i ac p l v :
  analyzeStrings t ty n i ac p l = Some v ->
  (riskLevel v = High <->
   In (toLowerCase ac) AUTOCOMPLETE_VALUES_THAT_TRIGGER
   \/ In (toLowerCase ty) AUTOFILL_INPUT_TYPES)
  /\ (riskLevel v = Low <->
      (toLowerCase ac <> EmptyString
       /\ (In (toLowerCase ac) SAFE_AUTOCOMPLETE_VALUES
           \/ ~ In (toLowerCase ac) AUTOCOMPLETE_VALUES_THAT_TRIGGER))
      /\ (~ In (toLowerCase ty) AUTOFILL_INPUT_TYPES /\ toLowerCase ty <> "password")
      /\ firstKeyword (toLowerCase n) = None
      /\ firstKeyword (toLowerCase i) = None
      /\ formHistoryApplies (toLowerCase n) (toLowerCase ac) = false).
Proof.
  intros E. apply analyzeStrings_verdict in E. destruct E as [-> _].
  unfold beforeFormHistory.
  set (f1 := checkAutocomplete ac (toLowerCase ac) _).
  set (f2 := checkType ty (toLowerCase ty) f1).
  set (f3 := checkName n (toLowerCase n) f2).
  set (f4 := checkId i (toLowerCase i) f3).
  set (f6 := checkLabel (toLowerCase l) (checkPlaceholder (toLowerCase p) f4)).
  assert (E6 : f_level f6 = f_level f4).
  { unfold f6. now rewrite checkLabel_level, checkPlaceholder_level. }
  destruct (checkAutocomplete_level ac (toLowerCase ac) []) as [H1 L1]. fold f1 in H1, L1.
  destruct (checkType_level ty (toLowerCase ty) f1) as [H2 L2]. fold f2 in H2, L2.
  destruct (checkName_level n (toLowerCase n) f2) as [H3 L3]. fold f3 in H3, L3.
  destruct (checkId_level i (toLowerCase i) f3) as [H4 L4]. fold f4 in H4, L4.
  destruct (checkFormHistory_level (toLowerCase n) (toLowerCase ac) f6) as [H5 L5].
  rewrite E6 in H5, L5.
  split; [tauto | tauto].
Qed.

(** A verdict is high exactly when the lower-cased autocomplete value is one
    of the values that trigger autofill or the lower-cased type is email,
    tel or url; nothing else in the attributes raises a verdict to high or
    keeps it from being high. *)
Theorem high_exactly_when (a : FieldAttributes) (v : Verdict) :
  analyzeFieldAttributes (attrsOf a) = Return (Some v) ->
  (riskLevel v = High <->
   In (toLowerCase (valueOr EmptyString (autocomplete a))) AUTOCOMPLETE_VALUES_THAT_TRIGGER
   \/ In (toLowerCase (valueOr "text" (type a))) ["email"; "tel"; "url"]).
Proof.
  rewrite analyze_attrsOf. intros E. injection E as E.
  now destruct (verdict_level _ _ _ _ _ _ _ _ E) as [H _].
Qed.

Lemma high_exactly_when_witness :
  High = High <->
  In (toLowerCase "on") AUTOCOMPLETE_VALUES_THAT_TRIGGER
  \/ In (toLowerCase "text") ["email"; "tel"; "url"].
Proof.
  apply (high_exactly_when namedAutocompleteOn
           {| riskLevel := High;
              risks := [triggerAutocompleteError "on"; formHistoryWarning];
              attributes := {| at_tagName := "input"; at_type := "text";
                               at_name := "someRandomField"; at_id := EmptyString;
                               at_autocomplete := "on";
                               at_placeholder := EmptyString |} |}).
  reflexivity.
Defined.

(** A verdict is low exactly when the autocomplete value is present and is
    either a safe value or, for a field without a name, a value that does
    not trigger autofill; the type is none of email, tel, url and password;
    and neither the name nor the id contains one of the keywords. *)
Theorem low_exactly_when (a : FieldAttributes) (v : Verdict) :
  analyzeFieldAttributes (attrsOf a) = Return (Some v) ->
  let name := valueOr EmptyString (name a) in
  let id := valueOr EmptyString (id a) in
  let autocomplete := toLowerCase (valueOr EmptyString (autocomplete a)) in
  let type := toLowerCase (valueOr "text" (type a)) in
  (riskLevel v = Low <->
   autocomplete <> EmptyString
   /\ (In autocomplete SAFE_AUTOCOMPLETE_VALUES
       \/ (~ In autocomplete AUTOCOMPLETE_VALUES_THAT_TRIGGER /\ name = EmptyString))
   /\ ~ In type ["email"; "tel"; "url"; "password"]
   /\ (forall k, In k AUTOFILL_KEYWORDS -> includes (toLowerCase name) k = false)
   /\ (forall k, In k AUTOFILL_KEYWORDS -> includes (toLowerCase id) k = false)).
Proof.
  rewrite analyze_attrsOf. intros E. injection E as E.
  destruct (verdict_level _ _ _ _ _ _ _ _ E) as [_ L].
  cbv zeta. rewrite L, !firstKeyword_None. clear L E.
  set (n := valueOr EmptyString (name a)).
  set (ac := toLowerCase (valueOr EmptyString (autocomplete a))).
  set (ty := toLowerCase (valueOr "text" (type a))).
  assert (G : formHistoryApplies (toLowerCase n) ac = false <->
              n = EmptyString \/ ac = EmptyString \/ In ac SAFE_AUTOCOMPLETE_VALUES).
  { unfold formHistoryApplies.
    rewrite !andb_false_iff, negb_false_iff, truthy_toLowerCase, arrayIncludes_In.
    destruct n, ac; simpl; split; intros H; try tauto;
      repeat (destruct H as [H | H]; try discriminate; try tauto). }
  rewrite G. unfold AUTOFILL_INPUT_TYPES.
  change (In ty ["email"; "tel"; "url"; "password"])
    with ("email" = ty \/ "tel" = ty \/ "url" = ty \/ "password" = ty \/ False).
  change (In ty ["email"; "tel"; "url"])
    with ("email" = ty \/ "tel" = ty \/ "url" = ty \/ False).
  assert (P : ty <> "password" <-> ~ "password" = ty) by (split; congruence).
  rewrite P. tauto.
Qed.

Lemma low_exactly_when_witness :
  Low = Low <->
  toLowerCase "weird" <> EmptyString
  /\ (In (toLowerCase "weird") SAFE_AUTOCOMPLETE_VALUES
      \/ (~ In (toLowerCase "weird") AUTOCOMPLETE_VALUES_THAT_TRIGGER
          /\ EmptyString = EmptyString))
  /\ ~ In (toLowerCase "text") ["email"; "tel"; "url"; "password"]
  /\ (forall k, In k AUTOFILL_KEYWORDS -> includes (toLowerCase EmptyString) k = false)
  /\ (forall k, In k AUTOFILL_KEYWORDS -> includes (toLowerCase EmptyString) k = false).
Proof.
  apply (low_exactly_when unknownAutocomplete
           {| riskLevel := Low; risks := [];
              attributes := {| at_tagName := "input"; at_type := "text";
                               at_name := EmptyString; at_id := EmptyString;
                               at_autocomplete := "weird";
                               at_placeholder := EmptyString |} |}).
  reflexivity.
Defined.

(** *** Letter case *)

(** Two findings with the same level and the same sequence of kinds. *)
Definition similar (f g : Findings) : Prop :=
  f_level f = f_level g /\ map r_type (f_risks f) = map r_type (f_risks g).

Lemma similar_push r r' f g :
  r_type r = r_type r' -> similar f g -> similar (push r f) (push r' g).
Proof.
  intros T [L K]. split; [exact L |].
  cbn [push f_risks]. rewrite !map_app, K. cbn [map]. now rewrite T.
Qed.

Lemma similar_setLevel l f g : similar f g -> similar (setLevel l f) (setLevel l g).
Proof. intros [L K]. split; [reflexivity | exact K]. Qed.

Lemma similar_lowToMedium f g : similar f g -> similar (lowToMedium f) (lowToMedium g).
Proof.
  intros [L K]. unfold lowToMedium. rewrite <- L.
  destruct (f_level f) eqn:E; split; cbn [setLevel f_level f_risks];
    try reflexivity; try assumption; congruence.
Qed.

Lemma checkAutocomplete_similar ac ac' nac f g :
  similar f g -> similar (checkAutocomplete ac nac f) (checkAutocomplete ac' nac g).
Proof.
  intros S. unfold checkAutocomplete.
  destruct (truthy nac); cbn [negb];
    [destruct (arrayIncludes SAFE_AUTOCOMPLETE_VALUES nac);
     [| destruct (arrayIncludes AUTOCOMPLETE_VALUES_THAT_TRIGGER nac)] |];
    auto using similar_push, similar_setLevel.
Qed.

Lemma checkType_similar ty ty' nty f g :
  similar f g -> similar (checkType ty nty f) (checkType ty' nty g).
Proof.
  intros S. unfold checkType.
  destruct (arrayIncludes AUTOFILL_INPUT_TYPES nty);
    [auto using similar_push, similar_setLevel |].
  destruct (String.eqb nty "password"); [| exact S].
  assert (S' : similar (push passwordWarning f) (push passwordWarning g))
    by now apply similar_push.
  pose proof S' as [L' _]. rewrite <- L'.
  destruct (f_level (push passwordWarning f));
    [apply similar_setLevel | apply similar_setLevel |]; exact S'.
Qed.

Lemma checkName_similar n n' nn f g :
  similar f g -> similar (checkName n nn f) (checkName n' nn g).
Proof.
  intros S. unfold checkName. destruct (firstKeyword nn); [| exact S].
  now apply similar_lowToMedium, similar_push.
Qed.

Lemma checkId_similar i i' ni f g :
  similar f g -> similar (checkId i ni f) (checkId i' ni g).
Proof.
  intros S. unfold checkId. destruct (firstKeyword ni); [| exact S].
  now apply similar_lowToMedium, similar_push.
Qed.

Lemma checkPlaceholder_similar np f g :
  similar f g -> similar (checkPlaceholder np f) (checkPlaceholder np g).
Proof.
  intros S. unfold checkPlaceholder. destruct (firstKeyword np); [| exact S].
  now apply similar_push.
Qed.

Lemma checkLabel_similar nl f g :
  similar f g -> similar (checkLabel nl f) (checkLabel nl g).
Proof.
  intros S. unfold checkLabel. destruct (firstKeyword nl); [| exact S].
  now apply similar_push.
Qed.

Lemma checkFormHistory_similar nn nac f g :
  similar f g -> similar (checkFormHistory nn nac f) (checkFormHistory nn nac g).
Proof.
  intros S. unfold checkFormHistory. destruct (formHistoryApplies nn nac); [| exact S].
  now apply similar_lowToMedium, similar_push.
Qed.

(** Two attribute combinations that are equal up to letter case. *)
Definition sameUpToCase (a b : FieldAttributes) : Prop :=
  toLowerCase (valueOr EmptyString (tagName a)) = toLowerCase (valueOr EmptyString (tagName b))
  /\ toLowerCase (valueOr "text" (type a)) = toLowerCase (valueOr "text" (type b))
  /\ toLowerCase (valueOr EmptyString (name a)) = toLowerCase (valueOr EmptyString (name b))
  /\ toLowerCase (valueOr EmptyString (id a)) = toLowerCase (valueOr EmptyString (id b))
  /\ toLowerCase (valueOr EmptyString (autocomplete a))
     = toLowerCase (valueOr EmptyString (autocomplete b))
  /\ toLowerCase (valueOr EmptyString (placeholder a))
     = toLowerCase (valueOr EmptyString (placeholder b))
  /\ toLowerCase (valueOr EmptyString (labelText a))
     = toLowerCase (valueOr EmptyString (labelText b)).

(** What two results have in common when they agree on everything but the
    wording of the messages. *)
Definition sameOutcome (r r' : Completion (option Verdict)) : Prop :=
  match r, r' with
  | Return None, Return None => True
  | Return (Some v), Return (Some w) =>
      riskLevel v = riskLevel w
      /\ map r_type (risks v) = map r_type (risks w)
      /\ at_tagName (attributes v) = at_tagName (attributes w)
      /\ at_type (attributes v) = at_type (attributes w)
  | _, _ => False
  end.

(** All comparisons ignore letter case: attribute combinations that differ
    only in letter case are both skipped or get verdicts with the same
    level, the same sequence of finding kinds and the same normalised tag
    name and type. *)
Theorem analysis_ignores_case (a b : FieldAttributes) :
  sameUpToCase a b ->
  sameOutcome (analyzeFieldAttributes (attrsOf a)) (analyzeFieldAttributes (attrsOf b)).
Proof.
  intros (Et & Ety & En & Ei & Eac & Ep & El). rewrite !analyze_attrsOf.
  unfold sameOutcome, analyzeStrings. rewrite Et, Ety.
  destruct (arrayIncludes SKIP_INPUT_TYPES _); [exact I |].
  destruct (String.eqb _ "select"); [exact I |].
  cbn [riskLevel risks attributes at_tagName at_type].
  rewrite En, Ei, Eac, Ep, El.
  assert (S : similar
    (checkFormHistory (toLowerCase (valueOr EmptyString (name b)))
       (toLowerCase (valueOr EmptyString (autocomplete b)))
       (checkLabel (toLowerCase (valueOr EmptyString (labelText b)))
          (checkPlaceholder (toLowerCase (valueOr EmptyString (placeholder b)))
             (checkId (valueOr EmptyString (id a)) (toLowerCase (valueOr EmptyString (id b)))
                (checkName (valueOr EmptyString (name a))
                   (toLowerCase (valueOr EmptyString (name b)))
                   (checkType (valueOr "text" (type a)) (toLowerCase (valueOr "text" (type b)))
                      (checkAutocomplete (valueOr EmptyString (autocomplete a))
                         (toLowerCase (valueOr EmptyString (autocomplete b)))
                         {| f_risks := []; f_level := Low |})))))))
    (checkFormHistory (toLowerCase (valueOr EmptyString (name b)))
       (toLowerCase (valueOr EmptyString (autocomplete b)))
       (checkLabel (toLowerCase (valueOr EmptyString (labelText b)))
          (checkPlaceholder (toLowerCase (valueOr EmptyString (placeholder b)))
             (checkId (valueOr EmptyString (id b)) (toLowerCase (valueOr EmptyString (id b)))
                (checkName (valueOr EmptyString (name b))
                   (toLowerCase (valueOr EmptyString (name b)))
                   (checkType (valueOr "text" (type b)) (toLowerCase (valueOr "text" (type b)))
                      (checkAutocomplete (valueOr EmptyString (autocomplete b))
                         (toLowerCase (valueOr EmptyString (autocomplete b)))
                         {| f_risks := []; f_level := Low |})))))))).
  { apply checkFormHistory_similar, checkLabel_similar, checkPlaceholder_similar,
      checkId_similar, checkName_similar, checkType_similar, checkAutocomplete_similar.
    split; reflexivity. }
  destruct S as [L K]. repeat split; assumption.
Qed.

Lemma analysis_ignores_case_witness :
  sameOutcome (analyzeFieldAttributes (attrsOf upperCaseEmail))
    (analyzeFieldAttributes (attrsOf lowerCaseEmail)).
Proof.
  apply (analysis_ignores_case upperCaseEmail lowerCaseEmail).
  repeat split; reflexivity.
Defined.

End AnalysisMore.

(** ** Properties of the HTML escaping *)

Module HtmlFacts.
Import Js Html StringFacts.

Lemma chars_append a b : chars (a +:+ b) = chars a ++ chars b.
Proof.
  unfold chars. induction a as [| c r IH]; [reflexivity |].
  rewrite append_String. simpl. now rewrite IH.
Qed.

(** The five entities, each with the character it stands for. *)
Definition entities : list (ascii * string) :=
  [("&"%char, "&amp;"); ("<"%char, "&lt;"); (">"%char, "&gt;");
   ("034"%char, "&quot;"); ("'"%char, "&#39;")].

Lemma escapeMap_Some c e : escapeMap c = Some e -> In (c, e) entities.
Proof.
  unfold escapeMap, entities.
  repeat match goal with
         | |- context [Ascii.eqb c ?k] =>
             destruct (Ascii.eqb c k) eqn:?;
             [match goal with H : Ascii.eqb c k = true |- _ =>
                apply Ascii.eqb_eq in H; subst c end;
              intros E; injection E as <-; simpl; tauto |]
         end.
  discriminate.
Qed.

Lemma escapeMap_None c :
  escapeMap c = None -> c <> "&"%char /\ ~ In c markupChars.
Proof.
  unfold escapeMap, markupChars.
  repeat match goal with
         | |- context [Ascii.eqb c ?k] =>
             destruct (Ascii.eqb c k) eqn:?; [discriminate |]
         end.
  intros _.
  repeat match goal with
         | H : Ascii.eqb c _ = false |- _ => apply Ascii.eqb_neq in H
         end.
  split; [assumption |]. simpl. intros [E | [E | [E | [E | []]]]]; congruence.
Qed.

Lemma entity_no_markup c e m :
  In (c, e) entities -> In m markupChars -> ~ In m (chars e).
Proof.
  unfold entities, markupChars. intros I M.
  repeat (destruct I as [I | I]; [injection I as <- <- |]); try destruct I;
    repeat (destruct M as [<- | M]; [simpl; intuition discriminate |]); destruct M.
Qed.

Lemma replaceSpecial_no_markup s m :
  In m markupChars -> ~ In m (chars (replaceSpecial s)).
Proof.
  intros M. induction s as [| c r IH]; [intros [] |].
  cbn [replaceSpecial]. destruct (escapeMap c) as [e|] eqn:E.
  - rewrite chars_append. intros I. apply in_app_or in I. destruct I as [I | I].
    + exact (entity_no_markup c e m (escapeMap_Some c e E) M I).
    + now apply IH.
  - apply escapeMap_None in E. destruct E as [_ N].
    intros [<- | I]; [now apply N | now apply IH].
Qed.

(** The escaped text holds no angle bracket and no quote character,
    whatever the argument is, so it cannot close or open a tag or an
    attribute value where it is inserted. *)
Theorem escapeHtml_no_markup (str : option string) (m : ascii) :
  In m ["<"; ">"; "034"; "'"]%char -> ~ In m (chars (escapeHtml str)).
Proof.
  intros M. destruct str as [s|]; [| intros []].
  unfold escapeHtml. destruct (truthy s); cbn [negb]; [| intros []].
  now apply replaceSpecial_no_markup.
Qed.

Lemma escapeHtml_no_markup_witness :
  ~ In "<"%char (chars (escapeHtml (Some "<script>"))).
Proof.
  apply (escapeHtml_no_markup (Some "<script>") "<"%char). now left.
Defined.

Lemma replaceSpecial_head c r :
  (exists e, In (c, e) entities /\ replaceSpecial (String c r) = e +:+ replaceSpecial r)
  \/ (c <> "&"%char /\ replaceSpecial (String c r) = String c (replaceSpecial r)).
Proof.
  cbn [replaceSpecial]. destruct (escapeMap c) as [e|] eqn:E.
  - left. exists e. split; [now apply escapeMap_Some | reflexivity].
  - right. apply escapeMap_None in E. tauto.
Qed.

Ltac entity_cases I :=
  unfold entities in I;
  repeat (destruct I as [I | I]; [injection I as <- <- |]); try destruct I.

Lemma replaceSpecial_injective s t :
  replaceSpecial s = replaceSpecial t -> s = t.
Proof.
  revert t. induction s as [| c r IH]; intros [| d u] H.
  - reflexivity.
  - exfalso. destruct (replaceSpecial_head d u) as [(e & I & E) | [_ E]];
      rewrite E in H; [entity_cases I |]; discriminate H.
  - exfalso. destruct (replaceSpecial_head c r) as [(e & I & E) | [_ E]];
      rewrite E in H; [entity_cases I |]; discriminate H.
  - destruct (replaceSpecial_head c r) as [(e & I & E) | [Nc E]];
      destruct (replaceSpecial_head d u) as [(e' & I' & E') | [Nd E']];
      rewrite E, E' in H.
    + entity_cases I; entity_cases I';
        rewrite ?append_String, ?append_Empty in H;
        try discriminate H; injection H as H; f_equal; now apply IH.
    + exfalso. entity_cases I; rewrite ?append_String in H;
        injection H as H _; congruence.
    + exfalso. entity_cases I'; rewrite ?append_String in H;
        injection H as H _; congruence.
    + injection H as -> H. f_equal. now apply IH.
Qed.

(** Escaping loses nothing: two different texts never have the same
    escaped form. *)
Theorem escapeHtml_injective (s t : string) :
  escapeHtml (Some s) = escapeHtml (Some t) -> s = t.
Proof.
  unfold escapeHtml.
  destruct s as [| c r], t as [| d u]; cbn [truthy negb]; intros H.
  - reflexivity.
  - exfalso. destruct (replaceSpecial_head d u) as [(e & I & E) | [_ E]];
      rewrite E in H; [entity_cases I |]; discriminate H.
  - exfalso. destruct (replaceSpecial_head c r) as [(e & I & E) | [_ E]];
      rewrite E in H; [entity_cases I |]; discriminate H.
  - now apply replaceSpecial_injective.
Qed.

Lemma escapeHtml_injective_witness : "a<b" = "a<b".
Proof. apply (escapeHtml_injective "a<b" "a<b"). reflexivity. Defined.

End HtmlFacts.

(** ** Properties of the payload validation *)

Module PayloadsFacts.
Import Js Payloads.

Lemma checkCategories_Returns es :
  checkCategories es = Returns <-> Forall (fun m => isArray (snd m) = true) es.
Proof.
  induction es as [| [category items] rest IH]; simpl.
  - split; [constructor | reflexivity].
  - destruct (isArray items) eqn:A; cbn [negb].
    + rewrite IH. split; [intros H; constructor; assumption |].
      intros H. now inversion H.
    + split; [discriminate |]. intros H. inversion H as [| ? ? Hd _]; subst.
      simpl in Hd. congruence.
Qed.

Lemma indexed_arrays i items :
  Forall (fun m => isArray (snd m) = true) (indexed i items)
  <-> Forall (fun x => isArray x = true) items.
Proof.
  revert i. induction items as [| x rest IH]; intros i; simpl.
  - split; constructor.
  - split; intros H; inversion H; subst; constructor; try assumption;
      now apply (IH (S i)).
Qed.

Lemma indexed_length i items : length (indexed i items) = length items.
Proof. revert i. induction items as [| x rest IH]; intros i; simpl; [| rewrite IH]; reflexivity. Qed.

(** The validation accepts exactly the objects that have at least one
    member and whose members are all arrays, and, because an array is an
    object too, the non-empty arrays whose elements are all arrays; every
    other value makes it throw. *)
Theorem validatePayloads_accepts (data : Json) :
  validatePayloads data = Returns <->
  (exists members, data = JObject members /\ members <> []
                   /\ Forall (fun m => isArray (snd m) = true) members)
  \/ (exists items, data = JArray items /\ items <> []
                    /\ Forall (fun x => isArray x = true) items).
Proof.
  unfold validatePayloads. destruct data as [| b | n | s | items | members].
  - split; [discriminate | intros [(m & E & _) | (i & E & _)]; discriminate].
  - cbn [truthyJson isObjectType negb]. rewrite orb_true_r.
    split; [discriminate | intros [(m & E & _) | (i & E & _)]; discriminate].
  - cbn [truthyJson isObjectType negb]. rewrite orb_true_r.
    split; [discriminate | intros [(m & E & _) | (i & E & _)]; discriminate].
  - cbn [truthyJson isObjectType negb]. rewrite orb_true_r.
    split; [discriminate | intros [(m & E & _) | (i & E & _)]; discriminate].
  - cbn [truthyJson isObjectType negb orb entries]. rewrite indexed_length.
    destruct items as [| x rest]; cbn [length Nat.eqb].
    + split; [discriminate |].
      intros [(m & E & _) | (i & E & N & _)]; [discriminate | injection E as <-; congruence].
    + rewrite checkCategories_Returns, indexed_arrays. split.
      * intros H. right. exists (x :: rest). split; [reflexivity | split; [discriminate | exact H]].
      * intros [(m & E & _) | (i & E & _ & H)]; [discriminate | now injection E as <-].
  - cbn [truthyJson isObjectType negb orb entries].
    destruct members as [| m rest]; cbn [length Nat.eqb].
    + split; [discriminate |].
      intros [(m & E & N & _) | (i & E & _)]; [injection E as <-; congruence | discriminate].
    + rewrite checkCategories_Returns. split.
      * intros H. left. exists (m :: rest). split; [reflexivity | split; [discriminate | exact H]].
      * intros [(m' & E & _ & H) | (i & E & _)]; [now injection E as <- | discriminate].
Qed.

(** When a member of the object is not an array, the error names the first
    such member, in the order of the entries, as the offending category. *)
Theorem validatePayloads_names_first_bad_category
    (good rest : list (string * Json)) (category : string) (value : Json) :
  Forall (fun m => isArray (snd m) = true) good ->
  isArray value = false ->
  validatePayloads (JObject (good ++ (category, value) :: rest))
  = Throws (categoryError category).
Proof.
  intros G B. unfold validatePayloads.
  cbn [truthyJson isObjectType negb orb entries].
  assert (L : (length (good ++ (category, value) :: rest) =? 0)%nat = false).
  { apply Nat.eqb_neq. rewrite length_app. simpl. lia. }
  rewrite L. clear L.
  induction G as [| [c v] good Hv _ IH]; simpl.
  - now rewrite B.
  - simpl in Hv. now rewrite Hv.
Qed.

Lemma validatePayloads_names_first_bad_category_witness :
  validatePayloads
    (JObject ([("Emails", JArray [])] ++ ("SQL", JString "x") :: [("XSS", JNull)]))
  = Throws (categoryError "SQL").
Proof.
  apply (validatePayloads_names_first_bad_category
           [("Emails", JArray [])] [("XSS", JNull)] "SQL" (JString "x")).
  - repeat constructor.
  - reflexivity.
Defined.

End PayloadsFacts.

(** ** The colour of the badge after a reconciliation *)

Module BadgeFacts.
Import Dom DomFacts Overlay OverlayFacts Badge.

Lemma count_positive (p : Node -> bool) (l : list Node) :
  (0 < count p l)%Z <-> exists o, In o l /\ p o = true.
Proof.
  unfold count. induction l as [| x l IH]; simpl.
  - split; [lia | intros (o & [] & _)].
  - destruct (p x) eqn:P; simpl.
    + split; [intros _; exists x; tauto | lia].
    + rewrite IH. split; intros (o & I & Po).
      * exists o. tauto.
      * destruct I as [<- | I]; [congruence | exists o; tauto].
Qed.

Lemma reconcileStats_fieldStats st :
  fieldStats (reconcileStats st)
  = recount (querySelectorAll "autofill-detector-overlay" (body st)).
Proof.
  unfold reconcileStats. rewrite actualStats_recount.
  destruct (drifted _ _) eqn:D; [reflexivity | now apply drifted_false in D].
Qed.

(** After a reconciliation the badge is red exactly when some overlay of
    the document has the high-risk class, orange exactly when none has it
    and some overlay has the medium-risk class, and green otherwise. *)
Theorem badge_colour_after_reconcile (st : State) :
  let overlays := querySelectorAll "autofill-detector-overlay" (body st) in
  let colour := getBadgeColor (Some (fieldStats (reconcileStats st))) in
  (colour = red <-> exists o, In o overlays /\ hasClass "autofill-risk-high" o = true)
  /\ (colour = orange <->
      (forall o, In o overlays -> hasClass "autofill-risk-high" o = false)
      /\ exists o, In o overlays /\ hasClass "autofill-risk-medium" o = true)
  /\ (colour = green <->
      forall o, In o overlays ->
        hasClass "autofill-risk-high" o = false
        /\ hasClass "autofill-risk-medium" o = false).
Proof.
  cbv zeta. rewrite reconcileStats_fieldStats.
  set (overlays := querySelectorAll _ _).
  unfold getBadgeColor, recount. cbn [high medium].
  pose proof (count_positive isHigh overlays) as H.
  pose proof (count_positive isMedium overlays) as M.
  unfold isHigh, isMedium in *.
  assert (NH : ~ (exists o, In o overlays /\ hasClass "autofill-risk-high" o = true) ->
               forall o, In o overlays -> hasClass "autofill-risk-high" o = false).
  { intros N o I. destruct (hasClass "autofill-risk-high" o) eqn:E; [| reflexivity].
    exfalso. apply N. exists o. tauto. }
  destruct (0 <? count _ overlays)%Z eqn:CH.
  - apply Z.ltb_lt in CH. apply H in CH. destruct CH as (o & I & Ho).
    split; [split; [intros _; exists o; tauto | reflexivity] |].
    split; (split; [discriminate |]).
    + intros [N _]. rewrite (N o I) in Ho. discriminate.
    + intros N. destruct (N o I) as [N1 _]. congruence.
  - apply Z.ltb_ge in CH.
    assert (N : ~ (exists o, In o overlays /\ hasClass "autofill-risk-high" o = true)).
    { intros E. apply H in E. lia. }
    specialize (NH N).
    split.
    { split; [destruct (0 <? count _ overlays)%Z; discriminate |].
      intros (o & I & Ho). rewrite (NH o I) in Ho. discriminate. }
    destruct (0 <? count _ overlays)%Z eqn:CM.
    + apply Z.ltb_lt in CM. apply M in CM. destruct CM as (o & I & Mo).
      apply andb_true_iff in Mo. destruct Mo as [_ Mo].
      split; [split; [intros _; split; [exact NH | exists o; tauto] | reflexivity] |].
      split; [discriminate |]. intros G. destruct (G o I). congruence.
    + apply Z.ltb_ge in CM.
      assert (NM : forall o, In o overlays -> hasClass "autofill-risk-medium" o = false).
      { intros o I. destruct (hasClass "autofill-risk-medium" o) eqn:E; [| reflexivity].
        exfalso. apply Z.lt_nge in CM; [exact CM |].
        apply M. exists o. split; [exact I |]. now rewrite (NH o I), E. }
      split; [split; [discriminate |] | split; [intros _; auto | reflexivity]].
      intros [_ (o & I & Mo)]. rewrite (NM o I) in Mo. discriminate.
Qed.

End BadgeFacts.

(** ** More on the list of recently used payloads *)

Module RecentMore.
Import Recent.

(** The entries of the old list that are kept: all but the one with the
    category and index of the new entry. *)
Definition kept (category : string) (index : Z) (entries : list Payload) : list Payload :=
  List.filter (fun r => negb (sameEntry category index r)) entries.

(** The contents of the returned array. *)
Definition updated (category : string) (index : Z) (value : string)
    (entries : list Payload) : list Payload :=
  firstn MAX_RECENT
    ({| category := category; index := index; value := value |}
       :: kept category index entries).

Lemma fresh_not_in (s : Store) r xs : s !! r = Some xs -> fresh (dom s) <> r.
Proof.
  intros L E. pose proof (is_fresh (dom s)) as F. rewrite E in F.
  apply F. apply elem_of_dom. now exists xs.
Qed.

Lemma addToRecentList_run (s : Store) recentPayloads entries category index value :
  s !! recentPayloads = Some entries ->
  exists result s',
    addToRecentList recentPayloads category index value s = Some (result, s')
    /\ s' !! result = Some (updated category index value entries)
    /\ forall r xs, s !! r = Some xs -> s' !! r = Some xs.
Proof.
  intros Hs. unfold updated.
  set (new := {| category := category; index := index; value := value |}).
  set (k := kept category index entries).
  set (r1 := fresh (dom s)).
  set (s1 := <[r1 := new :: k]> (<[r1 := k]> s)).
  assert (Hs1r : s1 !! r1 = Some (new :: k)).
  { unfold s1. now rewrite lookup_insert_eq. }
  assert (F1 : forall r xs, s !! r = Some xs -> s1 !! r = Some xs).
  { intros r xs L. unfold s1. pose proof (fresh_not_in s r xs L) as N. fold r1 in N.
    now rewrite !lookup_insert_ne. }
  unfold addToRecentList, arrayFilter, arrayUnshift, arrayLength,
    arraySliceFromStart, bind, read, newArray, ret.
  rewrite Hs. cbv beta iota zeta. fold (kept category index entries). fold k.
  change (fresh (dom s)) with r1.
  rewrite lookup_insert_eq. fold new. fold s1. rewrite Hs1r.
  destruct (MAX_RECENT <? length (new :: k))%nat eqn:L.
  - rewrite Hs1r. set (r2 := fresh (dom s1)).
    exists r2, (<[r2 := firstn MAX_RECENT (new :: k)]> s1).
    split; [reflexivity |]. split; [apply lookup_insert_eq |].
    intros r xs Lr. apply F1 in Lr.
    pose proof (fresh_not_in s1 r xs Lr) as N. fold r2 in N.
    now rewrite lookup_insert_ne.
  - apply Nat.ltb_ge in L. exists r1, s1.
    split; [reflexivity |]. split; [| exact F1].
    rewrite Hs1r. f_equal. symmetry. now apply firstn_all2.
Qed.

(** The returned array holds the new entry followed by the entries of
    the old list other than the one with the same category and index, in
    their old order, cut to five entries; every array that was in the store
    before the call, the argument among them, still holds what it held. *)
Theorem addToRecentList_contents
    (s : Store) (recentPayloads : Ref) (entries : list Payload)
    (category : string) (index : Z) (value : string) :
  s !! recentPayloads = Some entries ->
  exists result s',
    addToRecentList recentPayloads category index value s = Some (result, s')
    /\ s' !! result
       = Some (firstn 5
                 ({| category := category; index := index; value := value |}
                    :: List.filter (fun r => negb (sameEntry category index r)) entries))
    /\ forall r xs, s !! r = Some xs -> s' !! r = Some xs.
Proof. intros Hs. exact (addToRecentList_run s recentPayloads entries category index value Hs). Qed.

Lemma addToRecentList_contents_witness :
  exists result s',
    addToRecentList 0 "xss" 3%Z "again" sampleStore = Some (result, s')
    /\ s' !! result
       = Some (firstn 5
                 ({| category := "xss"; index := 3%Z; value := "again" |}
                    :: List.filter (fun r => negb (sameEntry "xss" 3%Z r)) sampleEntries))
    /\ forall r xs, sampleStore !! r = Some xs -> s' !! r = Some xs.
Proof.
  apply (addToRecentList_contents sampleStore 0 sampleEntries "xss" 3%Z "again").
  reflexivity.
Defined.

Lemma filter_firstn_kept {A} (p : A -> bool) n (l : list A) :
  List.filter p (firstn n (List.filter p l)) = firstn n (List.filter p l).
Proof.
  apply forallb_filter_id. apply forallb_forall. intros x I.
  assert (I' : In x (List.filter p l)).
  { rewrite <- (firstn_skipn n (List.filter p l)). apply in_or_app. now left. }
  apply List.filter_In in I'. tauto.
Qed.

Lemma sameEntry_new category index value :
  sameEntry category index
    {| category := category; index := index; value := value |} = true.
Proof. unfold sameEntry. cbn. now rewrite String.eqb_refl, Z.eqb_refl. Qed.

Lemma updated_twice category index value entries :
  updated category index value (updated category index value entries)
  = updated category index value entries.
Proof.
  unfold updated, kept, MAX_RECENT. cbn [firstn List.filter].
  rewrite sameEntry_new. cbn [negb].
  rewrite filter_firstn_kept. f_equal.
  apply take_idemp.
Qed.

(** Using the same payload twice in a row gives the same list as using
    it once: the second call finds the entry at the front, removes it and
    puts it back. *)
Theorem addToRecentList_same_payload_twice
    (s : Store) (recentPayloads : Ref) (entries : list Payload)
    (category : string) (index : Z) (value : string) :
  s !! recentPayloads = Some entries ->
  exists first s1 second s2 once,
    addToRecentList recentPayloads category index value s = Some (first, s1)
    /\ addToRecentList first category index value s1 = Some (second, s2)
    /\ s1 !! first = Some once
    /\ s2 !! second = Some once
    /\ s2 !! first = Some once.
Proof.
  intros Hs.
  destruct (addToRecentList_run s recentPayloads entries category index value Hs)
    as (first & s1 & R1 & L1 & _).
  destruct (addToRecentList_run s1 first _ category index value L1)
    as (second & s2 & R2 & L2 & F2).
  exists first, s1, second, s2, (updated category index value entries).
  rewrite updated_twice in L2.
  split; [exact R1 |]. split; [exact R2 |]. split; [exact L1 |].
  split; [exact L2 | exact (F2 first _ L1)].
Qed.

Lemma addToRecentList_same_payload_twice_witness :
  exists first s1 second s2 once,
    addToRecentList 0 "xss" 3%Z "again" sampleStore = Some (first, s1)
    /\ addToRecentList first "xss" 3%Z "again" s1 = Some (second, s2)
    /\ s1 !! first = Some once
    /\ s2 !! second = Some once
    /\ s2 !! first = Some once.
Proof.
  apply (addToRecentList_same_payload_twice sampleStore 0 sampleEntries "xss" 3%Z "again").
  reflexivity.
Defined.

End RecentMore.

(** ** More on payload injection *)

Module InjectMore.
Import Js Analysis Inject InjectFacts StringFacts.

Lemma toUpperCaseChar_toLowerCaseChar c :
  toUpperCaseChar (toLowerCaseChar c) = toUpperCaseChar c.
Proof. destruct c as [[] [] [] [] [] [] [] []]; reflexivity. Qed.

Lemma toUpperCase_toLowerCase s : toUpperCase (toLowerCase s) = toUpperCase s.
Proof.
  induction s as [| c r IH]; [reflexivity |].
  cbn [toLowerCase toUpperCase]. now rewrite toUpperCaseChar_toLowerCaseChar, IH.
Qed.

Lemma toUpperCase_same s t : toLowerCase s = toLowerCase t -> toUpperCase s = toUpperCase t.
Proof.
  intros E. rewrite <- (toUpperCase_toLowerCase s), <- (toUpperCase_toLowerCase t).
  now rewrite E.
Qed.

(** Whether an element is injectable does not depend on the letter case
    of its tag name and of its type. *)
Theorem isInjectableElement_ignores_case (a b : ElementInfo) :
  i_isContentEditable a = i_isContentEditable b ->
  toLowerCase (orElse (i_tagName a) EmptyString)
  = toLowerCase (orElse (i_tagName b) EmptyString) ->
  toLowerCase (orElse (i_type a) "text") = toLowerCase (orElse (i_type b) "text") ->
  isInjectableElement (Some a) = isInjectableElement (Some b).
Proof.
  intros C T Ty. unfold isInjectableElement.
  rewrite C, (toUpperCase_same _ _ T), Ty. reflexivity.
Qed.

Lemma isInjectableElement_ignores_case_witness :
  isInjectableElement
    (Some {| i_tagName := Some "input"; i_type := Some "EMAIL";
             i_isContentEditable := false |})
  = isInjectableElement
      (Some {| i_tagName := Some "INPUT"; i_type := Some "email";
               i_isContentEditable := false |}).
Proof.
  apply (isInjectableElement_ignores_case
           {| i_tagName := Some "input"; i_type := Some "EMAIL";
              i_isContentEditable := false |}
           {| i_tagName := Some "INPUT"; i_type := Some "email";
              i_isContentEditable := false |}); reflexivity.
Defined.

(** What an injection leaves as it is: everything but the edited text. *)
Definition sameField (e e' : Element) : Prop :=
  tagName e' = tagName e /\ typeAttribute e' = typeAttribute e
  /\ isContentEditable e' = isContentEditable e
  /\ disabled e' = disabled e /\ readOnly e' = readOnly e
  /\ valueSanitization e' = valueSanitization e.

Lemma inject_sameField assign p e :
  activeElement p = Some e ->
  exists e', activeElement (inject assign p) = Some e' /\ sameField e e'.
Proof.
  intros E. unfold inject, sameField.
  destruct (isInjectable (activeElement p)); cbn [negb].
  - rewrite E. destruct (disabled e || readOnly e).
    + exists e. cbn. rewrite E. tauto.
    + destruct (isContentEditable e) eqn:C; cbn; rewrite E; cbn; eexists;
        (split; [reflexivity |]); cbn; rewrite ?C; tauto.
  - exists e. cbn. rewrite E. tauto.
Qed.

Lemma sameField_writable p p' e e' :
  activeElement p = Some e -> activeElement p' = Some e' -> sameField e e' ->
  writable p -> writable p'.
Proof.
  intros E E' (T & Ty & C & D & R & _) (e0 & E0 & K & D0 & R0).
  rewrite E in E0. injection E0 as <-.
  exists e'. split; [exact E' |]. unfold injectableKind in *.
  rewrite T, Ty, C, D, R. tauto.
Qed.

Lemma sameField_assigned e e' v : sameField e e' -> assigned e' v = assigned e v.
Proof. intros (_ & _ & C & _ & _ & V). unfold assigned. now rewrite C, V. Qed.

(** An injection leaves the field writable, so that the commands can
    follow each other: after a replace-value command with one payload and
    an append-value command with another, the text of the field is what the
    element keeps of the text it kept of the first payload, followed by the
    second; for a content-editable element that is the first payload
    followed by the second.  Each command has dispatched its two events
    and answered with success. *)
Theorem fill_then_append (p : Page) (first second : string) :
  writable p ->
  let p1 := onMessage (fillField first) p in
  let p2 := onMessage (appendField second) p1 in
  writable p1
  /\ exists e e2,
       activeElement p = Some e
       /\ activeElement p2 = Some e2
       /\ editableText e2 = assigned e (assigned e first +:+ second)
       /\ (isContentEditable e = true -> editableText e2 = first +:+ second)
       /\ effects p2 =
          effects p ++ [DispatchEvent "input"; DispatchEvent "change"; SendResponse success;
                        DispatchEvent "input"; DispatchEvent "change"; SendResponse success].
Proof.
  intros W. cbv zeta. cbn [onMessage].
  destruct (W) as (e & E & _).
  destruct (inject_done (fun _ => first) p e E W) as (e1 & E1 & T1 & X1).
  destruct (inject_sameField (fun _ => first) p e E) as (e1' & E1' & S1).
  rewrite E1 in E1'. injection E1' as <-.
  assert (W1 : writable (inject (fun _ => first) p)).
  { exact (sameField_writable p _ e e1 E E1 S1 W). }
  split; [exact W1 |].
  destruct (inject_done (fun old => old +:+ second) _ e1 E1 W1) as (e2 & E2 & T2 & X2).
  assert (T : editableText e2 = assigned e (assigned e first +:+ second)).
  { now rewrite T2, T1, (sameField_assigned e e1 _ S1). }
  exists e, e2. split; [exact E |]. split; [exact E2 |]. split; [exact T |].
  split.
  - intros C. rewrite T. unfold assigned. now rewrite C.
  - rewrite X2, X1, <- app_assoc. reflexivity.
Qed.

Lemma fill_then_append_witness :
  let p1 := onMessage (fillField twoLines) focusedTextInput in
  let p2 := onMessage (appendField "c") p1 in
  writable p1
  /\ exists e e2,
       activeElement focusedTextInput = Some e
       /\ activeElement p2 = Some e2
       /\ editableText e2 = assigned e (assigned e twoLines +:+ "c")
       /\ (isContentEditable e = true -> editableText e2 = twoLines +:+ "c")
       /\ effects p2 =
          effects focusedTextInput
          ++ [DispatchEvent "input"; DispatchEvent "change"; SendResponse success;
              DispatchEvent "input"; DispatchEvent "change"; SendResponse success].
Proof.
  apply (fill_then_append focusedTextInput twoLines "c").
  exists textInput. split; [reflexivity |].
  split; [right; right; split; [reflexivity | simpl; tauto] |].
  split; reflexivity.
Defined.

End InjectMore.

(** ** More on the word scanner *)

Module ScannerMore.
Import Js Dom DomFacts StringFacts WordScanner ScannerFacts.

(** *** No highlight is left behind *)

(** Replacing an element by its text adds no element of a class, and the
    replaced element is gone. *)
Lemma replaceByText_classIds cls el fresh n x :
  In x (classIds cls (replaceByText el fresh n)) ->
  In x (classIds cls n) /\ x <> el.
Proof.
  induction n as [i d | i t cl ti cs IH] using Node_tree_ind; [intros [] |].
  cbn [replaceByText]. destruct (i =? el)%nat eqn:E; [intros [] |].
  apply Nat.eqb_neq in E. rewrite !classIds_Element. intros I.
  apply in_app_or in I. destruct I as [I | I].
  - destruct (existsb (String.eqb cls) cl); [| destruct I].
    destruct I as [<- | []]. split; [now left | exact E].
  - apply in_flat_map in I. destruct I as (c' & Ic' & Ix).
    apply in_map_iff in Ic'. destruct Ic' as (c & <- & Ic).
    rewrite List.Forall_forall in IH. destruct (IH c Ic Ix) as [Ix' Ne].
    split; [| exact Ne]. apply in_or_app. right.
    apply in_flat_map. now exists c.
Qed.

Lemma restoreText_classIds cls st h x :
  In x (flat_map (classIds cls) (document (restoreText st h))) ->
  In x (flat_map (classIds cls) (document st)) /\ x <> h.
Proof.
  unfold restoreText. cbn [document]. intros I.
  apply in_flat_map in I. destruct I as (n' & In' & Ix).
  apply in_map_iff in In'. destruct In' as (n & <- & In_).
  apply replaceByText_classIds in Ix. destruct Ix as [Ix Ne].
  split; [| exact Ne]. apply in_flat_map. now exists n.
Qed.

Lemma restoreAll_classIds cls l st x :
  In x (flat_map (classIds cls) (document (fold_left restoreText l st))) ->
  In x (flat_map (classIds cls) (document st)) /\ ~ In x l.
Proof.
  revert st. induction l as [| h l IH]; intros st; cbn [fold_left].
  - intros I. split; [exact I | intros []].
  - intros I. apply IH in I. destruct I as [I Nl].
    apply restoreText_classIds in I. destruct I as [I Ne].
    split; [exact I |]. intros [E | I']; [now apply Ne | now apply Nl].
Qed.

Lemma removeWordHighlights_classIds st :
  flat_map (classIds "word-scanner-highlight") (document (removeWordHighlights st)) = [].
Proof.
  unfold removeWordHighlights. cbv zeta.
  set (st2 := {| document := _; wordScannerHighlights := []; nextId := _ |}).
  destruct (flat_map _ (document (fold_left _ _ st2))) as [| x r] eqn:E; [reflexivity |].
  exfalso. assert (I : In x (x :: r)) by now left. rewrite <- E in I.
  apply restoreAll_classIds in I. destruct I as [I N]. apply N.
  now rewrite querySelectorAll_ids.
Qed.

(** *** Whole words, for words that begin and end with a word character *)

(** The text holds the word [w] at offset [i], in any letter case. *)
Definition occursAt (text w : string) (i : nat) : bool :=
  String.eqb (toUpperCase (String.substring i (String.length w) text)) (toUpperCase w).

(** The word occurs at offset [i] with no word character before or after
    it. *)
Definition standaloneOccurrence (text w : string) (i : nat) : bool :=
  occursAt text w i
  && negb (isWordBefore text i)
  && negb (isWordAt text (i + String.length w)).

(** The word begins and ends with a word character. *)
Definition wordEdges (w : string) : bool :=
  isWordAt w 0 && isWordBefore w (String.length w).

Lemma substring_S text :
  forall i n,
    String.substring i (S n) text
    = match String.get i text with
      | Some d => String d (String.substring (S i) n text)
      | None => EmptyString
      end.
Proof.
  induction text as [| c r IH]; intros i n; [now destruct i |].
  destruct i as [| i]; [reflexivity |]. exact (IH i n).
Qed.

Lemma substring_0 text : forall i, String.substring i 0 text = EmptyString.
Proof.
  induction text as [| c r IH]; intros i; [now destruct i |].
  destruct i as [| i]; [reflexivity | exact (IH i)].
Qed.

Lemma occursAt_matchesAt w :
  forall text i, occursAt text w i = matchesAt w text i.
Proof.
  unfold occursAt. induction w as [| c r IH]; intros text i;
    [cbn [String.length]; now rewrite substring_0 |].
  cbn [String.length matchesAt]. rewrite substring_S.
  destruct (String.get i text) as [d|]; [| reflexivity].
  cbn [toUpperCase String.eqb]. rewrite IH. unfold sameIgnoringCase.
  now rewrite (Ascii.eqb_sym (toUpperCaseChar d)).
Qed.

Lemma standaloneOccurrence_standaloneAt text w i :
  standaloneOccurrence text w i = standaloneAt text w i.
Proof. unfold standaloneOccurrence, standaloneAt. now rewrite occursAt_matchesAt. Qed.

Lemma matchesAt_isWordAt w :
  forall text s k,
    matchesAt w text s = true -> isWordAt w k = true -> isWordAt text (s + k) = true.
Proof.
  induction w as [| c r IH]; intros text s k M W; [now destruct k |].
  cbn [matchesAt] in M. destruct (String.get s text) as [d|] eqn:G; [| discriminate].
  apply andb_true_iff in M. destruct M as [Mc Mr].
  destruct k as [| k].
  - rewrite Nat.add_0_r. unfold isWordAt in *. rewrite G. cbn in W.
    now rewrite (sameIgnoringCase_word _ _ Mc).
  - replace (s + S k) with (S s + k) by lia. apply (IH text (S s) k Mr). exact W.
Qed.

Lemma wordEdges_nonempty w : wordEdges w = true -> w <> EmptyString.
Proof. now intros H ->. Qed.

(** A match of a word with word characters at both ends has no word
    character before or after it. *)
Lemma matchesAt_edges w text s :
  wordEdges w = true -> matchesAt w text s = true ->
  isWordAt text s = true /\ isWordBefore text (s + String.length w) = true.
Proof.
  unfold wordEdges. intros E M. apply andb_true_iff in E. destruct E as [E0 E1].
  split.
  - rewrite <- (Nat.add_0_r s). exact (matchesAt_isWordAt w text s 0 M E0).
  - destruct (String.length w) as [| n]; [discriminate |].
    replace (s + S n) with (S (s + n)) by lia. cbn [isWordBefore] in *.
    exact (matchesAt_isWordAt w text s n M E1).
Qed.

(** Whole-word matching for lists like the one the extension ships, whose
    words begin and end with a word character.  The scan ends; no
    highlighted run has a word character before or after it, and each is
    an occurrence of a listed word in some letter case; every standalone
    occurrence of a listed word, in any letter case, begins inside a
    highlighted run; and when the listed words consist of word characters
    only, it is exactly one run. *)
Theorem whole_words_are_highlighted (words : list string) (text : string) (st : State) :
  Forall (fun w => wordEdges w = true) words ->
  exists fragments st',
    buildFragments (S (String.length text)) text (buildPattern words) st
    = Some (fragments, st')
    /\ (forall s e, In (s, e) (highlightRuns 0 fragments) ->
          isWordBefore text s = false /\ isWordAt text e = false
          /\ exists w, In w words /\ e = s + String.length w
                       /\ occursAt text w s = true)
    /\ (forall w i, In w words -> standaloneOccurrence text w i = true ->
          exists s e, In (s, e) (highlightRuns 0 fragments) /\ s <= i < e)
    /\ (Forall (fun w => allWordChars w = true) words ->
          forall w i, In w words -> standaloneOccurrence text w i = true ->
            count_occ span_eq_dec (highlightRuns 0 fragments)
              (i, i + String.length w) = 1).
Proof.
  intros G.
  assert (NE : Forall (fun w => w <> EmptyString) words)
    by (eapply List.Forall_impl; [| exact G]; intros w; apply wordEdges_nonempty).
  destruct (whole_word_matching words text st NE)
    as (frags & st' & B & _ & _ & Sound & Complete & Exact).
  exists frags, st'. split; [exact B |].
  rewrite List.Forall_forall in G. split; [| split].
  - intros s e I. destruct (Sound s e I) as (_ & Bs & Be & w & Iw & E & M).
    destruct (matchesAt_edges w text s (G w Iw) M) as [W0 W1].
    unfold wordBoundary in Bs, Be. rewrite W0 in Bs. rewrite E, W1 in Be.
    split; [now destruct (isWordBefore text s) |].
    split; [rewrite E; now destruct (isWordAt text (s + String.length w)) |].
    exists w. split; [exact Iw |]. split; [exact E |]. now rewrite occursAt_matchesAt.
  - intros w i Iw S. rewrite standaloneOccurrence_standaloneAt in S.
    unfold standaloneAt in S. rewrite !andb_true_iff, !negb_true_iff in S.
    destruct S as [[M Bf] Af].
    destruct (matchesAt_edges w text i (G w Iw) M) as [W0 W1].
    pose proof (proj1 (List.Forall_forall _ _) NE w Iw) as Nw.
    destruct (matchesAt_nonempty w text i Nw M) as [_ Li].
    apply Complete; [lia |].
    unfold matchAt, wordBoundary. rewrite Bf, W0. cbn [xorb].
    intros N. pose proof (firstAlternative_None _ _ _ w N Iw) as F.
    rewrite M in F. unfold wordBoundary in F. rewrite Af, W1 in F. discriminate.
  - intros AW w i Iw S. rewrite standaloneOccurrence_standaloneAt in S.
    exact (proj2 (Exact AW) w i Iw S).
Qed.

Lemma whole_words_are_highlighted_witness :
  exists fragments st',
    buildFragments 36 "Partner at Example.COM, partnership"
      (buildPattern ["partner"; "example.com"])
      (singleTextNode "Partner at Example.COM, partnership")
    = Some (fragments, st')
    /\ (forall s e, In (s, e) (highlightRuns 0 fragments) ->
          isWordBefore "Partner at Example.COM, partnership" s = false
          /\ isWordAt "Partner at Example.COM, partnership" e = false
          /\ exists w, In w ["partner"; "example.com"] /\ e = s + String.length w
                       /\ occursAt "Partner at Example.COM, partnership" w s = true)
    /\ (forall w i, In w ["partner"; "example.com"] ->
          standaloneOccurrence "Partner at Example.COM, partnership" w i = true ->
          exists s e, In (s, e) (highlightRuns 0 fragments) /\ s <= i < e)
    /\ (Forall (fun w => allWordChars w = true) ["partner"; "example.com"] ->
          forall w i, In w ["partner"; "example.com"] ->
            standaloneOccurrence "Partner at Example.COM, partnership" w i = true ->
            count_occ span_eq_dec (highlightRuns 0 fragments)
              (i, i + String.length w) = 1).
Proof.
  apply (whole_words_are_highlighted ["partner"; "example.com"]
           "Partner at Example.COM, partnership"
           (singleTextNode "Partner at Example.COM, partnership")).
  repeat constructor.
Defined.

End ScannerMore.

(** ** Properties of the word list of the popup *)

Module PopupFacts.
Import Js Popup StringFacts.

#[local] Arguments DEFAULT_FORBIDDEN_WORDS : simpl never.

(** The characters of a string. *)
Definition chars (s : string) : list ascii := list_ascii_of_string s.

Definition commaFree (w : string) : Prop := ~ In ","%char (chars w).

(** A word as the popup stores it: not empty, no white space around it,
    no capital letter, no comma. *)
Definition clean (w : string) : Prop :=
  w <> EmptyString /\ trim w = w /\ toLowerCase w = w /\ commaFree w.

(** *** Characters *)

Lemma isWhiteSpace_toLowerCaseChar c : isWhiteSpace (toLowerCaseChar c) = isWhiteSpace c.
Proof. destruct c as [[] [] [] [] [] [] [] []]; reflexivity. Qed.

Lemma toLowerCaseChar_idem c : toLowerCaseChar (toLowerCaseChar c) = toLowerCaseChar c.
Proof. destruct c as [[] [] [] [] [] [] [] []]; reflexivity. Qed.

Lemma toLowerCaseChar_comma c : toLowerCaseChar c = ","%char -> c = ","%char.
Proof. destruct c as [[] [] [] [] [] [] [] []]; intros H; try reflexivity; discriminate H. Qed.

(** *** Lower case and trimming *)

Lemma toLowerCase_idem s : toLowerCase (toLowerCase s) = toLowerCase s.
Proof.
  induction s as [| c r IH]; [reflexivity |].
  cbn [toLowerCase]. now rewrite toLowerCaseChar_idem, IH.
Qed.

Lemma truthy_lowered s : truthy (toLowerCase s) = truthy s.
Proof. now destruct s. Qed.

Lemma trimStart_toLowerCase s : trimStart (toLowerCase s) = toLowerCase (trimStart s).
Proof.
  induction s as [| c r IH]; [reflexivity |].
  cbn [toLowerCase trimStart]. rewrite isWhiteSpace_toLowerCaseChar.
  destruct (isWhiteSpace c); [exact IH | reflexivity].
Qed.

Lemma trimEnd_toLowerCase s : trimEnd (toLowerCase s) = toLowerCase (trimEnd s).
Proof.
  induction s as [| c r IH]; [reflexivity |].
  cbn [toLowerCase trimEnd]. rewrite isWhiteSpace_toLowerCaseChar, IH, truthy_lowered.
  destruct (isWhiteSpace c && negb (truthy (trimEnd r))); reflexivity.
Qed.

Lemma trim_toLowerCase s : trim (toLowerCase s) = toLowerCase (trim s).
Proof. unfold trim. now rewrite trimStart_toLowerCase, trimEnd_toLowerCase. Qed.

Lemma trimEnd_idem s : trimEnd (trimEnd s) = trimEnd s.
Proof.
  induction s as [| c r IH]; [reflexivity |].
  cbn [trimEnd]. destruct (isWhiteSpace c && negb (truthy (trimEnd r))) eqn:E;
    [reflexivity |].
  cbn [trimEnd]. now rewrite IH, E.
Qed.

(** A string that does not begin with white space. *)
Definition startsBlack (s : string) : Prop :=
  match s with
  | EmptyString => True
  | String c _ => isWhiteSpace c = false
  end.

Lemma trimStart_startsBlack s : startsBlack (trimStart s).
Proof.
  induction s as [| c r IH]; [exact I |].
  cbn [trimStart]. destruct (isWhiteSpace c) eqn:E; [exact IH | exact E].
Qed.

Lemma trimStart_black s : startsBlack s -> trimStart s = s.
Proof. destruct s as [| c r]; [reflexivity |]. simpl. now intros ->. Qed.

Lemma trimEnd_startsBlack s : startsBlack s -> startsBlack (trimEnd s).
Proof.
  destruct s as [| c r]; [exact (fun H => H) |]. simpl. intros B. rewrite B. exact B.
Qed.

Lemma trim_idem s : trim (trim s) = trim s.
Proof.
  unfold trim.
  rewrite (trimStart_black (trimEnd (trimStart s))).
  - apply trimEnd_idem.
  - apply trimEnd_startsBlack, trimStart_startsBlack.
Qed.

Lemma trim_space w : trim (String " " w) = trim w.
Proof. reflexivity. Qed.

(** *** The characters that are kept *)

Lemma chars_trimStart s c : In c (chars (trimStart s)) -> In c (chars s).
Proof.
  induction s as [| d r IH]; [exact (fun H => H) |].
  cbn [trimStart]. destruct (isWhiteSpace d); [| exact (fun H => H)].
  intros H. right. now apply IH.
Qed.

Lemma chars_trimEnd s c : In c (chars (trimEnd s)) -> In c (chars s).
Proof.
  induction s as [| d r IH]; [exact (fun H => H) |].
  cbn [trimEnd]. destruct (isWhiteSpace d && negb (truthy (trimEnd r))); [intros [] |].
  intros [E | H]; [now left | right; now apply IH].
Qed.

Lemma commaFree_toLowerCase s : commaFree s -> commaFree (toLowerCase s).
Proof.
  unfold commaFree. induction s as [| d r IH]; [exact (fun H => H) |].
  intros N [E | H].
  - apply N. left. now apply toLowerCaseChar_comma.
  - apply IH; [| exact H]. intros I. apply N. now right.
Qed.

Lemma commaFree_trim s : commaFree s -> commaFree (trim s).
Proof.
  unfold commaFree, trim. intros N I. apply N.
  now apply chars_trimStart, chars_trimEnd.
Qed.

(** *** Splitting and joining *)

Lemma split_pieces s : exists piece pieces, split s = piece :: pieces.
Proof.
  induction s as [| c r (piece & pieces & E)]; [now eexists _, _ |].
  cbn [split]. rewrite E. destruct (Ascii.eqb c ","); now eexists _, _.
Qed.

Lemma split_commaFree s : Forall commaFree (split s).
Proof.
  induction s as [| c r IH]; [constructor; [intros [] | constructor] |].
  cbn [split]. destruct (Ascii.eqb c ",") eqn:E.
  - constructor; [intros [] | exact IH].
  - apply Ascii.eqb_neq in E.
    destruct (split r) as [| piece pieces]; [constructor; [| constructor] |].
    + intros [H | []]. congruence.
    + inversion IH as [| ? ? Hp Hps]; subst. constructor; [| exact Hps].
      intros [H | H]; [congruence | now apply Hp].
Qed.

Lemma split_word w : commaFree w -> split w = [w].
Proof.
  induction w as [| c r IH]; [reflexivity |].
  intros N. cbn [split].
  destruct (Ascii.eqb c ",") eqn:E.
  - apply Ascii.eqb_eq in E. exfalso. apply N. now left.
  - rewrite IH; [reflexivity |]. intros I. apply N. now right.
Qed.

Lemma split_word_comma w s :
  commaFree w -> split (w +:+ String "," s) = w :: split s.
Proof.
  induction w as [| c r IH]; [reflexivity |].
  intros N. rewrite append_String. cbn [split].
  destruct (Ascii.eqb c ",") eqn:E.
  - apply Ascii.eqb_eq in E. exfalso. apply N. now left.
  - rewrite IH; [reflexivity |]. intros I. apply N. now right.
Qed.

Lemma join_cons sep w w' rest :
  join sep (w :: w' :: rest) = w +:+ sep +:+ join sep (w' :: rest).
Proof. reflexivity. Qed.

(** The pieces of a joined list are its words, all but the first with the
    space of the separator in front. *)
Lemma split_join w ws :
  Forall commaFree (w :: ws) ->
  split (join ", " (w :: ws)) = w :: map (String " ") ws.
Proof.
  revert w. induction ws as [| w' ws IH]; intros w F.
  - inversion F; subst. now apply split_word.
  - inversion F as [| ? ? Hw F']; subst.
    rewrite join_cons. change (", " +:+ ?s) with (String "," (String " " s)).
    rewrite split_word_comma by exact Hw. f_equal.
    cbn [split Ascii.eqb Bool.eqb]. rewrite (IH w' F'). reflexivity.
Qed.

(** *** What is parsed and stored *)

Lemma parsed_clean w :
  commaFree w -> toLowerCase (trim w) <> EmptyString -> clean (toLowerCase (trim w)).
Proof.
  intros N NE. split; [exact NE |].
  split; [now rewrite trim_toLowerCase, trim_idem |].
  split; [apply toLowerCase_idem |].
  now apply commaFree_toLowerCase, commaFree_trim.
Qed.

Lemma parseWords_clean input : Forall clean (parseWords input).
Proof.
  unfold parseWords. apply List.Forall_forall. intros w I.
  apply List.filter_In in I. destruct I as [I L].
  apply in_map_iff in I. destruct I as (piece & <- & I).
  pose proof (split_commaFree input) as F. rewrite List.Forall_forall in F.
  apply parsed_clean; [now apply F |].
  intros E. rewrite E in L. discriminate L.
Qed.

Lemma defaults_clean : Forall clean DEFAULT_FORBIDDEN_WORDS.
Proof.
  unfold DEFAULT_FORBIDDEN_WORDS.
  repeat constructor; try discriminate; unfold commaFree; simpl; intuition discriminate.
Qed.

Lemma saveWordList_words st :
  exists words,
    forbiddenWords (saveWordList st) = Some words
    /\ words <> [] /\ Forall clean words.
Proof.
  unfold saveWordList.
  destruct (length (parseWords (wordListInput st)) =? 0)%nat eqn:E.
  - exists DEFAULT_FORBIDDEN_WORDS.
    split; [reflexivity |]. split; [discriminate | apply defaults_clean].
  - exists (parseWords (wordListInput st)).
    split; [reflexivity |]. split; [| apply parseWords_clean].
    intros N. rewrite N in E. discriminate E.
Qed.

Lemma parseWords_join w ws :
  Forall clean (w :: ws) -> parseWords (join ", " (w :: ws)) = w :: ws.
Proof.
  intros F. unfold parseWords. rewrite split_join.
  2: { eapply List.Forall_impl; [| exact F]. now intros ? (_ & _ & _ & ?). }
  change (w :: map (String " ") ws) with (map (fun x => x) [w] ++ map (String " ") ws).
  rewrite map_app, List.filter_app, !map_map. cbn [map List.filter app].
  inversion F as [| ? ? (NE & T & L & _) F']; subst.
  rewrite T, L. destruct w as [| c r]; [congruence |]. cbn [String.length Nat.ltb Nat.leb].
  change (0 <? S (String.length r))%nat with true. cbv iota. f_equal.
  clear - F'. induction F' as [| x l (NE & T & L & _) _ IH]; [reflexivity |].
  cbn [map List.filter]. rewrite trim_space, T, L.
  destruct x as [| c r]; [congruence |].
  change (0 <? String.length (String c r))%nat with true. cbv iota. now rewrite IH.
Qed.

(** Whatever the text box holds when the list is saved, the stored list
    is not empty, and each of its words is not empty, has no white space
    at either end, no capital letter and no comma. *)
Theorem saved_words_are_clean (st : State) :
  exists words,
    forbiddenWords (saveWordList st) = Some words
    /\ words <> []
    /\ forall w, In w words ->
         w <> EmptyString /\ trim w = w /\ toLowerCase w = w
         /\ ~ In ","%char (chars w).
Proof.
  destruct (saveWordList_words st) as (words & E & NE & F).
  exists words. split; [exact E |]. split; [exact NE |].
  intros w I. rewrite List.Forall_forall in F. exact (F w I).
Qed.

(** Saving is stable: when the popup is opened again after a save, it
    shows the stored words, and saving what it shows stores the same list
    again and leaves the text box as it is. *)
Theorem save_load_save (st : State) :
  let reopened := loadWordList (saveWordList st) in
  saveWordList reopened = reopened
  /\ forbiddenWords reopened = forbiddenWords (saveWordList st).
Proof.
  cbv zeta. split; [| reflexivity].
  destruct (saveWordList_words st) as (words & E & NE & F).
  unfold loadWordList. rewrite E.
  destruct words as [| w ws]; [congruence |].
  unfold saveWordList at 1. cbn [wordListInput].
  now rewrite (parseWords_join w ws F).
Qed.

End PopupFacts.

(** ** Properties of the page scan *)

Module ContentFacts.
Import Js Analysis AnalysisFacts Dom DomFacts Overlay OverlayFacts ContentScript.

Abbreviation overlayClass := "autofill-detector-overlay" (only parsing).
Abbreviation tooltipClass := "autofill-detector-tooltip" (only parsing).

(** *** The analysis of one field *)

Lemma analyzeField_returns e f :
  exists r, analyzeField e f = Return r /\ forall a, r = Some a -> element a = e.
Proof.
  unfold analyzeField.
  destruct (_ || _); [exists None; split; [reflexivity | discriminate] |].
  destruct (_ || _); [exists None; split; [reflexivity | discriminate] |].
  rewrite analyze_attrsOf. unfold mbind, Completion_bind, Js.bind.
  destruct (analyzeStrings _ _ _ _ _ _ _) as [v|].
  - eexists. split; [reflexivity |]. now intros a [= <-].
  - exists None. split; [reflexivity | discriminate].
Qed.

(** The field gets an overlay. *)
Definition flagged (view : nat -> Field) (field : nat) : bool :=
  match analyzeField field (view field) with
  | Return (Some a) => (0 <? length (risks (verdict a)))%nat
  | _ => false
  end.

(** *** Counting while the overlays are made *)

Lemma recount_fold l : recount l = fold_left countOverlay l noStats.
Proof. rewrite fold_countOverlay. apply stats_eq; simpl; lia. Qed.

Lemma recount_snoc l o : recount (l ++ [o]) = countOverlay (recount l) o.
Proof. now rewrite !recount_fold, fold_left_app. Qed.

Lemma recount_createOverlay a st :
  overlayMap st !! element a = None ->
  recount (querySelectorAll overlayClass (body (createOverlay a st).2))
  = countField (riskLevel (verdict a)) (recount (querySelectorAll overlayClass (body st))).
Proof.
  intros H. unfold createOverlay. rewrite H. cbn [snd body].
  rewrite querySelectorAll_app.
  destruct (riskLevel (verdict a));
    match goal with
    | |- context [querySelectorAll ?c [?n]] => change (querySelectorAll c [n]) with [n]
    end; rewrite recount_snoc; reflexivity.
Qed.

Lemma createOverlay_frame a st :
  sent (createOverlay a st).2 = sent st
  /\ overlayMap (createOverlay a st).2
     = <[element a := nextId st]> (overlayMap st).
Proof. split; reflexivity. Qed.

Lemma total_countField level s : total (countField level s) = (total s + 1)%Z.
Proof. now destruct level. Qed.

Lemma bind_Return {A B} (a : A) (k : A -> Completion B) : mbind k (Return a) = k a.
Proof. reflexivity. Qed.

(** One turn of the loop of [scanPage]. *)
Lemma scanField_step view sc f :
  exists sc1,
    scanField view sc f = Return sc1
    /\ isEnabled sc1 = isEnabled sc
    /\ (flagged view f = false -> page sc1 = page sc)
    /\ (flagged view f = true ->
        exists a, element a = f
                  /\ page sc1
                     = setFieldStats
                         (countField (riskLevel (verdict a))
                            (fieldStats (createOverlay a (page sc)).2))
                         (createOverlay a (page sc)).2).
Proof.
  unfold scanField, flagged.
  destruct (analyzeField_returns f (view f)) as (r & -> & El).
  rewrite bind_Return. cbv zeta.
  destruct r as [a|].
  - destruct (0 <? length (risks (verdict a)))%nat.
    + eexists. split; [reflexivity |]. split; [reflexivity |].
      split; [discriminate |]. intros _. exists a. split; [now apply El | reflexivity].
    + eexists. split; [reflexivity |]. split; [reflexivity |].
      split; [reflexivity | discriminate].
  - eexists. split; [reflexivity |]. split; [reflexivity |].
    split; [reflexivity | discriminate].
Qed.

(** The loop of [scanPage] keeps the counters equal to a recount of the
    overlays, as long as no field of the list has an overlay yet. *)
Lemma forEach_scanField view fields :
  forall sc,
    List.NoDup fields ->
    (forall f, In f fields -> overlayMap (page sc) !! f = None) ->
    fieldStats (page sc) = recount (querySelectorAll overlayClass (body (page sc))) ->
    exists sc',
      forEach (scanField view) fields sc = Return sc'
      /\ fieldStats (page sc') = recount (querySelectorAll overlayClass (body (page sc')))
      /\ total (fieldStats (page sc'))
         = (total (fieldStats (page sc))
            + Z.of_nat (length (List.filter (flagged view) fields)))%Z
      /\ sent (page sc') = sent (page sc)
      /\ isEnabled sc' = isEnabled sc.
Proof.
  induction fields as [| f rest IH]; intros sc ND Free Inv.
  - exists sc. cbn. repeat split; try reflexivity; [exact Inv | lia].
  - inversion ND as [| ? ? Nf ND']; subst.
    cbn [forEach List.filter].
    destruct (scanField_step view sc f) as (sc1 & -> & E1 & Same & New).
    rewrite bind_Return.
    destruct (flagged view f) eqn:Fl.
    + destruct (New eq_refl) as (a & El & P).
      assert (Fa : overlayMap (page sc) !! element a = None).
      { rewrite El. apply Free. now left. }
      destruct (IH sc1 ND') as (sc' & R & I' & T' & S' & E').
      * intros f' I. rewrite P.
        change (overlayMap (setFieldStats ?s ?p)) with (overlayMap p).
        rewrite (proj2 (createOverlay_frame a (page sc))), El.
        rewrite lookup_insert_ne; [apply Free; now right |].
        intros <-. contradiction.
      * rewrite P.
        change (body (setFieldStats ?s ?p)) with (body p).
        change (fieldStats (setFieldStats ?s ?p)) with s.
        rewrite (recount_createOverlay a (page sc) Fa). f_equal.
        change (fieldStats (createOverlay a (page sc)).2) with (fieldStats (page sc)).
        exact Inv.
      * exists sc'. split; [exact R |]. split; [exact I' |].
        split; [| split; [| congruence]].
        -- rewrite T', P.
           change (fieldStats (setFieldStats ?s ?p)) with s.
           rewrite total_countField.
           change (fieldStats (createOverlay a (page sc)).2) with (fieldStats (page sc)).
           cbn [length]. lia.
        -- rewrite S', P. reflexivity.
    + specialize (Same eq_refl).
      destruct (IH sc1 ND') as (sc' & R & I' & T' & S' & E').
      * intros f' I. rewrite Same. apply Free. now right.
      * now rewrite Same.
      * exists sc'. rewrite Same in *. split; [exact R |]. split; [exact I' |].
        split; [exact T' |]. split; [exact S' | congruence].
Qed.

Lemma consistent_reconcile st :
  fieldStats st = recount (querySelectorAll overlayClass (body st)) ->
  reconcileStats st = st.
Proof.
  intros H. unfold reconcileStats. rewrite actualStats_recount, <- H.
  destruct (drifted _ _) eqn:D; [| reflexivity].
  assert (F : drifted (fieldStats st) (fieldStats st) = false) by now apply drifted_false.
  congruence.
Qed.

Lemma scanPage_first view sc :
  isEnabled sc = true ->
  querySelectorAll overlayClass (body (page sc)) = [] ->
  List.NoDup (fieldsOf (body (page sc))) ->
  (forall f, In f (fieldsOf (body (page sc))) -> overlayMap (page sc) !! f = None) ->
  exists sc',
    scanPage view sc = Return sc'
    /\ fieldStats (page sc') = recount (querySelectorAll overlayClass (body (page sc')))
    /\ total (fieldStats (page sc'))
       = Z.of_nat (length (List.filter (flagged view) (fieldsOf (body (page sc)))))
    /\ sent (page sc') = sent (page sc) ++ [updateBadgeMessage (fieldStats (page sc'))]
    /\ isEnabled sc' = true.
Proof.
  intros En No ND Free. unfold scanPage. rewrite En. cbn [negb]. cbv zeta.
  set (sc0 := withPage _ sc).
  destruct (forEach_scanField view (fieldsOf (body (page sc))) sc0 ND)
    as (sc1 & R & I1 & T1 & S1 & E1).
  - exact Free.
  - change (body (page sc0)) with (body (page sc)). rewrite No. reflexivity.
  - change (body (page sc0)) with (body (page sc)). rewrite R.
    rewrite bind_Return.
    eexists. split; [reflexivity |]. cbn.
    split; [exact I1 |]. split; [rewrite T1; unfold sc0; cbn; lia |].
    split; [now rewrite S1 | now rewrite E1].
Qed.

(** On a page that has no overlay yet, a scan leaves the counters equal
    to a recount of the overlays it has made, one for each field whose
    analysis has a finding; it reports these counters once, and the
    periodic reconciliation that follows has nothing to correct.  The scan
    never ends with an exception. *)
Theorem first_scan_counts_its_overlays (view : nat -> Field) (sc : Script) :
  isEnabled sc = true ->
  querySelectorAll "autofill-detector-overlay" (body (page sc)) = [] ->
  List.NoDup (fieldsOf (body (page sc))) ->
  (forall f, In f (fieldsOf (body (page sc))) -> overlayMap (page sc) !! f = None) ->
  exists sc',
    scanPage view sc = Return sc'
    /\ fieldStats (page sc')
       = recount (querySelectorAll "autofill-detector-overlay" (body (page sc')))
    /\ total (fieldStats (page sc'))
       = Z.of_nat (length (List.filter (flagged view) (fieldsOf (body (page sc)))))
    /\ sent (page sc') = sent (page sc) ++ [updateBadgeMessage (fieldStats (page sc'))]
    /\ reconcileStats (page sc') = page sc'.
Proof.
  intros En No ND Free.
  destruct (scanPage_first view sc En No ND Free) as (sc' & R & I & T & S & _).
  exists sc'. split; [exact R |]. split; [exact I |]. split; [exact T |].
  split; [exact S | now apply consistent_reconcile].
Qed.

Lemma first_scan_counts_its_overlays_witness :
  exists sc',
    scanPage sampleView sampleForm = Return sc'
    /\ fieldStats (page sc')
       = recount (querySelectorAll "autofill-detector-overlay" (body (page sc')))
    /\ total (fieldStats (page sc'))
       = Z.of_nat (length (List.filter (flagged sampleView)
                             (fieldsOf (body (page sampleForm)))))
    /\ sent (page sc')
       = sent (page sampleForm) ++ [updateBadgeMessage (fieldStats (page sc'))]
    /\ reconcileStats (page sc') = page sc'.
Proof.
  apply (first_scan_counts_its_overlays sampleView sampleForm).
  - reflexivity.
  - reflexivity.
  - repeat constructor; simpl; intuition discriminate.
  - intros f _. apply lookup_empty.
Defined.

(** *** Removing the overlays *)

Lemma selectIds_class cls nodes :
  selectIds (hasClass cls) nodes = flat_map (classIds cls) nodes.
Proof. apply querySelectorAll_ids. Qed.

Lemma removeAll_classIds cls ids nodes x :
  In x (flat_map (classIds cls) (fold_left (fun b el => remove el b) ids nodes)) ->
  In x (flat_map (classIds cls) nodes) /\ ~ In x ids.
Proof.
  revert nodes. induction ids as [| el ids IH]; intros nodes; cbn [fold_left].
  - intros I. split; [exact I | intros []].
  - intros I. apply IH in I. destruct I as [I N].
    split; [| intros [E | I']; [| now apply N]].
    + apply (sublist_In _ _ _ (remove_classIds cls el nodes) I).
    + subst. now apply remove_classIds_ne in I.
Qed.

Lemma removeAll_sublist cls ids nodes :
  flat_map (classIds cls) (fold_left (fun b el => remove el b) ids nodes)
  `sublist_of` flat_map (classIds cls) nodes.
Proof.
  revert nodes. induction ids as [| el ids IH]; intros nodes; cbn [fold_left];
    [reflexivity |].
  etransitivity; [apply IH | apply remove_classIds].
Qed.

Lemma no_ids_no_elements cls nodes :
  flat_map (classIds cls) nodes = [] -> querySelectorAll cls nodes = [].
Proof. rewrite <- querySelectorAll_ids. apply map_eq_nil. Qed.

Lemma removeEach_none cls nodes :
  flat_map (classIds cls) (removeEach (hasClass cls) nodes) = [].
Proof.
  unfold removeEach.
  destruct (flat_map _ (fold_left _ _ nodes)) as [| x r] eqn:E; [reflexivity |].
  exfalso. assert (I : In x (x :: r)) by now left. rewrite <- E in I.
  apply removeAll_classIds in I. destruct I as [I N]. apply N.
  now rewrite selectIds_class.
Qed.

Lemma removeEach_keeps_none cls p nodes :
  flat_map (classIds cls) nodes = [] ->
  flat_map (classIds cls) (removeEach p nodes) = [].
Proof.
  intros E. apply sublist_nil_r. rewrite <- E. apply removeAll_sublist.
Qed.

(** Removing an element removes fields, it adds none. *)
Lemma fieldsOf_app l1 l2 : fieldsOf (l1 ++ l2) = fieldsOf l1 ++ fieldsOf l2.
Proof. unfold fieldsOf, selectIds. now rewrite flat_map_app, List.filter_app, map_app. Qed.

Lemma fieldsOf_flat nodes : fieldsOf nodes = flat_map (fun n => fieldsOf [n]) nodes.
Proof.
  induction nodes as [| n r IH]; [reflexivity |].
  change (n :: r) with ([n] ++ r). rewrite fieldsOf_app, IH. reflexivity.
Qed.

Lemma fieldsOf_Element i t cl ti cs :
  fieldsOf [Element i t cl ti cs]
  = (if isFieldElement (Element i t cl ti []) then [i] else []) ++ fieldsOf cs.
Proof.
  unfold fieldsOf, selectIds. cbn [flat_map elements]. rewrite app_nil_r.
  cbn [List.filter isFieldElement].
  destruct (arrayIncludes _ _); reflexivity.
Qed.

Lemma removeFrom_fields el n : fieldsOf (removeFrom el n) `sublist_of` fieldsOf [n].
Proof.
  induction n as [i d | i t cl ti cs IH] using Node_tree_ind; [reflexivity |].
  cbn [removeFrom]. destruct (i =? el)%nat; [apply sublist_nil_l |].
  rewrite !fieldsOf_Element. apply sublist_app; [reflexivity |].
  rewrite (fieldsOf_flat (flat_map _ _)), flat_map_flat_map, (fieldsOf_flat cs).
  apply flat_map_sublist. rewrite List.Forall_forall in *. intros c Hc.
  rewrite <- fieldsOf_flat. now apply IH.
Qed.

Lemma remove_fields el nodes : fieldsOf (remove el nodes) `sublist_of` fieldsOf nodes.
Proof.
  unfold remove. rewrite (fieldsOf_flat (flat_map _ _)), flat_map_flat_map,
    (fieldsOf_flat nodes).
  apply flat_map_sublist. apply List.Forall_forall. intros n _.
  rewrite <- fieldsOf_flat. apply removeFrom_fields.
Qed.

Lemma removeEach_fields p nodes : fieldsOf (removeEach p nodes) `sublist_of` fieldsOf nodes.
Proof.
  unfold removeEach. generalize (selectIds p nodes) as ids. intros ids. revert nodes.
  induction ids as [| el ids IH]; intros nodes; cbn [fold_left]; [reflexivity |].
  etransitivity; [apply IH | apply remove_fields].
Qed.

Lemma deleteEach_lookup {A} fields (m : gmap nat A) f :
  m !! f = None \/ In f fields -> deleteEach fields m !! f = None.
Proof.
  unfold deleteEach. revert m. induction fields as [| g fields IH]; intros m; cbn [fold_left].
  - intros [H | []]. exact H.
  - intros H. apply IH. destruct (Nat.eq_dec g f) as [-> | Ne].
    + left. apply lookup_delete_eq.
    + rewrite lookup_delete_ne by exact Ne.
      destruct H as [H | [E | H]]; [now left | contradiction | now right].
Qed.

Lemma switch_off view sc :
  isEnabled sc = true ->
  exists off,
    onStorageChanged view "local" (Some (Boolean false)) sc = Return off
    /\ isEnabled off = false
    /\ querySelectorAll overlayClass (body (page off)) = []
    /\ querySelectorAll tooltipClass (body (page off)) = []
    /\ fieldStats (page off) = noStats
    /\ sent (page off) = sent (page sc) ++ [updateBadgeMessage noStats]
    /\ fieldsOf (body (page off)) `sublist_of` fieldsOf (body (page sc))
    /\ forall f, In f (fieldsOf (body (page off))) ->
         overlayMap (page off) !! f = None /\ analyzedFields off !! f = None.
Proof.
  intros En. unfold onStorageChanged. cbn [String.eqb negb notFalse].
  change (String.eqb "local" "local") with true. cbn [negb]. rewrite En. cbn [Bool.eqb].
  eexists. split; [reflexivity |]. cbn.
  split; [reflexivity |].
  split; [apply no_ids_no_elements, removeEach_keeps_none, removeEach_none |].
  split; [apply no_ids_no_elements, removeEach_none |].
  split; [reflexivity |]. split; [reflexivity |].
  split; [etransitivity; apply removeEach_fields |].
  intros f I. split; apply deleteEach_lookup; now right.
Qed.

(** Switching the detector off removes every overlay and every tooltip
    from the document, forgets what was known of the fields that are left,
    sets the counters to zero and reports them once. *)
Theorem switching_off_removes_overlays (view : nat -> Field) (sc : Script) :
  isEnabled sc = true ->
  exists off,
    onStorageChanged view "local" (Some (Boolean false)) sc = Return off
    /\ isEnabled off = false
    /\ querySelectorAll "autofill-detector-overlay" (body (page off)) = []
    /\ querySelectorAll "autofill-detector-tooltip" (body (page off)) = []
    /\ fieldStats (page off) = noStats
    /\ sent (page off) = sent (page sc) ++ [updateBadgeMessage noStats]
    /\ forall f, In f (fieldsOf (body (page off))) ->
         overlayMap (page off) !! f = None /\ analyzedFields off !! f = None.
Proof.
  intros En. destruct (switch_off view sc En) as (off & R & E & O & T & F & S & _ & M).
  exists off. auto 10.
Qed.

Lemma switching_off_removes_overlays_witness :
  exists off,
    onStorageChanged sampleView "local" (Some (Boolean false)) sampleForm = Return off
    /\ isEnabled off = false
    /\ querySelectorAll "autofill-detector-overlay" (body (page off)) = []
    /\ querySelectorAll "autofill-detector-tooltip" (body (page off)) = []
    /\ fieldStats (page off) = noStats
    /\ sent (page off) = sent (page sampleForm) ++ [updateBadgeMessage noStats]
    /\ forall f, In f (fieldsOf (body (page off))) ->
         overlayMap (page off) !! f = None /\ analyzedFields off !! f = None.
Proof. apply (switching_off_removes_overlays sampleView sampleForm). reflexivity. Defined.

(** Switching the detector off and on again gives counters that agree
    with the overlays of the document, whatever overlays and counters there
    were before: the reconciliation that follows has nothing to correct. *)
Theorem off_and_on_again_is_consistent (view : nat -> Field) (sc : Script) :
  isEnabled sc = true ->
  List.NoDup (fieldsOf (body (page sc))) ->
  exists off on,
    onStorageChanged view "local" (Some (Boolean false)) sc = Return off
    /\ onStorageChanged view "local" (Some (Boolean true)) off = Return on
    /\ isEnabled on = true
    /\ fieldStats (page on)
       = recount (querySelectorAll "autofill-detector-overlay" (body (page on)))
    /\ total (fieldStats (page on))
       = Z.of_nat (length (List.filter (flagged view) (fieldsOf (body (page off)))))
    /\ reconcileStats (page on) = page on.
Proof.
  intros En ND.
  destruct (switch_off view sc En) as (off & R & E & O & _ & _ & _ & Sub & M).
  exists off.
  unfold onStorageChanged at 2. change (String.eqb "local" "local") with true.
  cbn [negb notFalse]. rewrite E. cbn [Bool.eqb].
  set (off1 := {| isEnabled := true; analyzedFields := _; page := page off |}).
  destruct (scanPage_first view off1) as (on & Ron & I & T & _ & Eon).
  - reflexivity.
  - exact O.
  - apply NoDup_ListNoDup. apply NoDup_ListNoDup in ND.
    exact (sublist_NoDup _ _ ND Sub).
  - intros f If. now apply M.
  - exists on. split; [exact R |]. split; [exact Ron |]. split; [exact Eon |].
    split; [exact I |]. split; [exact T | now apply consistent_reconcile].
Qed.

Lemma off_and_on_again_is_consistent_witness :
  exists off on,
    onStorageChanged sampleView "local" (Some (Boolean false)) sampleForm = Return off
    /\ onStorageChanged sampleView "local" (Some (Boolean true)) off = Return on
    /\ isEnabled on = true
    /\ fieldStats (page on)
       = recount (querySelectorAll "autofill-detector-overlay" (body (page on)))
    /\ total (fieldStats (page on))
       = Z.of_nat (length (List.filter (flagged sampleView) (fieldsOf (body (page off)))))
    /\ reconcileStats (page on) = page on.
Proof.
  apply (off_and_on_again_is_consistent sampleView sampleForm).
  - reflexivity.
  - repeat constructor; simpl; intuition discriminate.
Defined.

End ContentFacts.

(** ** Properties of the scan of the whole page *)

Module ScanFacts.
Import Js Dom DomFacts StringFacts WordScanner ScannerFacts ScannerMore PageScan.

Abbreviation highlightClass := "word-scanner-highlight" (only parsing).

(** *** Identities of nodes *)

(** The identities of the nodes of a subtree, each with a mark that
    tells elements (true) from text nodes. *)
Fixpoint tagged (n : Node) : list (bool * nat) :=
  match n with
  | Text i _ => [(false, i)]
  | Element i _ _ _ cs => (true, i) :: flat_map tagged cs
  end.

Lemma map_flat_map {A B C} (g : B -> C) (f : A -> list B) (l : list A) :
  map g (flat_map f l) = flat_map (fun a => map g (f a)) l.
Proof. induction l as [| a l IH]; simpl; [reflexivity | now rewrite map_app, IH]. Qed.

Lemma flat_map_map {A B C} (f : A -> B) (g : B -> list C) (l : list A) :
  flat_map g (map f l) = flat_map (fun a => g (f a)) l.
Proof. induction l as [| a l IH]; simpl; [reflexivity | now rewrite IH]. Qed.

Lemma flat_map_ext_Forall {A B} (f g : A -> list B) (l : list A) :
  Forall (fun a => f a = g a) l -> flat_map f l = flat_map g l.
Proof. induction 1 as [| a l E _ IH]; simpl; [reflexivity | now rewrite E, IH]. Qed.

Lemma tagged_nodeIds n : map snd (tagged n) = nodeIds n.
Proof.
  induction n as [i d | i t cl ti cs IH] using Node_tree_ind; [reflexivity |].
  cbn [tagged nodeIds map snd]. f_equal. rewrite map_flat_map.
  now apply flat_map_ext_Forall.
Qed.

Lemma tagged_document nodes : map snd (flat_map tagged nodes) = flat_map nodeIds nodes.
Proof.
  rewrite map_flat_map. apply flat_map_ext_Forall, List.Forall_forall.
  intros n _. apply tagged_nodeIds.
Qed.

(** What [replaceByText] does to a marked identity. *)
Definition renamed (el fresh : nat) (p : bool * nat) : bool * nat :=
  if fst p && (snd p =? el)%nat then (false, fresh) else p.

Lemma replaceByText_tagged el fresh n :
  tagged (replaceByText el fresh n) `sublist_of` map (renamed el fresh) (tagged n).
Proof.
  induction n as [i d | i t cl ti cs IH] using Node_tree_ind; [reflexivity |].
  cbn [replaceByText tagged map]. unfold renamed at 1. cbn [fst snd andb].
  destruct (i =? el)%nat.
  - cbn [tagged]. apply sublist_skip, sublist_nil_l.
  - cbn [tagged]. apply sublist_skip.
    rewrite flat_map_map, map_flat_map. now apply flat_map_sublist.
Qed.

Lemma replaceByText_document el fresh nodes :
  flat_map tagged (map (replaceByText el fresh) nodes)
  `sublist_of` map (renamed el fresh) (flat_map tagged nodes).
Proof.
  rewrite flat_map_map, map_flat_map. apply flat_map_sublist, List.Forall_forall.
  intros n _. apply replaceByText_tagged.
Qed.

Lemma renamed_ids el fresh l x :
  In x (map snd (map (renamed el fresh) l)) ->
  In x (map snd l) \/ (x = fresh /\ In el (map snd l)).
Proof.
  induction l as [| [b i] l IH]; [intros [] |].
  cbn [map]. unfold renamed at 1. cbn [fst snd].
  destruct (b && (i =? el)%nat) eqn:E; cbn [snd]; intros [H | H].
  - apply andb_true_iff in E. destruct E as [_ E]. apply Nat.eqb_eq in E.
    right. split; [now symmetry | left; exact E].
  - destruct (IH H) as [I | [F I]]; [left; now right | right; split; [exact F | now right]].
  - left. now left.
  - destruct (IH H) as [I | [F I]]; [left; now right | right; split; [exact F | now right]].
Qed.

Lemma renamed_NoDup el fresh l :
  List.NoDup (map snd l) -> ~ In fresh (map snd l) ->
  List.NoDup (map snd (map (renamed el fresh) l)).
Proof.
  induction l as [| [b i] l IH]; [constructor |].
  cbn [map snd]. intros ND Fr. inversion ND as [| ? ? Ni ND']; subst.
  assert (Fr' : ~ In fresh (map snd l)) by (intros I; apply Fr; now right).
  assert (Nf : i <> fresh) by (intros E; apply Fr; now left).
  constructor; [| now apply IH].
  unfold renamed at 1. cbn [fst snd].
  destruct (b && (i =? el)%nat) eqn:E; cbn [snd]; intros H; apply renamed_ids in H.
  - apply andb_true_iff in E. destruct E as [_ E]. apply Nat.eqb_eq in E. subst el.
    destruct H as [I | [_ I]]; [now apply Fr' | now apply Ni].
  - destruct H as [I | [F _]]; [now apply Ni | now apply Nf].
Qed.

(** The document is well formed: no two nodes have the same identity,
    and the identities in use are below [nextId]. *)
Definition WellFormed (st : State) : Prop :=
  List.NoDup (flat_map nodeIds (document st))
  /\ forall i, In i (flat_map nodeIds (document st)) -> i < nextId st.

Lemma ListNoDup_sublist {A} (l1 l2 : list A) :
  l1 `sublist_of` l2 -> List.NoDup l2 -> List.NoDup l1.
Proof.
  intros S ND. apply NoDup_ListNoDup. apply NoDup_ListNoDup in ND.
  exact (sublist_NoDup _ _ ND S).
Qed.

Lemma In_sublist {A} (l1 l2 : list A) x : l1 `sublist_of` l2 -> In x l1 -> In x l2.
Proof.
  induction 1 as [| y l1 l2 _ IH | y l1 l2 _ IH]; [tauto | |].
  - intros [E | I]; [now left | right; now apply IH].
  - intros I. right. now apply IH.
Qed.

Lemma sublist_map {A B} (f : A -> B) (l1 l2 : list A) :
  l1 `sublist_of` l2 -> map f l1 `sublist_of` map f l2.
Proof. induction 1; simpl; [constructor | now apply sublist_skip | now apply sublist_cons]. Qed.

Lemma restoreText_WellFormed st h : WellFormed st -> WellFormed (restoreText st h).
Proof.
  intros [ND B]. unfold WellFormed, restoreText. cbn [document WordScanner.nextId].
  pose proof (sublist_map snd _ _ (replaceByText_document h (nextId st) (document st))) as S.
  rewrite tagged_document in S.
  assert (Fr : ~ In (nextId st) (map snd (flat_map tagged (document st)))).
  { rewrite tagged_document. intros I. apply B in I. lia. }
  split.
  - apply (ListNoDup_sublist _ _ S). apply renamed_NoDup; [| exact Fr].
    now rewrite tagged_document.
  - intros i I. apply (In_sublist _ _ _ S) in I. apply renamed_ids in I.
    rewrite tagged_document in I.
    destruct I as [I | [-> _]]; [apply B in I; lia | lia].
Qed.

Lemma restoreAll_WellFormed l st : WellFormed st -> WellFormed (fold_left restoreText l st).
Proof.
  revert st. induction l as [| h l IH]; intros st W; [exact W |].
  cbn [fold_left]. now apply IH, restoreText_WellFormed.
Qed.

Lemma removeWordHighlights_WellFormed st :
  WellFormed st -> WellFormed (WordScanner.removeWordHighlights st).
Proof.
  intros W. unfold WordScanner.removeWordHighlights. cbv zeta.
  apply restoreAll_WellFormed.
  exact (restoreAll_WellFormed (wordScannerHighlights st) st W).
Qed.

Lemma removeWordHighlights_Set st :
  wordScannerHighlights (WordScanner.removeWordHighlights st) = [].
Proof. unfold WordScanner.removeWordHighlights. now rewrite restoreAll_highlights. Qed.

(** *** Identities of text nodes *)

Definition textIds (nodes : list Node) : list nat := map fst (flat_map textNodes nodes).

Lemma textIds_app l1 l2 : textIds (l1 ++ l2) = textIds l1 ++ textIds l2.
Proof. unfold textIds. now rewrite flat_map_app, map_app. Qed.

Lemma textNodes_nodeIds n : map fst (textNodes n) `sublist_of` nodeIds n.
Proof.
  induction n as [i d | i t cl ti cs IH] using Node_tree_ind; [reflexivity |].
  cbn [textNodes nodeIds]. apply sublist_cons.
  rewrite map_flat_map. now apply flat_map_sublist.
Qed.

Lemma textIds_nodeIds nodes : textIds nodes `sublist_of` flat_map nodeIds nodes.
Proof.
  unfold textIds. rewrite map_flat_map. apply flat_map_sublist, List.Forall_forall.
  intros n _. apply textNodes_nodeIds.
Qed.

(** What the highlighting of a text node needs: text nodes have distinct
    identities, and these and the members of the Set are below [nextId]. *)
Definition Ready (st : State) : Prop :=
  List.NoDup (textIds (document st))
  /\ (forall i, In i (textIds (document st)) -> i < nextId st)
  /\ (forall x, In x (wordScannerHighlights st) -> x < nextId st).

Lemma WellFormed_Ready st :
  WellFormed st -> wordScannerHighlights st = [] -> Ready st.
Proof.
  intros [ND B] E. split; [| split].
  - exact (ListNoDup_sublist _ _ (textIds_nodeIds _) ND).
  - intros i I. apply B. exact (In_sublist _ _ _ (textIds_nodeIds _) I).
  - rewrite E. intros x [].
Qed.

(** *** The nodes the highlighting loop creates *)

(** The highlight spans among the nodes of a list. *)
Definition spans (frags : list Node) : list nat :=
  flat_map (classIds highlightClass) frags.

(** While the loop runs, the text nodes it has made have distinct
    identities from [base] up, and the Set has grown by one member for
    each span. *)
Definition Growing (base n0 : nat) (frags : list Node) (st : State) : Prop :=
  base <= nextId st
  /\ List.NoDup (textIds frags)
  /\ (forall i, In i (textIds frags) -> base <= i < nextId st)
  /\ (forall x, In x (wordScannerHighlights st) -> x < nextId st)
  /\ length (wordScannerHighlights st) = n0 + length (spans frags).

Lemma spans_app a b : spans (a ++ b) = spans a ++ spans b.
Proof. unfold spans. apply flat_map_app. Qed.

Lemma Growing_pushTextIf base n0 cond data frags st :
  Growing base n0 frags st ->
  Growing base n0 (pushTextIf cond data frags st).1 (pushTextIf cond data frags st).2.
Proof.
  intros G. unfold pushTextIf. destruct cond; [| exact G].
  destruct G as (B & ND & R & S & L).
  cbn [fst snd createTextNode]. unfold Growing. cbn [WordScanner.nextId wordScannerHighlights].
  rewrite textIds_app, spans_app. change (textIds [Text (nextId st) data]) with [nextId st].
  change (spans [Text (nextId st) data]) with (@nil nat). rewrite app_nil_r.
  split; [lia |]. split.
  - apply List.NoDup_app; [exact ND | repeat constructor; intros [] |].
    intros a I [<- | []]. apply R in I. lia.
  - split; [| split; [intros x I; apply S in I; lia | exact L]].
    intros i I. apply in_app_or in I. destruct I as [I | [<- | []]]; [apply R in I |]; lia.
Qed.

Lemma existsb_above x (s : list nat) :
  (forall y, In y s -> y < x) -> existsb (Nat.eqb x) s = false.
Proof.
  induction s as [| y s IH]; [reflexivity |]. intros H. cbn [existsb].
  rewrite IH by (intros z I; apply H; now right).
  assert (y < x) by (apply H; now left).
  replace (x =? y)%nat with false; [reflexivity |].
  symmetry. apply Nat.eqb_neq. lia.
Qed.

Lemma Growing_createHighlight base n0 matched frags st :
  Growing base n0 frags st ->
  Growing base n0 (frags ++ [(createHighlight matched st).1]) (createHighlight matched st).2.
Proof.
  intros (B & ND & R & HS & L). unfold createHighlight, Growing.
  cbn [fst snd WordScanner.nextId wordScannerHighlights].
  unfold setAdd. rewrite (existsb_above _ _ HS).
  rewrite textIds_app, spans_app, !length_app.
  match goal with
  | |- context [spans [Element ?i ?t ?cl ?ti ?cs]] =>
      replace (spans [Element i t cl ti cs]) with [i]
        by (unfold spans; cbn [flat_map]; rewrite classIds_Element, app_nil_r;
            destruct matched; reflexivity)
  end.
  match goal with
  | |- context [textIds [Element ?i ?t ?cl ?ti ?cs]] =>
      replace (textIds [Element i t cl ti cs])
        with (if truthy matched then [S (nextId st)] else [])
        by (destruct matched; reflexivity)
  end.
  split; [lia |]. split.
  - apply List.NoDup_app; [exact ND | destruct (truthy matched); repeat constructor; intros [] |].
    intros a I. apply R in I. destruct (truthy matched); [| intros []].
    intros [<- | []]. lia.
  - split; [| split].
    + intros i I. apply in_app_or in I. destruct I as [I | I]; [apply R in I; lia |].
      destruct (truthy matched); [destruct I as [<- | []]; lia | destruct I].
    + intros x I. apply in_app_or in I.
      destruct I as [I | [<- | []]]; [apply HS in I |]; lia.
    + cbn [length]. lia.
Qed.

Lemma highlightLoop_Growing base n0 text fuel :
  forall pattern frags i st frags' i' st',
    highlightLoop fuel text pattern frags i st = Some (frags', i', st') ->
    Growing base n0 frags st -> Growing base n0 frags' st'.
Proof.
  induction fuel as [| fuel IH]; intros pattern frags i st frags' i' st' H G;
    [discriminate |].
  rewrite highlightLoop_S in H.
  destruct (search _ _ _ _) as [[s e]|].
  - cbv zeta in H. apply IH in H; [exact H |].
    apply Growing_createHighlight, Growing_pushTextIf, G.
  - now injection H as <- <- <-.
Qed.

(** The fragments of a text node, for any pattern of non-empty words and
    enough turns of the loop. *)
Lemma buildFragments_ready words text fuel pattern st :
  Forall (fun w => w <> EmptyString) words ->
  alternatives pattern = words ->
  String.length text < fuel ->
  (forall x, In x (wordScannerHighlights st) -> x < nextId st) ->
  exists fragments st',
    buildFragments fuel text pattern st = Some (fragments, st')
    /\ textOf fragments = text
    /\ document st' = document st
    /\ Growing (nextId st) (length (wordScannerHighlights st)) fragments st'.
Proof.
  intros NE Ha Lf S. unfold buildFragments.
  destruct (highlightLoop_ends words text fuel NE (setLastIndex 0 pattern) [] 0 st)
    as ([[frags i] st1] & H); [exact Ha | reflexivity | lia | lia |].
  rewrite H.
  pose proof (highlightLoop_Growing (nextId st) (length (wordScannerHighlights st))
                text fuel _ _ _ _ _ _ _ H) as G.
  apply (highlightLoop_spec words) in H;
    [| exact Ha | reflexivity | lia | symmetry; apply slice_none].
  destruct H as (Li & T & D & _).
  set (p := pushTextIf _ _ frags st1).
  exists p.1, p.2. split; [now destruct p |].
  unfold p. rewrite pushTextIf_fragments, pushTextIf_document.
  split; [| split; [exact D |]].
  - rewrite textOf_app, T. destruct (i <? String.length text)%nat eqn:C.
    + rewrite textOf_single. cbn [textContent].
      rewrite slice_slice by lia. now apply slice_all.
    + apply Nat.ltb_ge in C. rewrite append_nil_r. apply slice_all. lia.
  - rewrite <- pushTextIf_fragments. apply Growing_pushTextIf, G.
    split; [lia |]. split; [constructor |]. split; [intros j [] |].
    split; [exact S | simpl; lia].
Qed.

(** *** Replacing a text node by its fragments *)

(** What the replacement does to one text node of the document. *)
Definition swap (t : nat) (frags : list Node) (p : nat * string) : list (nat * string) :=
  if (fst p =? t)%nat then flat_map textNodes frags else [p].

Lemma replaceTextNode_textNodes t frags n :
  flat_map textNodes (replaceTextNode t frags n) = flat_map (swap t frags) (textNodes n).
Proof.
  induction n as [i d | i tg cl ti cs IH] using Node_tree_ind.
  - cbn [replaceTextNode textNodes flat_map]. unfold swap. cbn [fst].
    rewrite app_nil_r. destruct (i =? t)%nat; [reflexivity |].
    cbn. reflexivity.
  - cbn [replaceTextNode flat_map textNodes]. rewrite app_nil_r.
    rewrite !flat_map_flat_map. now apply flat_map_ext_Forall.
Qed.

Lemma replaceTextNode_all_textNodes t frags nodes :
  flat_map textNodes (flat_map (replaceTextNode t frags) nodes)
  = flat_map (swap t frags) (flat_map textNodes nodes).
Proof.
  rewrite !flat_map_flat_map. apply flat_map_ext_Forall, List.Forall_forall.
  intros n _. apply replaceTextNode_textNodes.
Qed.

(** The number of text nodes of identity [t]. *)
Definition occurrences (t : nat) (l : list (nat * string)) : nat :=
  length (List.filter (fun p => (fst p =? t)%nat) l).

Lemma occurrences_app t l1 l2 :
  occurrences t (l1 ++ l2) = occurrences t l1 + occurrences t l2.
Proof. unfold occurrences. now rewrite List.filter_app, length_app. Qed.

Lemma replaceTextNode_spans cls t frags n :
  length (flat_map (classIds cls) (replaceTextNode t frags n))
  = length (classIds cls n)
    + occurrences t (textNodes n) * length (flat_map (classIds cls) frags).
Proof.
  induction n as [i d | i tg cl ti cs IH] using Node_tree_ind.
  - cbn [replaceTextNode textNodes]. unfold occurrences. cbn [List.filter fst].
    destruct (i =? t)%nat; cbn [length]; [| reflexivity].
    change (classIds cls (Text i d)) with (@nil nat). cbn [length]. lia.
  - cbn [replaceTextNode flat_map textNodes]. rewrite app_nil_r, !classIds_Element, !length_app.
    rewrite <- Nat.add_assoc. f_equal.
    induction IH as [| c cs Hc _ IHcs]; [reflexivity |].
    cbn [flat_map]. rewrite flat_map_app, !length_app, occurrences_app, Hc, IHcs. lia.
Qed.

Lemma replaceTextNode_all_spans cls t frags nodes :
  length (flat_map (classIds cls) (flat_map (replaceTextNode t frags) nodes))
  = length (flat_map (classIds cls) nodes)
    + occurrences t (flat_map textNodes nodes) * length (flat_map (classIds cls) frags).
Proof.
  induction nodes as [| n nodes IH]; [reflexivity |].
  cbn [flat_map]. rewrite flat_map_app, !length_app, occurrences_app, IH,
    replaceTextNode_spans. lia.
Qed.

Lemma occurrences_none t l : ~ In t (map fst l) -> occurrences t l = 0.
Proof.
  unfold occurrences. induction l as [| [k d] l IH]; [reflexivity |].
  intros N. cbn [List.filter fst]. destruct (k =? t)%nat eqn:E.
  - apply Nat.eqb_eq in E. exfalso. apply N. now left.
  - apply IH. intros I. apply N. now right.
Qed.

Lemma occurrences_one t d l :
  List.NoDup (map fst l) -> In (t, d) l -> occurrences t l = 1.
Proof.
  induction l as [| [k d0] l IH]; [intros _ [] |].
  cbn [map fst]. intros ND I. inversion ND as [| ? ? Nk ND']; subst.
  change ((k, d0) :: l) with ([(k, d0)] ++ l) at 1. rewrite occurrences_app.
  unfold occurrences at 1. cbn [List.filter fst].
  destruct (k =? t)%nat eqn:E.
  - apply Nat.eqb_eq in E. subst k. now rewrite occurrences_none.
  - apply Nat.eqb_neq in E. destruct I as [I | I]; [congruence |].
    now rewrite (IH ND' I).
Qed.

Lemma swap_ids t frags l :
  map fst (flat_map (swap t frags) l)
  = flat_map (fun k => if (k =? t)%nat then textIds frags else [k]) (map fst l).
Proof.
  induction l as [| [k d] l IH]; [reflexivity |].
  cbn [flat_map map fst]. rewrite map_app, IH. f_equal.
  unfold swap. cbn [fst]. now destruct (k =? t)%nat.
Qed.

Lemma In_swapped t (F ks : list nat) x :
  In x (flat_map (fun k => if (k =? t)%nat then F else [k]) ks) ->
  In x ks \/ (In x F /\ In t ks).
Proof.
  induction ks as [| k ks IH]; [intros [] |].
  cbn [flat_map]. intros I. apply in_app_or in I. destruct I as [I | I].
  - destruct (k =? t)%nat eqn:E.
    + apply Nat.eqb_eq in E. right. split; [exact I | now left].
    + destruct I as [<- | []]. left. now left.
  - destruct (IH I) as [H | [H1 H2]]; [left; now right | right; split; [exact H1 | now right]].
Qed.

Lemma NoDup_swapped t (F ks : list nat) :
  List.NoDup ks -> List.NoDup F -> (forall x, In x F -> ~ In x ks) ->
  List.NoDup (flat_map (fun k => if (k =? t)%nat then F else [k]) ks).
Proof.
  intros ND NF Dis. induction ks as [| k ks IH]; [constructor |].
  inversion ND as [| ? ? Nk ND']; subst. cbn [flat_map].
  assert (Dis' : forall x, In x F -> ~ In x ks).
  { intros x I H. apply (Dis x I). now right. }
  apply List.NoDup_app; [| now apply IH |].
  - destruct (k =? t)%nat; [exact NF | repeat constructor; intros []].
  - intros a Ia H. apply In_swapped in H.
    destruct (k =? t)%nat eqn:E.
    + apply Nat.eqb_eq in E. subst k.
      destruct H as [H | [_ H]]; [now apply (Dis' a Ia) | now apply Nk].
    + destruct Ia as [<- | []].
      destruct H as [H | [H _]]; [now apply Nk | apply (Dis k H); now left].
Qed.

Lemma In_textNodeData t d nodes :
  List.NoDup (textIds nodes) -> In (t, d) (flat_map textNodes nodes) ->
  textNodeData t nodes = Some d.
Proof.
  unfold textNodeData, textIds. intros ND I.
  destruct (List.find _ _) as [[k d0]|] eqn:E.
  - apply find_some in E. destruct E as [I0 K].
    apply Nat.eqb_eq in K. cbn [fst] in K. subst k. cbn. f_equal.
    eapply distinct_keys; eassumption.
  - apply (find_none _ _ E) in I. cbn [fst] in I. now rewrite Nat.eqb_refl in I.
Qed.

Lemma length_joinText_In (parts : list string) s :
  In s parts -> String.length s <= String.length (joinText parts).
Proof.
  induction parts as [| p parts IH]; [intros [] |].
  cbn [joinText fold_right]. fold (joinText parts). rewrite length_append.
  intros [<- | I]; [lia | apply IH in I; lia].
Qed.

Lemma textNode_length t d n :
  In (t, d) (textNodes n) -> String.length d <= String.length (textContent n).
Proof.
  induction n as [i d0 | i tg cl ti cs IH] using Node_tree_ind.
  - intros [E | []]. injection E as _ <-. reflexivity.
  - cbn [textNodes textContent]. intros I. apply in_flat_map in I.
    destruct I as (c & Ic & I). rewrite List.Forall_forall in IH.
    etransitivity; [exact (IH c Ic I) |].
    apply length_joinText_In. now apply in_map.
Qed.

Lemma textNode_length_document t d nodes :
  In (t, d) (flat_map textNodes nodes) ->
  String.length d <= String.length (textOf nodes).
Proof.
  intros I. apply in_flat_map in I. destruct I as (n & In_ & I).
  etransitivity; [exact (textNode_length t d n I) |].
  apply length_joinText_In. now apply in_map.
Qed.

(** *** Highlighting one text node of the document *)

Lemma highlight_step words fuel pattern st t text :
  Forall (fun w => w <> EmptyString) words ->
  alternatives pattern = words ->
  Ready st ->
  In (t, text) (flat_map textNodes (document st)) ->
  String.length (textOf (document st)) < fuel ->
  exists st',
    highlightForbiddenWordsInNode fuel t pattern st = Some st'
    /\ Ready st'
    /\ textOf (document st') = textOf (document st)
    /\ (forall t' d, t' <> t -> In (t', d) (flat_map textNodes (document st)) ->
          In (t', d) (flat_map textNodes (document st')))
    /\ length (wordScannerHighlights st') + length (spans (document st))
       = length (wordScannerHighlights st) + length (spans (document st')).
Proof.
  intros NE Ha (ND & Bd & Bs) I Lf.
  pose proof (In_textNodeData t text _ ND I) as Data.
  pose proof (textNode_length_document _ _ _ I) as Lt.
  destruct (buildFragments_ready words text fuel pattern st NE Ha ltac:(lia) Bs)
    as (frags & st1 & BF & T & D & (B & NDf & Rf & Sf & Lfr)).
  unfold highlightForbiddenWordsInNode. rewrite Data, BF.
  destruct (0 <? length frags)%nat eqn:C.
  - eexists. split; [reflexivity |]. unfold Ready.
    cbn [document setDocument wordScannerHighlights WordScanner.nextId]. rewrite D.
    assert (Ids : textIds (flat_map (replaceTextNode t frags) (document st))
                  = flat_map (fun k => if (k =? t)%nat then textIds frags else [k])
                      (textIds (document st))).
    { unfold textIds at 1. rewrite replaceTextNode_all_textNodes. apply swap_ids. }
    split; [split; [| split] |].
    + rewrite Ids. apply NoDup_swapped; [exact ND | exact NDf |].
      intros x Ix H. apply Rf in Ix. apply Bd in H. lia.
    + intros i Ii. rewrite Ids in Ii. apply In_swapped in Ii.
      destruct Ii as [H | [H _]]; [apply Bd in H; lia | apply Rf in H; lia].
    + exact Sf.
    + split; [| split].
      * apply replaceTextNode_document. intros d Hd. rewrite T.
        exact (textNodeData_unique t (document st) text d ND Data Hd).
      * intros t' d Ne Id. rewrite replaceTextNode_all_textNodes.
        apply in_flat_map. exists (t', d). split; [exact Id |].
        unfold swap. cbn [fst]. apply Nat.eqb_neq in Ne. rewrite Ne. now left.
      * unfold spans at 2. rewrite replaceTextNode_all_spans.
        rewrite (occurrences_one t text _ ND I). fold (spans (document st)).
        fold (spans frags). lia.
  - apply Nat.ltb_ge in C. assert (frags = []) as -> by (destruct frags; [reflexivity | simpl in C; lia]).
    exists st1. split; [reflexivity |]. unfold Ready. rewrite D.
    split; [split; [exact ND | split; [intros i Ii; apply Bd in Ii; lia | exact Sf]] |].
    split; [reflexivity |]. split; [auto |].
    rewrite Lfr. cbn. lia.
Qed.

(** *** The loop over the collected text nodes *)

Lemma processNodes_spec words fuel pattern nodes :
  Forall (fun w => w <> EmptyString) words ->
  alternatives pattern = words ->
  forall st,
    List.NoDup nodes ->
    Ready st ->
    (forall t, In t nodes -> In t (textIds (document st))) ->
    String.length (textOf (document st)) < fuel ->
    exists st',
      processNodes fuel nodes pattern st = Some st'
      /\ Ready st'
      /\ textOf (document st') = textOf (document st)
      /\ (forall t d, ~ In t nodes -> In (t, d) (flat_map textNodes (document st)) ->
            In (t, d) (flat_map textNodes (document st')))
      /\ length (wordScannerHighlights st') + length (spans (document st))
         = length (wordScannerHighlights st) + length (spans (document st')).
Proof.
  intros NE Ha. induction nodes as [| t rest IH]; intros st ND R Here Lf.
  - exists st. cbn. auto.
  - apply List.NoDup_cons_iff in ND. destruct ND as [Nt ND'].
    assert (It : In t (textIds (document st))) by (apply Here; now left).
    apply in_map_iff in It. destruct It as ([t0 text] & E & It). cbn in E. subst t0.
    destruct (highlight_step words fuel pattern st t text NE Ha R It Lf)
      as (st1 & H1 & R1 & T1 & K1 & C1).
    cbn [processNodes]. rewrite H1.
    destruct (IH st1 ND' R1) as (st' & H' & R' & T' & K' & C').
    + intros t' I'. assert (I0 : In t' (textIds (document st))) by (apply Here; now right).
      apply in_map_iff in I0. destruct I0 as ([t0 d] & E & I0). cbn in E. subst t0.
      apply in_map_iff. exists (t', d). split; [reflexivity |].
      apply K1; [| exact I0]. intros ->. contradiction.
    + now rewrite T1.
    + exists st'. split; [exact H' |]. split; [exact R' |].
      split; [now rewrite T', T1 |]. split; [| lia].
      intros t' d N I. apply K'; [intros I'; apply N; now right |].
      apply K1; [| exact I]. intros ->. apply N. now left.
Qed.

(** *** The tree walker *)

Lemma acceptNode_alternatives pattern node :
  alternatives (acceptNode pattern node).2 = alternatives pattern.
Proof.
  unfold acceptNode. destruct (_ || _); [reflexivity |].
  destruct (_ || _); [reflexivity |].
  unfold test, exec. destruct (search _ _ _ _) as [[s e]|]; reflexivity.
Qed.

Lemma walk_from nodes :
  forall acc pattern,
    exists accepted,
      (fold_left
         (fun '(nodesToProcess, pattern) node =>
            let '(accepted, pattern1) := acceptNode pattern node in
            (if accepted then nodesToProcess ++ [w_node node] else nodesToProcess, pattern1))
         nodes (acc, pattern)).1 = acc ++ accepted
      /\ accepted `sublist_of` map w_node nodes
      /\ alternatives
           (fold_left
              (fun '(nodesToProcess, pattern) node =>
                 let '(accepted, pattern1) := acceptNode pattern node in
                 (if accepted then nodesToProcess ++ [w_node node] else nodesToProcess,
                  pattern1))
              nodes (acc, pattern)).2 = alternatives pattern.
Proof.
  induction nodes as [| w nodes IH]; intros acc pattern.
  - exists []. cbn. rewrite app_nil_r. split; [reflexivity |]. split; reflexivity.
  - cbn [fold_left map].
    pose proof (acceptNode_alternatives pattern w) as A.
    destruct (acceptNode pattern w) as [ok p1]. cbn [snd] in A.
    destruct ok.
    + destruct (IH (acc ++ [w_node w]) p1) as (l & E1 & S & E2).
      exists (w_node w :: l). rewrite E1, E2, <- app_assoc.
      split; [reflexivity |]. split; [now apply sublist_skip | exact A].
    + destruct (IH acc p1) as (l & E1 & S & E2).
      exists l. rewrite E1, E2.
      split; [reflexivity |]. split; [now apply sublist_cons | exact A].
Qed.

Lemma walk_spec pattern nodes :
  (walk pattern nodes).1 `sublist_of` map w_node nodes
  /\ alternatives (walk pattern nodes).2 = alternatives pattern.
Proof.
  unfold walk. destruct (walk_from nodes [] pattern) as (l & E & S & A).
  rewrite E, A. split; [exact S | reflexivity].
Qed.

Lemma textNodesUnder_ids n :
  forall tg cl, map w_node (textNodesUnder tg cl n) = map fst (textNodes n).
Proof.
  induction n as [i d | i t c ti cs IH] using Node_tree_ind; intros tg cl; [reflexivity |].
  cbn [textNodesUnder textNodes]. rewrite !map_flat_map.
  apply flat_map_ext_Forall. rewrite List.Forall_forall in *. intros x Hx. now apply IH.
Qed.

Lemma walker_ids tg cl nodes :
  map w_node (flat_map (textNodesUnder tg cl) nodes) = textIds nodes.
Proof.
  unfold textIds. rewrite !map_flat_map. apply flat_map_ext_Forall, List.Forall_forall.
  intros n _. apply textNodesUnder_ids.
Qed.

(** *** The children of the Document node and of the html element *)

(** The children of a node that are elements whose tag name and class
    list satisfy [q]. *)
Definition elementIds (q : string -> list string -> bool) (nodes : list Node) : list nat :=
  flat_map (fun n => match n with
                     | Text _ _ => []
                     | Element i t cl _ _ => if q t cl then [i] else []
                     end) nodes.

Definition isBodyTag (t : string) (cl : list string) : bool :=
  String.eqb t "BODY" || String.eqb t "FRAMESET".

Definition isMarked (t : string) (cl : list string) : bool :=
  existsb (String.eqb highlightClass) cl.

Lemma documentChildren_elementIds nodes :
  documentChildren nodes = elementIds (fun _ _ => true) nodes.
Proof. reflexivity. Qed.

Lemma elementIds_In q x nodes :
  In x (elementIds q nodes) <->
  exists t cl ti cs, In (Element x t cl ti cs) nodes /\ q t cl = true.
Proof.
  unfold elementIds. rewrite in_flat_map. split.
  - intros ([i d | i t cl ti cs] & I & H); [destruct H |].
    destruct (q t cl) eqn:Q; [| destruct H]. destruct H as [<- | []].
    now exists t, cl, ti, cs.
  - intros (t & cl & ti & cs & I & Q). exists (Element x t cl ti cs).
    split; [exact I |]. rewrite Q. now left.
Qed.

Lemma elementIds_replaceByText q h fresh nodes :
  elementIds q (map (replaceByText h fresh) nodes)
  = List.filter (fun i => negb (i =? h)%nat) (elementIds q nodes).
Proof.
  induction nodes as [| n r IH]; [reflexivity |].
  unfold elementIds in *. cbn [map flat_map]. rewrite List.filter_app, IH. f_equal.
  destruct n as [i d | i t cl ti cs]; [reflexivity |].
  cbn [replaceByText]. destruct (i =? h)%nat eqn:E.
  - destruct (q t cl); [| reflexivity]. cbn [List.filter]. now rewrite E.
  - destruct (q t cl); [| reflexivity]. cbn [List.filter]. now rewrite E.
Qed.

Lemma filter_all {A} (p : A -> bool) (l : list A) :
  (forall x, In x l -> p x = true) -> List.filter p l = l.
Proof.
  induction l as [| a l IH]; [reflexivity |]. intros H. cbn [List.filter].
  rewrite (H a) by now left. f_equal. apply IH. intros x I. apply H. now right.
Qed.

Lemma documentChildren_replaceByText h fresh nodes :
  ~ In h (documentChildren nodes) ->
  documentChildren (map (replaceByText h fresh) nodes) = documentChildren nodes.
Proof.
  intros N. rewrite !documentChildren_elementIds, elementIds_replaceByText.
  apply filter_all. intros x I. apply negb_true_iff, Nat.eqb_neq. intros ->.
  now apply N.
Qed.

Lemma restoreAll_elementIds q l :
  forall st x,
    In x (elementIds q (document (fold_left restoreText l st)))
    <-> In x (elementIds q (document st)) /\ ~ In x l.
Proof.
  induction l as [| h l IH]; intros st x; cbn [fold_left].
  - cbn [In]. tauto.
  - rewrite IH. unfold restoreText at 1. cbn [document].
    rewrite elementIds_replaceByText, List.filter_In, negb_true_iff, Nat.eqb_neq.
    cbn [In]. intuition congruence.
Qed.

Lemma restoreAll_documentChildren l :
  forall st,
    (forall h, In h l -> ~ In h (documentChildren (document st))) ->
    documentChildren (document (fold_left restoreText l st))
    = documentChildren (document st).
Proof.
  induction l as [| h l IH]; intros st N; [reflexivity |]. cbn [fold_left].
  assert (E : documentChildren (document (restoreText st h))
              = documentChildren (document st)).
  { unfold restoreText. cbn [document]. apply documentChildren_replaceByText.
    apply N. now left. }
  rewrite IH, E; [reflexivity |]. intros h' I. rewrite E. apply N. now right.
Qed.

(** The html element stays where it is as long as it is not restored
    itself, and so does every child of it that is not restored. *)
Lemma restoreAll_root l :
  forall st hid t hcl hti hcs,
    document st = [Element hid t hcl hti hcs] ->
    ~ In hid l ->
    exists hcs',
      document (fold_left restoreText l st) = [Element hid t hcl hti hcs']
      /\ forall q x, In x (elementIds q hcs') <-> In x (elementIds q hcs) /\ ~ In x l.
Proof.
  induction l as [| h l IH]; intros st hid t hcl hti hcs D N; cbn [fold_left].
  - exists hcs. split; [exact D |]. intros q x. cbn [In]. tauto.
  - assert (Ne : (hid =? h)%nat = false)
      by (apply Nat.eqb_neq; intros ->; apply N; now left).
    destruct (IH (restoreText st h) hid t hcl hti
                (map (replaceByText h (nextId st)) hcs)) as (hcs' & D' & K).
    + unfold restoreText. cbn [document]. rewrite D. cbn [map replaceByText].
      now rewrite Ne.
    + intros I. apply N. now right.
    + exists hcs'. split; [exact D' |]. intros q x. rewrite K.
      rewrite elementIds_replaceByText, List.filter_In, negb_true_iff, Nat.eqb_neq.
      cbn [In]. intuition congruence.
Qed.

(** *** The loops of the removal *)

Lemma existsb_eqb_In x (l : list nat) : existsb (Nat.eqb x) l = true <-> In x l.
Proof.
  rewrite existsb_exists. split.
  - intros (y & I & E). apply Nat.eqb_eq in E. now subst.
  - intros I. exists x. split; [exact I | apply Nat.eqb_refl].
Qed.

Lemma forEach_returns l :
  forall st,
    (forall h, In h l -> ~ In h (documentChildren (document st))) ->
    forEach replaceChildByText l st = Normal (fold_left restoreText l st).
Proof.
  induction l as [| h l IH]; intros st N; [reflexivity |].
  cbn [forEach fold_left]. unfold replaceChildByText at 1.
  destruct (existsb (Nat.eqb h) (documentChildren (document st))) eqn:E.
  - apply existsb_eqb_In in E. exfalso. now apply (N h); [left |].
  - apply IH. intros h' I. unfold restoreText. cbn [document].
    rewrite documentChildren_replaceByText; [apply N; now right |].
    intros I'. apply existsb_eqb_In in I'. congruence.
Qed.

Lemma forEach_throws l :
  forall st h,
    In h l -> In h (documentChildren (document st)) ->
    exists st',
      forEach replaceChildByText l st
      = Abrupt (DOMException "HierarchyRequestError") st'
      /\ documentChildren (document st') = documentChildren (document st).
Proof.
  induction l as [| h0 l IH]; intros st h I C; [destruct I |].
  cbn [forEach]. unfold replaceChildByText at 1.
  destruct (existsb (Nat.eqb h0) (documentChildren (document st))) eqn:E.
  - eexists. split; reflexivity.
  - assert (N0 : ~ In h0 (documentChildren (document st))).
    { intros I'. apply existsb_eqb_In in I'. congruence. }
    assert (D : documentChildren (document (restoreText st h0))
                = documentChildren (document st)).
    { unfold restoreText. cbn [document]. now apply documentChildren_replaceByText. }
    destruct I as [-> | I]; [contradiction |].
    destruct (IH (restoreText st h0) h I) as (st' & F & D'); [now rewrite D |].
    exists st'. split; [exact F | now rewrite D'].
Qed.

(** Where no child of the Document node is restored, the removal is the
    one of the scanner taken by itself. *)
Lemma removeWordHighlights_returns st :
  (forall i, In i (documentChildren (document st)) ->
     ~ In i (wordScannerHighlights st)
     /\ ~ In i (flat_map (classIds highlightClass) (document st))) ->
  PageScan.removeWordHighlights st = Normal (WordScanner.removeWordHighlights st).
Proof.
  intros Clean. unfold PageScan.removeWordHighlights.
  rewrite forEach_returns by (intros h I C; exact (proj1 (Clean h C) I)).
  cbv zeta. unfold WordScanner.removeWordHighlights. cbv zeta.
  apply forEach_returns. cbn [document]. intros h I C.
  rewrite querySelectorAll_ids in I. apply restoreAll_classIds in I.
  rewrite restoreAll_documentChildren in C
    by (intros h' I' C'; exact (proj1 (Clean h' C') I')).
  exact (proj2 (Clean h C) (proj1 I)).
Qed.

(** *** The body of the document *)

Lemma find_isBodyElement cs b :
  List.find isBodyElement cs = Some b -> In (nodeId b) (elementIds isBodyTag cs).
Proof.
  intros F. apply List.find_some in F. destruct F as [I B].
  destruct b as [i d | i t cl ti k]; [discriminate |].
  apply elementIds_In. now exists t, cl, ti, k.
Qed.

Lemma isBodyElement_found cs x :
  In x (elementIds isBodyTag cs) ->
  exists b, List.find isBodyElement cs = Some b /\ In b cs.
Proof.
  intros I. apply elementIds_In in I. destruct I as (t & cl & ti & k & I & Q).
  destruct (List.find isBodyElement cs) as [b|] eqn:F.
  - exists b. split; [reflexivity |]. now apply List.find_some in F.
  - exfalso. pose proof (List.find_none _ _ F _ I) as N. cbn in N.
    unfold isBodyTag in Q. congruence.
Qed.

Lemma no_body cs :
  (forall x, ~ In x (elementIds isBodyTag cs)) -> List.find isBodyElement cs = None.
Proof.
  intros N. destruct (List.find isBodyElement cs) as [b|] eqn:F; [| reflexivity].
  exfalso. exact (N _ (find_isBodyElement _ _ F)).
Qed.

Lemma documentBody_html hid hcl hti hcs :
  documentBody [Element hid "HTML" hcl hti hcs] = List.find isBodyElement hcs.
Proof. reflexivity. Qed.

(** The document has an html element with a body. *)
Definition HasBody (nodes : list Node) : Prop :=
  exists hid hcl hti hcs x,
    nodes = [Element hid "HTML" hcl hti hcs] /\ In x (elementIds isBodyTag hcs).

Lemma HasBody_documentBody nodes :
  HasBody nodes ->
  exists b, documentBody nodes = Some b
            /\ map fst (textNodes b) `sublist_of` textIds nodes
            /\ forall tg cl, incl (textNodesBelow b) (flat_map (textNodesUnder tg cl) nodes).
Proof.
  intros (hid & hcl & hti & hcs & x & -> & I).
  destruct (isBodyElement_found _ _ I) as (b & F & Ib).
  exists b. rewrite documentBody_html. split; [exact F |]. split.
  - unfold textIds. cbn [flat_map textNodes]. rewrite app_nil_r, map_flat_map.
    clear F I. induction hcs as [| c r IH]; [destruct Ib |].
    cbn [flat_map]. destruct Ib as [-> | Ib].
    + apply sublist_inserts_r. reflexivity.
    + apply sublist_inserts_l. now apply IH.
  - intros tg cl w Iw. cbn [flat_map textNodesUnder]. rewrite app_nil_r.
    apply in_flat_map. exists b. split; [exact Ib |].
    apply List.find_some in F. destruct F as [_ B].
    destruct b as [i d | i t c ti k]; [discriminate | exact Iw].
Qed.

Lemma replaceTextNode_HasBody t frags nodes :
  HasBody nodes -> HasBody (flat_map (replaceTextNode t frags) nodes).
Proof.
  intros (hid & hcl & hti & hcs & x & -> & I).
  exists hid, hcl, hti, (flat_map (replaceTextNode t frags) hcs), x.
  split; [reflexivity |].
  apply elementIds_In in I. destruct I as (tg & cl & ti & k & I & Q).
  apply elementIds_In. exists tg, cl, ti, (flat_map (replaceTextNode t frags) k).
  split; [| exact Q]. apply in_flat_map. exists (Element x tg cl ti k).
  split; [exact I | now left].
Qed.

(** *** Text that the scan leaves alone *)

(** The parent of the text node is a script, a style sheet or a noscript
    element, or an element of the scanner or the detector. *)
Definition isProtected (w : WalkerNode) : bool :=
  let tagName := toLowerCase (w_parentTagName w) in
  (String.eqb tagName "script" || String.eqb tagName "style"
   || String.eqb tagName "noscript")
  || (contains (w_parentClassList w) "word-scanner-highlight"
      || contains (w_parentClassList w) "autofill-detector-overlay"
      || contains (w_parentClassList w) "autofill-detector-tooltip").

Lemma acceptNode_protected pattern w :
  (acceptNode pattern w).1 = true -> isProtected w = false.
Proof.
  unfold acceptNode, isProtected. cbv zeta.
  destruct (_ || _); [discriminate |].
  destruct (_ || _); [discriminate | reflexivity].
Qed.

Lemma walk_accepted nodes :
  forall acc pattern t,
    In t (fold_left
            (fun '(nodesToProcess, pattern) node =>
               let '(accepted, pattern1) := acceptNode pattern node in
               (if accepted then nodesToProcess ++ [w_node node] else nodesToProcess,
                pattern1))
            nodes (acc, pattern)).1 ->
    In t acc \/ exists w, In w nodes /\ w_node w = t /\ isProtected w = false.
Proof.
  induction nodes as [| w nodes IH]; intros acc pattern t; [now left |].
  cbn [fold_left].
  pose proof (acceptNode_protected pattern w) as A.
  destruct (acceptNode pattern w) as [ok p1]. cbn [fst] in A.
  intros I. apply IH in I. destruct I as [I | (w' & Iw & E & P)].
  - destruct ok; [| now left]. apply in_app_or in I.
    destruct I as [I | [<- | []]]; [now left |].
    right. exists w. split; [now left |]. split; [reflexivity | now apply A].
  - right. exists w'. split; [now right | now split].
Qed.

(** What the replacement does to one text node as the walker sees it. *)
Definition swapWalker (t : nat) (frags : list Node) (w : WalkerNode) : list WalkerNode :=
  if (w_node w =? t)%nat
  then flat_map (textNodesUnder (w_parentTagName w) (w_parentClassList w)) frags
  else [w].

Lemma replaceTextNode_walker t frags n :
  forall tg cl,
    flat_map (textNodesUnder tg cl) (replaceTextNode t frags n)
    = flat_map (swapWalker t frags) (textNodesUnder tg cl n).
Proof.
  induction n as [i d | i tn c ti cs IH] using Node_tree_ind; intros tg cl.
  - cbn [replaceTextNode textNodesUnder flat_map]. unfold swapWalker.
    cbn [w_node w_parentTagName w_parentClassList]. rewrite app_nil_r.
    destruct (i =? t)%nat; [reflexivity |]. cbn. reflexivity.
  - cbn [replaceTextNode flat_map textNodesUnder]. rewrite app_nil_r.
    rewrite !flat_map_flat_map. apply flat_map_ext_Forall.
    rewrite List.Forall_forall in *. intros x Hx. now apply IH.
Qed.

Lemma highlightLoop_document text fuel :
  forall pattern frags i st frags' i' st',
    highlightLoop fuel text pattern frags i st = Some (frags', i', st') ->
    document st' = document st.
Proof.
  induction fuel as [| fuel IH]; intros pattern frags i st frags' i' st' H; [discriminate |].
  rewrite highlightLoop_S in H.
  destruct (search _ _ _ _) as [[s e]|].
  - cbv zeta in H. apply IH in H. rewrite H, createHighlight_document.
    apply pushTextIf_document.
  - now injection H as <- <- <-.
Qed.

Lemma buildFragments_document fuel text pattern st frags st' :
  buildFragments fuel text pattern st = Some (frags, st') -> document st' = document st.
Proof.
  unfold buildFragments.
  destruct (highlightLoop _ _ _ _ _ _) as [[[f i] st1]|] eqn:H; [| discriminate].
  apply highlightLoop_document in H. intros E.
  assert (D : document (pushTextIf (i <? String.length text)%nat
                          (slice text i (String.length text)) f st1).2 = document st1)
    by apply pushTextIf_document.
  injection E as E. rewrite E in D. cbn [snd] in D. congruence.
Qed.

Lemma highlight_keeps fuel t pattern st st' tg cl w :
  highlightForbiddenWordsInNode fuel t pattern st = Some st' ->
  In w (flat_map (textNodesUnder tg cl) (document st)) -> w_node w <> t ->
  In w (flat_map (textNodesUnder tg cl) (document st')).
Proof.
  unfold highlightForbiddenWordsInNode.
  destruct (textNodeData t (document st)) as [text|]; [| discriminate].
  destruct (buildFragments fuel text pattern st) as [[frags st1]|] eqn:B; [| discriminate].
  apply buildFragments_document in B.
  destruct (0 <? length frags)%nat; intros E; injection E as <-; [| now rewrite B].
  cbn [document setDocument]. rewrite B. intros I Ne.
  rewrite flat_map_flat_map.
  apply in_flat_map in I. destruct I as (n & In_ & I).
  apply in_flat_map. exists n. split; [exact In_ |].
  rewrite replaceTextNode_walker. apply in_flat_map. exists w. split; [exact I |].
  unfold swapWalker. apply Nat.eqb_neq in Ne. rewrite Ne. now left.
Qed.

Lemma processNodes_keeps fuel pattern tg cl w nodes :
  forall st st',
    processNodes fuel nodes pattern st = Some st' ->
    In w (flat_map (textNodesUnder tg cl) (document st)) -> ~ In (w_node w) nodes ->
    In w (flat_map (textNodesUnder tg cl) (document st')).
Proof.
  induction nodes as [| t rest IH]; intros st st'; cbn [processNodes].
  - now intros [= <-].
  - destruct (highlightForbiddenWordsInNode fuel t pattern st) as [st1|] eqn:H;
      [| discriminate].
    intros P I N. apply (IH st1 st' P); [| intros I'; apply N; now right].
    apply (highlight_keeps _ _ _ _ _ _ _ _ H I). intros E. apply N. now left.
Qed.

Lemma removeWordHighlights_fresh_page st :
  wordScannerHighlights st = [] ->
  querySelectorAll highlightClass (document st) = [] ->
  document (WordScanner.removeWordHighlights st) = document st.
Proof.
  intros S Q. unfold WordScanner.removeWordHighlights. rewrite S. cbn [fold_left document].
  rewrite Q. reflexivity.
Qed.

Lemma same_node_same_walker (ws : list WalkerNode) w w' :
  List.NoDup (map w_node ws) -> In w ws -> In w' ws -> w_node w = w_node w' -> w = w'.
Proof.
  induction ws as [| x ws IH]; [intros _ [] |].
  cbn [map]. intros ND I I' E. apply List.NoDup_cons_iff in ND. destruct ND as [Nx ND].
  destruct I as [<- | I], I' as [<- | I'].
  - reflexivity.
  - exfalso. apply Nx. rewrite E. now apply in_map.
  - exfalso. apply Nx. rewrite <- E. now apply in_map.
  - now apply IH.
Qed.


Lemma highlight_HasBody fuel t pattern st st' :
  highlightForbiddenWordsInNode fuel t pattern st = Some st' ->
  HasBody (document st) -> HasBody (document st').
Proof.
  unfold highlightForbiddenWordsInNode.
  destruct (textNodeData t (document st)) as [text|]; [| discriminate].
  destruct (buildFragments fuel text pattern st) as [[frags st1]|] eqn:B; [| discriminate].
  apply buildFragments_document in B.
  destruct (0 <? length frags)%nat; intros E; injection E as <-; [| now rewrite B].
  cbn [document setDocument]. rewrite B. apply replaceTextNode_HasBody.
Qed.

Lemma processNodes_HasBody fuel pattern nodes :
  forall st st',
    processNodes fuel nodes pattern st = Some st' ->
    HasBody (document st) -> HasBody (document st').
Proof.
  induction nodes as [| t rest IH]; intros st st'; cbn [processNodes].
  - now intros [= <-].
  - destruct (highlightForbiddenWordsInNode fuel t pattern st) as [st1|] eqn:H;
      [| discriminate].
    intros P B. apply (IH st1 st' P). exact (highlight_HasBody _ _ _ _ _ H B).
Qed.

(** *** The scan *)

Lemma spans_length nodes :
  length (spans nodes) = length (querySelectorAll highlightClass nodes).
Proof. unfold spans. now rewrite <- querySelectorAll_ids, length_map. Qed.

Lemma dom_pauseObserver sc : dom (pauseObserver sc) = dom sc.
Proof. unfold pauseObserver. now destruct (wordScannerObserver sc). Qed.

Lemma sent_pauseObserver sc : sent (pauseObserver sc) = sent sc.
Proof. unfold pauseObserver. now destruct (wordScannerObserver sc). Qed.

Lemma forbiddenWords_pauseObserver sc : forbiddenWords (pauseObserver sc) = forbiddenWords sc.
Proof. unfold pauseObserver. now destruct (wordScannerObserver sc). Qed.

Lemma reconnectObserver_returns sc :
  HasBody (document (dom sc)) ->
  exists sc',
    reconnectObserver sc = Normal sc' /\ dom sc' = dom sc /\ sent sc' = sent sc.
Proof.
  intros B. destruct (HasBody_documentBody _ B) as (b & E & _).
  unfold reconnectObserver. rewrite E.
  destruct (wordScannerObserver sc); [| now exists sc].
  destruct (wordScannerEnabled sc); [| now exists sc].
  eexists. split; [reflexivity |]. split; reflexivity.
Qed.

(** The removal on a document whose html element and body are neither
    members of the Set nor elements of the class of a highlight. *)
Lemma removal_keeps_body st hid hcl hti hcs body :
  document st = [Element hid "HTML" hcl hti hcs] ->
  documentBody (document st) = Some body ->
  (forall i, In i [hid; nodeId body] ->
     ~ In i (wordScannerHighlights st)
     /\ ~ In i (map nodeId (querySelectorAll highlightClass (document st)))) ->
  PageScan.removeWordHighlights st = Normal (WordScanner.removeWordHighlights st)
  /\ HasBody (document (WordScanner.removeWordHighlights st)).
Proof.
  intros D Body Clean.
  assert (Ch : ~ In hid (wordScannerHighlights st)
               /\ ~ In hid (flat_map (classIds highlightClass) (document st))).
  { rewrite <- querySelectorAll_ids. apply Clean. now left. }
  assert (Cb : ~ In (nodeId body) (wordScannerHighlights st)
               /\ ~ In (nodeId body) (flat_map (classIds highlightClass) (document st))).
  { rewrite <- querySelectorAll_ids. apply Clean. right. now left. }
  split.
  - apply removeWordHighlights_returns. rewrite D. cbn. intros i [<- | []].
    now rewrite D in Ch.
  - rewrite D, documentBody_html in Body. apply find_isBodyElement in Body.
    unfold WordScanner.removeWordHighlights. cbv zeta.
    destruct (restoreAll_root (wordScannerHighlights st) st _ _ _ _ _ D (proj1 Ch))
      as (hcs1 & D1 & K1).
    set (st2 := {| document := _; wordScannerHighlights := []; nextId := _ |}).
    assert (D2 : document st2 = [Element hid "HTML" hcl hti hcs1]) by exact D1.
    assert (Sub : forall x,
               In x (map nodeId (querySelectorAll highlightClass (document st2))) ->
               In x (flat_map (classIds highlightClass) (document st))).
    { intros x I. rewrite querySelectorAll_ids in I. cbn [st2 document] in I.
      now apply restoreAll_classIds in I. }
    destruct (restoreAll_root _ st2 _ _ _ _ _ D2 (fun I => proj2 Ch (Sub _ I)))
      as (hcs2 & D3 & K2).
    exists hid, hcl, hti, hcs2, (nodeId body). split; [exact D3 |].
    apply K2. split; [apply K1; split; [exact Body | exact (proj1 Cb)] |].
    intros I. exact (proj2 Cb (Sub _ I)).
Qed.

Lemma scan_spec fuel sc hid hcl hti hcs body :
  wordScannerEnabled sc = true ->
  Forall (fun w => w <> EmptyString) (forbiddenWords sc) ->
  document (dom sc) = [Element hid "HTML" hcl hti hcs] ->
  documentBody (document (dom sc)) = Some body ->
  (forall i, In i [hid; nodeId body] ->
     ~ In i (wordScannerHighlights (dom sc))
     /\ ~ In i (map nodeId (querySelectorAll highlightClass (document (dom sc))))) ->
  WellFormed (dom sc) ->
  String.length (textOf (document (dom sc))) < fuel ->
  exists sc',
    scanForForbiddenWords fuel sc = Some (Normal sc')
    /\ textOf (document (dom sc')) = textOf (document (dom sc))
    /\ length (wordScannerHighlights (dom sc'))
       = length (querySelectorAll highlightClass (document (dom sc')))
    /\ sent sc' = sent sc ++ [length (wordScannerHighlights (dom sc'))]
    /\ ((length (forbiddenWords sc) =? 0)%nat = true
          /\ dom sc' = WordScanner.removeWordHighlights (dom sc)
        \/ exists b1 pattern,
             documentBody (document (WordScanner.removeWordHighlights (dom sc))) = Some b1
             /\ processNodes fuel
                  (walk (buildPattern (forbiddenWords sc)) (textNodesBelow b1)).1
                  pattern (WordScanner.removeWordHighlights (dom sc))
                = Some (dom sc')).
Proof.
  intros En NE D Body Clean W Lf. unfold scanForForbiddenWords.
  rewrite En, Body. cbn [negb]. cbv zeta.
  rewrite dom_pauseObserver, forbiddenWords_pauseObserver.
  destruct (removal_keeps_body (dom sc) _ _ _ _ _ D Body Clean) as [Rm HB].
  rewrite Rm.
  set (st1 := WordScanner.removeWordHighlights (dom sc)) in *.
  assert (W1 : WellFormed st1) by now apply removeWordHighlights_WellFormed.
  assert (S1 : wordScannerHighlights st1 = []) by apply removeWordHighlights_Set.
  assert (R1 : Ready st1) by now apply WellFormed_Ready.
  assert (T1 : textOf (document st1) = textOf (document (dom sc)))
    by apply removeWordHighlights_text.
  assert (P1 : spans (document st1) = []) by apply removeWordHighlights_classIds.
  destruct (length (forbiddenWords sc) =? 0)%nat eqn:L0.
  - destruct (reconnectObserver_returns
                (updateWordScannerBadge (withDom st1 (pauseObserver sc))))
      as (sc' & E' & Dm & Sn); [exact HB |].
    exists sc'. rewrite E'. split; [reflexivity |].
    cbn [dom sent updateWordScannerBadge withDom] in Dm, Sn.
    rewrite Dm, Sn, sent_pauseObserver.
    split; [exact T1 |]. rewrite S1, <- spans_length, P1.
    split; [reflexivity |]. split; [reflexivity |]. left. now split.
  - destruct (HasBody_documentBody _ HB) as (b1 & B1 & Sub1 & _). rewrite B1.
    pose proof (walk_spec (buildPattern (forbiddenWords sc)) (textNodesBelow b1))
      as [Sub Alt].
    destruct (walk _ (textNodesBelow b1)) as [nodes p1] eqn:Wk. cbn [fst snd] in Sub, Alt.
    unfold textNodesBelow in Sub. rewrite textNodesUnder_ids in Sub.
    assert (Sub' : nodes `sublist_of` textIds (document st1))
      by (etransitivity; [exact Sub | exact Sub1]).
    destruct (processNodes_spec (forbiddenWords sc) fuel p1 nodes NE Alt st1)
      as (st2 & H2 & R2 & T2 & _ & C2).
    + exact (ListNoDup_sublist _ _ Sub' (proj1 R1)).
    + exact R1.
    + intros t I. exact (In_sublist _ _ _ Sub' I).
    + now rewrite T1.
    + rewrite H2.
      destruct (reconnectObserver_returns
                  (updateWordScannerBadge (withDom st2 (pauseObserver sc))))
        as (sc' & E' & Dm & Sn).
      { cbn [dom updateWordScannerBadge withDom].
        exact (processNodes_HasBody _ _ _ _ _ H2 HB). }
      exists sc'. rewrite E'. split; [reflexivity |].
      cbn [dom sent updateWordScannerBadge withDom] in Dm, Sn.
      rewrite Dm, Sn, sent_pauseObserver.
      split; [now rewrite T2, T1 |].
      rewrite S1, P1 in C2. cbn in C2. rewrite <- spans_length.
      split; [lia |]. split; [reflexivity |]. right. exists b1, p1.
      split; [reflexivity |]. rewrite Wk. exact H2.
Qed.

(** No highlight is left behind.  In a document whose html element is
    neither a member of the Set nor an element of the class of a highlight,
    [removeWordHighlights] returns; afterwards the document holds no
    element of that class, whether or not the highlights it held were
    members of the Set, the Set is empty, and the text is as it was. *)
Theorem removeWordHighlights_leaves_no_highlight (st : State) :
  (forall i, In i (documentChildren (document st)) ->
     ~ In i (wordScannerHighlights st)
     /\ ~ In i (map nodeId (querySelectorAll "word-scanner-highlight" (document st)))) ->
  exists st',
    removeWordHighlights st = Normal st'
    /\ querySelectorAll "word-scanner-highlight" (document st') = []
    /\ wordScannerHighlights st' = []
    /\ textOf (document st') = textOf (document st).
Proof.
  intros Clean. exists (WordScanner.removeWordHighlights st). split.
  - apply removeWordHighlights_returns. intros i I.
    rewrite <- querySelectorAll_ids. now apply Clean.
  - split; [| split].
    + apply (map_eq_nil nodeId). rewrite querySelectorAll_ids.
      apply removeWordHighlights_classIds.
    + apply removeWordHighlights_Set.
    + apply removeWordHighlights_text.
Qed.

Lemma removeWordHighlights_leaves_no_highlight_witness :
  exists st',
    removeWordHighlights (dom samplePage) = Normal st'
    /\ querySelectorAll "word-scanner-highlight" (document st') = []
    /\ wordScannerHighlights st' = []
    /\ textOf (document st') = textOf (document (dom samplePage)).
Proof.
  apply (removeWordHighlights_leaves_no_highlight (dom samplePage)).
  simpl. intros i [<- | []]. split; intros H; simpl in H; intuition discriminate.
Defined.

(** Where the html element itself has the class of a highlight,
    [removeWordHighlights] throws a HierarchyRequestError: a text node
    cannot take the place of the html element, which stays. *)
Theorem removeWordHighlights_throws_at_html (st : State) :
  existsb (hasClass "word-scanner-highlight") (document st) = true ->
  exists st',
    removeWordHighlights st = Abrupt (DOMException "HierarchyRequestError") st'
    /\ documentChildren (document st') = documentChildren (document st).
Proof.
  intros M. apply existsb_exists in M. destruct M as (n & In_ & M).
  destruct n as [i d | i t cl ti cs]; [discriminate |]. cbn [hasClass] in M.
  assert (C : In i (documentChildren (document st))).
  { rewrite documentChildren_elementIds. apply elementIds_In. now exists t, cl, ti, cs. }
  unfold removeWordHighlights.
  destruct (existsb (fun h => existsb (Nat.eqb h) (documentChildren (document st)))
              (wordScannerHighlights st)) eqn:E.
  - apply existsb_exists in E. destruct E as (h & I & E). apply existsb_eqb_In in E.
    destruct (forEach_throws _ st h I E) as (st' & F & D).
    exists st'. rewrite F. now split.
  - assert (N : forall h, In h (wordScannerHighlights st) ->
                  ~ In h (documentChildren (document st))).
    { intros h I C'. apply existsb_eqb_In in C'.
      assert (X : existsb (fun h => existsb (Nat.eqb h) (documentChildren (document st)))
                    (wordScannerHighlights st) = true)
        by (apply existsb_exists; now exists h).
      congruence. }
    rewrite forEach_returns by exact N. cbv zeta.
    set (st1 := fold_left restoreText (wordScannerHighlights st) st).
    set (st2 := {| document := document st1; wordScannerHighlights := [];
                   nextId := nextId st1 |}).
    assert (D1 : documentChildren (document st2) = documentChildren (document st))
      by now apply restoreAll_documentChildren.
    destruct (forEach_throws
                (map nodeId (querySelectorAll "word-scanner-highlight" (document st2)))
                st2 i) as (st' & F & D).
    + rewrite querySelectorAll_ids.
      assert (I : In i (elementIds isMarked (document st1))).
      { apply restoreAll_elementIds. split.
        - apply elementIds_In. now exists t, cl, ti, cs.
        - intros I. now apply (N i I). }
      apply elementIds_In in I. destruct I as (t' & cl' & ti' & cs' & I & Q).
      apply in_flat_map. exists (Element i t' cl' ti' cs'). split; [exact I |].
      rewrite classIds_Element. unfold isMarked in Q. rewrite Q. now left.
    + now rewrite D1.
    + exists st'. rewrite F. split; [reflexivity | now rewrite D, D1].
Qed.

Lemma removeWordHighlights_throws_at_html_witness :
  exists st',
    removeWordHighlights
      {| document := [Element 0 "HTML" ["word-scanner-highlight"] EmptyString
                        [Element 1 "BODY" [] EmptyString [Text 2 "todo"]]];
         wordScannerHighlights := [];
         nextId := 3 |}
    = Abrupt (DOMException "HierarchyRequestError") st'
    /\ documentChildren (document st') = [0].
Proof.
  apply (removeWordHighlights_throws_at_html
           {| document := [Element 0 "HTML" ["word-scanner-highlight"] EmptyString
                             [Element 1 "BODY" [] EmptyString [Text 2 "todo"]]];
              wordScannerHighlights := [];
              nextId := 3 |}).
  reflexivity.
Defined.

(** A scan of a well-formed document with a body, where neither the html
    element nor the body is a member of the Set or an element of the class
    of a highlight, and with a list of non-empty words, ends without an
    exception.  It leaves the text of the page as it was; afterwards the
    highlight spans in the document are as many as the Set has members,
    and this number is what the scan reports for the badge. *)
Theorem scan_keeps_text_and_counts_highlights
    (fuel : nat) (sc : Script) (hid : nat) (hcl : list string) (hti : string)
    (hcs : list Node) (body : Node) :
  wordScannerEnabled sc = true ->
  Forall (fun w => w <> EmptyString) (forbiddenWords sc) ->
  document (dom sc) = [Element hid "HTML" hcl hti hcs] ->
  documentBody (document (dom sc)) = Some body ->
  (forall i, In i [hid; nodeId body] ->
     ~ In i (wordScannerHighlights (dom sc))
     /\ ~ In i (map nodeId
                  (querySelectorAll "word-scanner-highlight" (document (dom sc))))) ->
  List.NoDup (flat_map nodeIds (document (dom sc))) ->
  (forall i, In i (flat_map nodeIds (document (dom sc))) -> i < nextId (dom sc)) ->
  String.length (textOf (document (dom sc))) < fuel ->
  exists sc',
    scanForForbiddenWords fuel sc = Some (Normal sc')
    /\ textOf (document (dom sc')) = textOf (document (dom sc))
    /\ length (querySelectorAll "word-scanner-highlight" (document (dom sc')))
       = length (wordScannerHighlights (dom sc'))
    /\ sent sc' = sent sc ++ [length (wordScannerHighlights (dom sc'))].
Proof.
  intros En NE D Body Clean ND B Lf.
  destruct (scan_spec fuel sc _ _ _ _ _ En NE D Body Clean (conj ND B) Lf)
    as (sc' & H & T & C & S & _).
  exists sc'. auto.
Qed.

Lemma scan_keeps_text_and_counts_highlights_witness :
  exists sc',
    scanForForbiddenWords 60 samplePage = Some (Normal sc')
    /\ textOf (document (dom sc')) = textOf (document (dom samplePage))
    /\ length (querySelectorAll "word-scanner-highlight" (document (dom sc')))
       = length (wordScannerHighlights (dom sc'))
    /\ sent sc' = sent samplePage ++ [length (wordScannerHighlights (dom sc'))].
Proof.
  eapply (scan_keeps_text_and_counts_highlights 60 samplePage).
  - reflexivity.
  - repeat constructor; discriminate.
  - reflexivity.
  - reflexivity.
  - simpl. intros i H. split; intros H'; simpl in H'; intuition (subst; discriminate).
  - repeat constructor; simpl; intuition discriminate.
  - simpl. intros i H. intuition lia.
  - vm_compute. lia.
Defined.

(** The word list that the popup stores never makes the scanner loop:
    whatever the text box held when the list was saved, a scan with the
    stored list of a well-formed document with a body, where neither the
    html element nor the body is a member of the Set or an element of the
    class of a highlight, ends without an exception and leaves the text
    of the page as it was. *)
Theorem scan_with_saved_words_ends
    (popup : Popup.State) (words : list string) (fuel : nat) (sc : Script)
    (hid : nat) (hcl : list string) (hti : string) (hcs : list Node) (body : Node) :
  Popup.forbiddenWords (Popup.saveWordList popup) = Some words ->
  forbiddenWords sc = words ->
  wordScannerEnabled sc = true ->
  document (dom sc) = [Element hid "HTML" hcl hti hcs] ->
  documentBody (document (dom sc)) = Some body ->
  (forall i, In i [hid; nodeId body] ->
     ~ In i (wordScannerHighlights (dom sc))
     /\ ~ In i (map nodeId
                  (querySelectorAll "word-scanner-highlight" (document (dom sc))))) ->
  List.NoDup (flat_map nodeIds (document (dom sc))) ->
  (forall i, In i (flat_map nodeIds (document (dom sc))) -> i < nextId (dom sc)) ->
  String.length (textOf (document (dom sc))) < fuel ->
  exists sc',
    scanForForbiddenWords fuel sc = Some (Normal sc')
    /\ textOf (document (dom sc')) = textOf (document (dom sc)).
Proof.
  intros Sv Ew En D Body Clean ND B Lf.
  destruct (PopupFacts.saveWordList_words popup) as (ws & E & _ & Cl).
  rewrite Sv in E. injection E as <-.
  assert (NE : Forall (fun w => w <> EmptyString) (forbiddenWords sc)).
  { rewrite Ew. eapply List.Forall_impl; [| exact Cl]. now intros w (H & _). }
  destruct (scan_spec fuel sc _ _ _ _ _ En NE D Body Clean (conj ND B) Lf)
    as (sc' & H & T & _).
  exists sc'. auto.
Qed.

Lemma scan_with_saved_words_ends_witness :
  exists sc',
    scanForForbiddenWords 60 samplePage = Some (Normal sc')
    /\ textOf (document (dom sc')) = textOf (document (dom samplePage)).
Proof.
  eapply (scan_with_saved_words_ends
            (Popup.typed " TODO, Lorem " Popup.neverSaved) ["todo"; "lorem"] 60 samplePage).
  - reflexivity.
  - reflexivity.
  - reflexivity.
  - reflexivity.
  - reflexivity.
  - simpl. intros i H. split; intros H'; simpl in H'; intuition (subst; discriminate).
  - repeat constructor; simpl; intuition discriminate.
  - simpl. intros i H. intuition lia.
  - vm_compute. lia.
Defined.

(** Where the body has the class of a highlight, the scan takes it for a
    highlight that the Set does not know and replaces it by its text; the
    document is then without a body, the tree walker cannot be made, and
    the scan ends with a TypeError: nothing is highlighted, no count is
    reported, and the observer is left as the scan has paused it. *)
Theorem scan_fails_on_marked_body
    (fuel : nat) (sc : Script) (hid : nat) (hcl : list string) (hti : string)
    (hcs : list Node) (bid : nat) (bt : string) (bcl : list string) (bti : string)
    (bcs : list Node) :
  wordScannerEnabled sc = true ->
  forbiddenWords sc <> [] ->
  document (dom sc) = [Element hid "HTML" hcl hti hcs] ->
  List.filter isBodyElement hcs = [Element bid bt bcl bti bcs] ->
  contains bcl "word-scanner-highlight" = true ->
  ~ In hid (wordScannerHighlights (dom sc)) ->
  ~ In hid (map nodeId (querySelectorAll "word-scanner-highlight" (document (dom sc)))) ->
  exists sc',
    scanForForbiddenWords fuel sc = Some (Abrupt (JsError TypeError) sc')
    /\ documentBody (document (dom sc')) = None
    /\ textOf (document (dom sc')) = textOf (document (dom sc))
    /\ sent sc' = sent sc
    /\ wordScannerObserver sc' = wordScannerObserver (pauseObserver sc).
Proof.
  intros En NE D Fb Mb Hs Hq. rewrite querySelectorAll_ids in Hq.
  assert (Ib : In (Element bid bt bcl bti bcs) hcs /\ isBodyTag bt bcl = true).
  { assert (I : In (Element bid bt bcl bti bcs) (List.filter isBodyElement hcs))
      by (rewrite Fb; now left).
    apply List.filter_In in I. exact I. }
  assert (Only : forall x, In x (elementIds isBodyTag hcs) -> x = bid).
  { intros x I. apply elementIds_In in I. destruct I as (t & cl & ti & k & I & Q).
    assert (I' : In (Element x t cl ti k) (List.filter isBodyElement hcs))
      by (apply List.filter_In; split; [exact I | exact Q]).
    rewrite Fb in I'. destruct I' as [E | []]. now injection E. }
  unfold scanForForbiddenWords. rewrite En. cbn [negb].
  assert (Body : documentBody (document (dom sc)) = Some (Element bid bt bcl bti bcs)).
  { rewrite D, documentBody_html.
    destruct (List.find isBodyElement hcs) as [b|] eqn:F.
    - pose proof (find_isBodyElement _ _ F) as I. apply Only in I.
      apply List.find_some in F. destruct F as [I' B'].
      assert (I2 : In b (List.filter isBodyElement hcs))
        by (apply List.filter_In; now split).
      rewrite Fb in I2. destruct I2 as [<- | []]. reflexivity.
    - exfalso. pose proof (List.find_none _ _ F _ (proj1 Ib)) as N.
      cbn in N. unfold isBodyTag in Ib. destruct Ib as [_ Q]. congruence. }
  rewrite Body. cbv zeta. rewrite dom_pauseObserver, forbiddenWords_pauseObserver.
  rewrite removeWordHighlights_returns.
  2:{ rewrite D. cbn. intros i [<- | []]. rewrite D in Hq. now split. }
  assert (L0 : (length (forbiddenWords sc) =? 0)%nat = false).
  { apply Nat.eqb_neq. destruct (forbiddenWords sc); [congruence | discriminate]. }
  rewrite L0.
  assert (Gone : documentBody (document (WordScanner.removeWordHighlights (dom sc))) = None).
  { unfold WordScanner.removeWordHighlights. cbv zeta.
    destruct (restoreAll_root (wordScannerHighlights (dom sc)) (dom sc) _ _ _ _ _ D Hs)
      as (hcs1 & D1 & K1).
    set (st2 := {| document := _; wordScannerHighlights := []; nextId := _ |}).
    assert (D2 : document st2 = [Element hid "HTML" hcl hti hcs1]) by exact D1.
    assert (Sub : forall x,
               In x (map nodeId (querySelectorAll highlightClass (document st2))) ->
               In x (flat_map (classIds highlightClass) (document (dom sc)))).
    { intros x I. rewrite querySelectorAll_ids in I. cbn [st2 document] in I.
      now apply restoreAll_classIds in I. }
    destruct (restoreAll_root _ st2 _ _ _ _ _ D2 (fun I => Hq (Sub _ I)))
      as (hcs2 & D3 & K2).
    rewrite D3, documentBody_html. apply no_body. intros x I.
    apply K2 in I. destruct I as [I N2]. apply K1 in I. destruct I as [I N1].
    apply Only in I. subst x. apply N2.
    rewrite querySelectorAll_ids, D2.
    assert (Im : In bid (elementIds (fun t cl => isBodyTag t cl && isMarked t cl) hcs1)).
    { apply K1. split; [| exact N1]. apply elementIds_In.
      exists bt, bcl, bti, bcs. split; [exact (proj1 Ib) |].
      rewrite (proj2 Ib). exact Mb. }
    apply elementIds_In in Im. destruct Im as (t & cl & ti & k & Im & Q).
    apply andb_true_iff in Q. destruct Q as [_ Q]. unfold isMarked in Q.
    cbn [flat_map]. rewrite app_nil_r, classIds_Element. apply in_or_app. right.
    apply in_flat_map. exists (Element bid t cl ti k). split; [exact Im |].
    rewrite classIds_Element, Q. now left. }
  rewrite Gone. eexists. split; [reflexivity |].
  cbn [dom sent wordScannerObserver withDom].
  split; [exact Gone |]. split; [apply removeWordHighlights_text |].
  split; [apply sent_pauseObserver | reflexivity].
Qed.

Lemma scan_fails_on_marked_body_witness :
  exists sc',
    scanForForbiddenWords 20 markedBody = Some (Abrupt (JsError TypeError) sc')
    /\ documentBody (document (dom sc')) = None
    /\ textOf (document (dom sc')) = textOf (document (dom markedBody))
    /\ sent sc' = sent markedBody
    /\ wordScannerObserver sc' = wordScannerObserver (pauseObserver markedBody).
Proof.
  eapply (scan_fails_on_marked_body 20 markedBody).
  - reflexivity.
  - discriminate.
  - reflexivity.
  - reflexivity.
  - reflexivity.
  - simpl. tauto.
  - simpl. intuition discriminate.
Defined.

(** On a page that the scanner has not touched yet, a scan leaves every
    text node alone whose parent is a script, style or noscript element or
    an element of the detector: after the scan the node is still in the
    document, below an element of the same tag name and class list, with
    the text it had. *)
Theorem scan_leaves_protected_text
    (fuel : nat) (sc : Script) (hid : nat) (hcl : list string) (hti : string)
    (hcs : list Node) (body : Node) :
  wordScannerEnabled sc = true ->
  Forall (fun w => w <> EmptyString) (forbiddenWords sc) ->
  document (dom sc) = [Element hid "HTML" hcl hti hcs] ->
  documentBody (document (dom sc)) = Some body ->
  List.NoDup (flat_map nodeIds (document (dom sc))) ->
  (forall i, In i (flat_map nodeIds (document (dom sc))) -> i < nextId (dom sc)) ->
  String.length (textOf (document (dom sc))) < fuel ->
  wordScannerHighlights (dom sc) = [] ->
  querySelectorAll "word-scanner-highlight" (document (dom sc)) = [] ->
  exists sc',
    scanForForbiddenWords fuel sc = Some (Normal sc')
    /\ forall w,
         In w (flat_map textNodesBelow (document (dom sc))) ->
         isProtected w = true ->
         In w (flat_map textNodesBelow (document (dom sc'))).
Proof.
  intros En NE D Body ND B Lf S Q.
  assert (Clean : forall i, In i [hid; nodeId body] ->
            ~ In i (wordScannerHighlights (dom sc))
            /\ ~ In i (map nodeId (querySelectorAll highlightClass (document (dom sc))))).
  { intros i _. rewrite S, Q. split; intros []. }
  destruct (scan_spec fuel sc _ _ _ _ _ En NE D Body Clean (conj ND B) Lf)
    as (sc' & H & _ & _ & _ & Run).
  exists sc'. split; [exact H |]. intros w I P.
  pose proof (removeWordHighlights_fresh_page (dom sc) S Q) as D0.
  destruct Run as [[_ ->] | (b1 & pattern & B1 & PN)]; [now rewrite D0 |].
  rewrite D0, Body in B1. injection B1 as <-.
  apply (processNodes_keeps _ _ _ _ _ _ _ _ PN); [now rewrite D0 |].
  intros It.
  pose proof (walk_accepted (textNodesBelow body) [] (buildPattern (forbiddenWords sc)))
    as A.
  fold (walk (buildPattern (forbiddenWords sc)) (textNodesBelow body)) in A.
  apply A in It. destruct It as [[] | (w' & Iw' & E & P')].
  assert (w' = w) as ->; [| congruence].
  apply (same_node_same_walker (flat_map textNodesBelow (document (dom sc))));
    [| | exact I | exact E].
  - unfold textNodesBelow. rewrite walker_ids.
    exact (ListNoDup_sublist _ _ (textIds_nodeIds _) ND).
  - assert (HB : HasBody (document (dom sc))).
    { rewrite D, documentBody_html in Body. apply find_isBodyElement in Body.
      exists hid, hcl, hti, hcs, (nodeId body). now split. }
    destruct (HasBody_documentBody _ HB) as (b & Eb & _ & Inc).
    rewrite Body in Eb. injection Eb as <-.
    exact (Inc EmptyString [] _ Iw').
Qed.

Lemma scan_leaves_protected_text_witness :
  exists sc',
    scanForForbiddenWords 40 freshPage = Some (Normal sc')
    /\ forall w,
         In w (flat_map textNodesBelow (document (dom freshPage))) ->
         isProtected w = true ->
         In w (flat_map textNodesBelow (document (dom sc'))).
Proof.
  eapply (scan_leaves_protected_text 40 freshPage).
  - reflexivity.
  - repeat constructor; discriminate.
  - reflexivity.
  - reflexivity.
  - repeat constructor; simpl; intuition discriminate.
  - simpl. intros i H. intuition lia.
  - vm_compute. lia.
  - reflexivity.
  - reflexivity.
Defined.

End ScanFacts.

(** ** Properties of the menu titles *)

Module TitlesFacts.
Import Js Titles.

(** A code unit that may be shown in a menu. *)
Definition shown (c : N) : Prop := isControl c = false /\ isInvisible c = false.

Lemma sanitized_shown s c :
  In c (replaceClass isInvisible middleDot (replaceClass isControl middleDot s)) ->
  shown c.
Proof.
  unfold replaceClass. rewrite map_map. intros I. apply in_map_iff in I.
  destruct I as (d & <- & _). unfold shown.
  destruct (isControl d) eqn:C.
  - split; reflexivity.
  - destruct (isInvisible d) eqn:V; [split; reflexivity | now split].
Qed.

Lemma literal_shown (s : string) c :
  forallb (fun c => negb (isControl c) && negb (isInvisible c)) (ofString s) = true ->
  In c (ofString s) -> shown c.
Proof.
  intros F I. rewrite forallb_forall in F. specialize (F c I).
  apply andb_true_iff in F. destruct F as [A B].
  apply negb_true_iff in A, B. now split.
Qed.


(** A title made by [truncate] holds no control character and none of the
    invisible characters, whatever the argument and the length are. *)
Theorem truncate_is_display_safe (str : option (list N)) (len : nat) (c : N) :
  In c (truncate str len) -> isControl c = false /\ isInvisible c = false.
Proof.
  unfold truncate.
  destruct str as [[| c0 s] |]; try (apply literal_shown; reflexivity).
  set (sanitized := replaceClass _ _ (replaceClass _ _ (c0 :: s))).
  destruct (length sanitized <=? len)%nat.
  - destruct sanitized as [| d r] eqn:E; [apply literal_shown; reflexivity |].
    rewrite <- E. exact (sanitized_shown (c0 :: s) c).
  - intros I. apply in_app_or in I. destruct I as [I | [<- | []]].
    + apply (sanitized_shown (c0 :: s) c). fold sanitized.
      rewrite <- (firstn_skipn len sanitized). apply in_or_app. now left.
    + split; reflexivity.
Qed.

Lemma truncate_is_display_safe_witness :
  In 183%N (truncate (Some [72; 10; 105]%N) 35)
  /\ isControl 183 = false /\ isInvisible 183 = false.
Proof.
  split; [simpl; tauto |].
  apply (truncate_is_display_safe (Some [72; 10; 105]%N) 35 183%N). simpl. tauto.
Defined.



(** The title of an item that is a string is made without an exception,
    has at most 36 code units and none that is a control character or
    invisible; the title of an object with a name that is not empty is the
    name as it is, whatever it holds. *)
Theorem getItemTitle_of_string (s : list N) :
  (exists title,
     getItemTitle (ItemString s) = Return title
     /\ length title <= 36
     /\ forall c, In c title -> isControl c = false /\ isInvisible c = false)
  /\ (forall c name value,
        getItemTitle (ItemObject (Some (c :: name)) value) = Return (c :: name)).
Proof.
  split; [| reflexivity].
  eexists. split; [reflexivity |]. split.
  - unfold truncate. destruct s as [| c0 s]; [cbn; lia |].
    set (sanitized := replaceClass _ _ (replaceClass _ _ (c0 :: s))).
    clearbody sanitized.
    destruct (length sanitized <=? 35)%nat eqn:C.
    + apply Nat.leb_le in C. destruct sanitized; [cbn; lia | lia].
    + rewrite length_app, length_firstn. cbn [length]. lia.
  - intros c. unfold truncate.
    destruct s as [| c0 s]; [apply literal_shown; reflexivity |].
    set (sanitized := replaceClass _ _ (replaceClass _ _ (c0 :: s))).
    destruct (length sanitized <=? 35)%nat.
    + destruct sanitized as [| d r] eqn:E; [apply literal_shown; reflexivity |].
      rewrite <- E. exact (sanitized_shown (c0 :: s) c).
    + intros I. apply in_app_or in I. destruct I as [I | [<- | []]].
      * apply (sanitized_shown (c0 :: s) c). fold sanitized.
        rewrite <- (firstn_skipn 35 sanitized). apply in_or_app. now left.
      * split; reflexivity.
Qed.

End TitlesFacts.

(** ** Properties of the mutation observer *)

Module ObserverFacts.
Import Js Analysis Dom DomFacts Overlay OverlayFacts ContentScript ContentFacts Observer.

(** The counters agree with the overlays of the document, and the last
    report carries them. *)
Definition Settled (p : Overlay.State) : Prop :=
  fieldStats p = recount (querySelectorAll "autofill-detector-overlay" (body p))
  /\ last (sent p) = Some (updateBadgeMessage (fieldStats p)).

Lemma report_then_reconcile p : Settled (reconcileStats (updateBadge p)).
Proof.
  unfold Settled, reconcileStats. rewrite actualStats_recount.
  change (body (updateBadge p)) with (body p).
  change (fieldStats (updateBadge p)) with (fieldStats p).
  destruct (drifted _ _) eqn:D.
  - cbn [fieldStats body sent updateBadge setFieldStats]. split; [reflexivity |].
    apply last_snoc.
  - apply drifted_false in D. cbn [fieldStats body sent updateBadge]. split; [exact D |].
    apply last_snoc.
Qed.

Lemma rescanField_returns view sc f : exists sc', rescanField view sc f = Return sc'.
Proof.
  unfold rescanField. destruct (analyzedFields sc !! f); [now eexists |].
  destruct (scanField_step view sc f) as (sc' & E & _). now exists sc'.
Qed.

Lemma forEach_rescanField view fields :
  forall sc, exists sc', forEach (rescanField view) fields sc = Return sc'.
Proof.
  induction fields as [| f rest IH]; intros sc; [now eexists |].
  cbn [forEach]. destruct (rescanField_returns view sc f) as (sc1 & ->).
  rewrite bind_Return. apply IH.
Qed.

(** Both ways in which the observer ends its work leave the counters
    settled: after a batch that removes fields and adds none, and after the
    rescan timer has fired, the counters equal a recount of the overlays in
    the document and the last report sent carries exactly these counters;
    the timer callback never ends with an exception. *)
Theorem observer_settles_the_counters :
  (forall mutations st,
     isEnabled (script st) = true ->
     collect addedNodes mutations = [] ->
     collect removedNodes mutations <> [] ->
     Settled (page (script (onMutations mutations st))))
  /\ (forall view st newFields,
        rescanTimeout st = Some newFields ->
        exists st',
          onRescanTimeout view st = Return st'
          /\ rescanTimeout st' = None
          /\ Settled (page (script st'))).
Proof.
  split.
  - intros mutations st En Add Rem. unfold onMutations. rewrite En, Add. cbn [negb length Nat.ltb Nat.leb].
    destruct (collect removedNodes mutations) as [| f r]; [congruence |].
    cbn [length Nat.ltb Nat.leb]. cbn [script withScript page withPage].
    apply report_then_reconcile.
  - intros view st newFields P. unfold onRescanTimeout. rewrite P.
    destruct (forEach_rescanField view newFields (script st)) as (sc1 & ->).
    rewrite bind_Return. eexists. split; [reflexivity |]. split; [reflexivity |].
    cbn [script page withPage]. apply report_then_reconcile.
Qed.

Lemma uncountField_total level s : total (uncountField level s) = (total s - 1)%Z.
Proof. now destruct level. Qed.

(** When a field is taken out of the document that has an analysis in
    the cache but no overlay (its analysis had no finding, so it was never
    counted), the counters are lowered all the same: the observer first
    reports counters whose total is one less than the number of overlays,
    and the reconciliation then reports the right ones again. *)
Theorem removing_uncounted_field_reports_drift
    (st : State) (node : Node) (field : nat) (cached : FieldAnalysis) :
  isEnabled (script st) = true ->
  fieldStats (page (script st))
  = recount (querySelectorAll "autofill-detector-overlay" (body (page (script st)))) ->
  fieldsIn node = [field] ->
  analyzedFields (script st) !! field = Some (Some cached) ->
  overlayMap (page (script st)) !! field = None ->
  tooltipMap (page (script st)) !! field = None ->
  let st' := onMutations [{| m_type := mutChildList; addedNodes := [];
                             removedNodes := [node] |}] st in
  let drifted := uncountField (riskLevel (verdict cached)) (fieldStats (page (script st))) in
  sent (page (script st'))
  = sent (page (script st))
    ++ [updateBadgeMessage drifted; updateBadgeMessage (fieldStats (page (script st)))]
  /\ total drifted = (total (fieldStats (page (script st))) - 1)%Z
  /\ fieldStats (page (script st')) = fieldStats (page (script st))
  /\ body (page (script st')) = body (page (script st)).
Proof.
  intros En Inv F Cached NoO NoT. cbv zeta.
  unfold onMutations. rewrite En. cbn [negb]. unfold collect.
  cbn [flat_map m_type addedNodes removedNodes app length Nat.ltb Nat.leb].
  rewrite F. cbn [app length Nat.ltb Nat.leb fold_left].
  unfold forgetField. rewrite NoO, NoT, Cached.
  cbn [script withScript page withPage].
  set (p := page (script st)) in *.
  set (d := uncountField (riskLevel (verdict cached)) (fieldStats p)).
  unfold reconcileStats. rewrite actualStats_recount.
  change (body (updateBadge (setFieldStats d p))) with (body p).
  change (fieldStats (updateBadge (setFieldStats d p))) with d.
  rewrite <- Inv.
  destruct (drifted d (fieldStats p)) eqn:D.
  - cbn [sent fieldStats body updateBadge setFieldStats]. rewrite <- app_assoc.
    split; [reflexivity |]. split; [apply uncountField_total |]. split; reflexivity.
  - apply drifted_false in D. exfalso.
    assert (T : total d = total (fieldStats p)) by now rewrite D.
    unfold d in T. rewrite uncountField_total in T. lia.
Qed.

Lemma removing_uncounted_field_reports_drift_witness :
  let st' := onMutations [{| m_type := mutChildList; addedNodes := [];
                             removedNodes := [Element 1 "INPUT" [] EmptyString []] |}]
               quietPage in
  let drifted := uncountField (riskLevel (verdict (quietAnalysis 1)))
                   (fieldStats (page (script quietPage))) in
  sent (page (script st'))
  = sent (page (script quietPage))
    ++ [updateBadgeMessage drifted;
        updateBadgeMessage (fieldStats (page (script quietPage)))]
  /\ total drifted = (total (fieldStats (page (script quietPage))) - 1)%Z
  /\ fieldStats (page (script st')) = fieldStats (page (script quietPage))
  /\ body (page (script st')) = body (page (script quietPage)).
Proof.
  apply (removing_uncounted_field_reports_drift quietPage
           (Element 1 "INPUT" [] EmptyString []) 1 (quietAnalysis 1)).
  - reflexivity.
  - reflexivity.
  - reflexivity.
  - reflexivity.
  - reflexivity.
  - reflexivity.
Defined.

End ObserverFacts.
